(** * 3DWebView: the scene service and the topology store

    A shallow embedding of
    - [services/tree-scene.service.ts]: [ThreeSceneService] (model roots,
      port indicators, cables, click selection, blinking) and
      [TopologyStateService] (the reactive topology store), and
    - [pages/topology-viewer/topology-viewer.component.ts]: the glue
      between the two.

    JavaScript objects used as dictionaries are [gmap string _] for the
    keys stored in them, read through [js_get], which also finds the
    properties every object inherits ('constructor', 'toString', ...);
    arrays are lists; optional fields are [option]; numbers that are only stored are
    real numbers, colours are their 24-bit hex value in [Z], timestamps
    ([Date.now()]) are [Z] milliseconds.  An [async] method is a value of
    [Async]: either it returned before its first [await], or it is
    suspended on a load and carries the continuation that will run, on the
    state of that later moment, when the load settles. *)

From Stdlib Require Import ZArith Reals Lra List Ascii String.
From stdpp Require Import base strings gmap list fin_maps pretty.

Local Open Scope Z_scope.

(* ===================================================================== *)
(** ** The rendering engine, as far as the services use it               *)
(* ===================================================================== *)

Module Engine.

(** [THREE.Color], by its hex value. *)
Definition Color := Z.

Record Vector3 := mkVector3 { vx : R; vy : R; vz : R }.

Record Material := mkMaterial { color : Color; emissive : Color }.

Definition set_color (c : Color) (m : Material) : Material :=
  {| color := c; emissive := emissive m |}.
Definition set_emissive (c : Color) (m : Material) : Material :=
  {| color := color m; emissive := c |}.

(** The engine resolves a style string against the colour an object
    currently has ([Color.set] on a string, i.e. [Color.setStyle]); the
    services only call it. *)
Class ColorParser := Color_setStyle : string -> Color -> Color.

(** [new Vector3().subVectors(a, b)] *)
Definition subVectors (a b : Vector3) : Vector3 :=
  mkVector3 (vx a - vx b) (vy a - vy b) (vz a - vz b).
(** [v.add(w)] *)
Definition addVectors (v w : Vector3) : Vector3 :=
  mkVector3 (vx v + vx w) (vy v + vy w) (vz v + vz w).
(** [v.multiplyScalar(s)] *)
Definition multiplyScalar (v : Vector3) (s : R) : Vector3 :=
  mkVector3 (vx v * s) (vy v * s) (vz v * s).
(** [v.length()] *)
Definition lengthOf (v : Vector3) : R :=
  sqrt (vx v * vx v + vy v * vy v + vz v * vz v).
(** [v.normalize()], which is [v.divideScalar(v.length() || 1)] *)
Definition normalize (v : Vector3) : Vector3 :=
  let l := lengthOf v in
  let d := if Req_dec_T l 0 then 1%R else l in
  mkVector3 (vx v / d) (vy v / d) (vz v / d).
(** [a.distanceTo(b)] *)
Definition distanceTo (a b : Vector3) : R :=
  let dx := (vx a - vx b)%R in
  let dy := (vy a - vy b)%R in
  let dz := (vz a - vz b)%R in
  sqrt (dx * dx + dy * dy + dz * dz).
(** The point halfway between two points. *)
Definition midpoint (a b : Vector3) : Vector3 :=
  mkVector3 ((vx a + vx b) / 2) ((vy a + vy b) / 2) ((vz a + vz b) / 2).

(** A node of a loaded asset: [name], whether it is a [THREE.Mesh], its
    material, the world position the engine reports for it
    ([getWorldPosition]) and its children. *)
#[local] Unset Elimination Schemes.
Inductive Object3D :=
  mkObject3D (name : string) (isMesh : bool) (material : Material)
             (worldPosition : Vector3) (children : list Object3D).
#[local] Set Elimination Schemes.

Definition name (o : Object3D) : string :=
  match o with mkObject3D n _ _ _ _ => n end.
Definition isMesh (o : Object3D) : bool :=
  match o with mkObject3D _ b _ _ _ => b end.
Definition material (o : Object3D) : Material :=
  match o with mkObject3D _ _ m _ _ => m end.
Definition getWorldPosition (o : Object3D) : Vector3 :=
  match o with mkObject3D _ _ _ p _ => p end.
Definition children (o : Object3D) : list Object3D :=
  match o with mkObject3D _ _ _ _ cs => cs end.
Definition set_name (n : string) (o : Object3D) : Object3D :=
  match o with mkObject3D _ b m p cs => mkObject3D n b m p cs end.

(** [o.traverse(callback)] visits [o] itself, then its descendants,
    depth first; this is the order of the visits. *)
Fixpoint traverse (o : Object3D) : list Object3D :=
  match o with
  | mkObject3D _ _ _ _ cs => o :: flat_map traverse cs
  end.

(** What [GLTFLoader.loadAsync] settles to: a rejection, or a fresh
    scene graph ([gltf.scene]). *)
Inductive LoadResult :=
| LoadError
| Loaded (scene : Object3D).

End Engine.

(* ===================================================================== *)
(** ** topology-state.service: the topology store                         *)
(* ===================================================================== *)

Module TopologyState.

Record Vector3D := mkVector3D { x : R; y : R; z : R }.

Record EulerRotation :=
  mkEulerRotation { rx : R; ry : R; rz : R; order : option string }.

Record PortState := mkPortState {
  name : string;
  status : string;
  blinking : bool;
  connectedCableId : option string }.

Record ModelInstance := mkModelInstance {
  id : string;
  modelDefinitionId : string;
  assetUrl : string;
  displayName : option string;
  position : Vector3D;
  rotation : EulerRotation;
  ports : list PortState }.

Record Endpoint := mkEndpoint { modelId : string; portAttachName : string }.

Record CableConnection := mkCableConnection {
  cable_id : string;
  cableModelUrl : option string;
  source : Endpoint;
  target : Endpoint }.

Record TopologyLayout := mkTopologyLayout {
  layout_id : string;
  layout_name : string;
  models : list ModelInstance;
  connections : list CableConnection }.

Inductive ObjectType := port | device.

Record SelectedObjectInfo := mkSelectedObjectInfo {
  sel_modelId : string;
  objectName : string;
  objectType : ObjectType }.

(** The three [BehaviorSubject]s of the service, by their current value. *)
Record Store := mkStore {
  currentTopology : option TopologyLayout;
  selectedObject : option SelectedObjectInfo;
  isLoading : bool }.

Definition next_currentTopology (t : option TopologyLayout) (s : Store) : Store :=
  {| currentTopology := t; selectedObject := selectedObject s;
     isLoading := isLoading s |}.
Definition next_selectedObject (o : option SelectedObjectInfo) (s : Store) : Store :=
  {| currentTopology := currentTopology s; selectedObject := o;
     isLoading := isLoading s |}.

Definition setSelectedObject (m n : string) (ty : ObjectType) (s : Store) : Store :=
  next_selectedObject (Some (mkSelectedObjectInfo m n ty)) s.

Definition clearSelectedObject (s : Store) : Store :=
  next_selectedObject None s.

Definition getSelectedObjectValue (s : Store) : option SelectedObjectInfo :=
  selectedObject s.

Definition addModelInstance (m : ModelInstance) (s : Store) : Store :=
  match currentTopology s with
  | Some t =>
      next_currentTopology
        (Some (mkTopologyLayout (layout_id t) (layout_name t)
                 (models t ++ [m]) (connections t))) s
  | None => s
  end.

(** [Array.prototype.filter] with the callbacks of [removeModelInstance]. *)
Definition keeps_model (mid : string) (m : ModelInstance) : bool :=
  negb (String.eqb (id m) mid).
Definition keeps_connection (mid : string) (c : CableConnection) : bool :=
  negb (String.eqb (modelId (source c)) mid)
  && negb (String.eqb (modelId (target c)) mid).

Definition removeModelInstance (mid : string) (s : Store) : Store :=
  match currentTopology s with
  | Some t =>
      let updatedModels := List.filter (keeps_model mid) (models t) in
      let updatedConnections :=
        List.filter (keeps_connection mid) (connections t) in
      let s1 :=
        next_currentTopology
          (Some (mkTopologyLayout (layout_id t) (layout_name t)
                   updatedModels updatedConnections)) s in
      match getSelectedObjectValue s1 with
      | Some sel =>
          if String.eqb (sel_modelId sel) mid
          then clearSelectedObject s1 else s1
      | None => s1
      end
  | None => s
  end.

(** [Array.prototype.findIndex]: the first index whose element satisfies
    the predicate; [None] stands for [-1]. *)
Fixpoint findIndex {A} (p : A -> bool) (l : list A) : option nat :=
  match l with
  | [] => None
  | a :: l' => if p a then Some 0%nat else S <$> findIndex p l'
  end.

Definition with_status (st : string) (b : bool) (p : PortState) : PortState :=
  {| name := name p; status := st; blinking := b;
     connectedCableId := connectedCableId p |}.

Definition with_ports (ps : list PortState) (m : ModelInstance) : ModelInstance :=
  {| id := id m; modelDefinitionId := modelDefinitionId m;
     assetUrl := assetUrl m; displayName := displayName m;
     position := position m; rotation := rotation m; ports := ps |}.

Definition updatePortState (mid pname newStatus : string) (newBlinking : bool)
    (s : Store) : Store :=
  match currentTopology s with
  | Some t =>
      match findIndex (fun m => String.eqb (id m) mid) (models t) with
      | Some modelIndex =>
          match models t !! modelIndex with
          | Some m =>
              match findIndex (fun p => String.eqb (name p) pname) (ports m) with
              | Some portIndex =>
                  match ports m !! portIndex with
                  | Some p =>
                      let ports' :=
                        <[portIndex := with_status newStatus newBlinking p]> (ports m) in
                      let models' := <[modelIndex := with_ports ports' m]> (models t) in
                      next_currentTopology
                        (Some (mkTopologyLayout (layout_id t) (layout_name t)
                                 models' (connections t))) s
                  | None => s
                  end
              | None => s
              end
          | None => s
          end
      | None => s
      end
  | None => s
  end.

(** [`${n}`] for an integer [n], as in the ids the code makes from
    [Date.now()]. *)
Definition number_to_string (n : Z) : string := pretty n.

Definition with_cable_id (i : string) (c : CableConnection) : CableConnection :=
  {| cable_id := i; cableModelUrl := cableModelUrl c;
     source := source c; target := target c |}.

(** [addCableConnection].  A connection without id gets
    [`cable_${Date.now()}_${Math.random().toString(36).substr(2, 5)}`];
    [now] is the clock reading and [random] the characters that
    [substr(2, 5)] takes of the random number. *)
Definition addCableConnection (now : Z) (random : string)
    (connection : CableConnection) (s : Store) : Store :=
  match currentTopology s with
  | Some t =>
      let connection :=
        if String.eqb (cable_id connection) ""
        then with_cable_id ("cable_" +:+ number_to_string now +:+ "_" +:+ random)
               connection
        else connection in
      next_currentTopology
        (Some (mkTopologyLayout (layout_id t) (layout_name t) (models t)
                 (connections t ++ [connection]))) s
  | None => s
  end.

Definition removeCableConnection (cableId : string) (s : Store) : Store :=
  match currentTopology s with
  | Some t =>
      next_currentTopology
        (Some (mkTopologyLayout (layout_id t) (layout_name t) (models t)
                 (List.filter (fun c => negb (String.eqb (cable_id c) cableId))
                    (connections t)))) s
  | None => s
  end.

Definition getCurrentTopologyValue (s : Store) : option TopologyLayout :=
  currentTopology s.

Definition getFallbackTopology : TopologyLayout :=
  mkTopologyLayout "fallback-layout" "Fallback Topology (Error Loading)" [] [].

Definition next_isLoading (b : bool) (s : Store) : Store :=
  {| currentTopology := currentTopology s; selectedObject := selectedObject s;
     isLoading := b |}.

(** What a request to the backend settles to. *)
Inductive Response :=
| Ok (body : TopologyLayout)
| Failed.

(** What a method that talks to the backend leaves behind when it returns:
    nothing, or a request in flight with the code that runs, on the store
    of that later moment, when the request settles. *)
Inductive Pending :=
| NoRequest
| Request (method url : string) (body : option TopologyLayout)
          (settled : Response -> Store -> Store).

Definition apiUrl : string := "/api/topology".

(** [loadTopology]: the store when the method returns, and the request. *)
Definition loadTopology (layoutId : string) (s : Store) : Store * Pending :=
  (next_isLoading true s,
   Request "GET" (apiUrl +:+ "/layouts/" +:+ layoutId) None
     (fun r s =>
        let s :=
          match r with
          | Ok topology => next_currentTopology (Some topology) s
          | Failed => next_currentTopology (Some getFallbackTopology) s
          end in
        next_isLoading false s)).

(** [saveCurrentTopology] *)
Definition saveCurrentTopology (s : Store) : Store * Pending :=
  match currentTopology s with
  | None => (s, NoRequest)
  | Some t =>
      (next_isLoading true s,
       Request "PUT" (apiUrl +:+ "/layouts/" +:+ layout_id t) (Some t)
         (fun r s =>
            let s :=
              match r with
              | Ok savedTopology => next_currentTopology (Some savedTopology) s
              | Failed => s
              end in
            next_isLoading false s))
  end.

(** The request of [p] settling with [r] on the store [s]. *)
Definition settle_request (r : Response) (p : Pending) (s : Store) : Store :=
  match p with
  | NoRequest => s
  | Request _ _ _ settled => settled r s
  end.

(** [Partial<ModelInstance>] *)
Record PartialModelInstance := mkPartialModelInstance {
  p_id : option string;
  p_modelDefinitionId : option string;
  p_assetUrl : option string;
  p_displayName : option string;
  p_position : option Vector3D;
  p_rotation : option EulerRotation;
  p_ports : option (list PortState) }.

(** [getModelDefinition]: the value the returned observable delivers. *)
Definition getModelDefinition (modelDefinitionId : string)
  : option PartialModelInstance :=
  if String.eqb modelDefinitionId "Switch_ModelA" then
    Some (mkPartialModelInstance None None (Some "assets/models/Switch_ModelA.glb")
            None None None (Some []))
  else if String.eqb modelDefinitionId "Router_ModelB" then
    Some (mkPartialModelInstance None None (Some "assets/models/Router_ModelB.glb")
            None None None (Some []))
  else None.

End TopologyState.

(* ===================================================================== *)
(** ** tree-scene.service: [ThreeSceneService]                            *)
(* ===================================================================== *)

Module ThreeScene.
Import Engine.
Export TopologyState (Vector3D, EulerRotation, Endpoint, mkEndpoint,
                      modelId, portAttachName, ObjectType, port, device).

(** *** Strings, as the service uses them *)

(** [s.startsWith(p)] *)
Definition startsWith (s p : string) : bool := String.prefix p s.

(** [s.endsWith(suffix)] *)
Definition endsWith (s suffix : string) : bool :=
  let n := String.length s in
  let k := String.length suffix in
  (k <=? n)%nat && String.eqb (String.substring (n - k) k s) suffix.

(** [s.replace(pattern, replacement)] with a string pattern: the first
    occurrence only. *)
Definition replace (s pattern replacement : string) : string :=
  match String.index 0 pattern s with
  | Some n =>
      String.substring 0 n s +:+ replacement +:+
      String.substring (n + String.length pattern)
        (String.length s - (n + String.length pattern)) s
  | None => s
  end.

(** Truthiness of a [string | null] and of an optional number/boolean. *)
Definition truthy_string (o : option string) : bool :=
  match o with Some s => negb (String.eqb s "") | None => false end.
Definition truthy_number (o : option Z) : bool :=
  match o with Some t => negb (t =? 0) | None => false end.
Definition truthy_bool (o : option bool) : bool :=
  match o with Some b => b | None => false end.

(** *** Objects used as dictionaries *)

(** [loadedModels], [cables], [portIndicators] and [portAttachPoints] are
    plain objects read with [o[key]].  Such a read finds the value stored
    under [key]; when nothing is stored there and [key] names a property
    that every object inherits from [Object.prototype], it finds that
    property: a function (for '__proto__' the prototype itself), which is
    truthy and has none of the fields the service goes on to read.
    Enumeration ([Object.keys], [Object.values], [for ... in]) goes over
    the stored keys only. *)
Definition inherited (key : string) : bool :=
  existsb (String.eqb key)
    [ "constructor"; "__defineGetter__"; "__defineSetter__"; "hasOwnProperty";
      "__lookupGetter__"; "__lookupSetter__"; "isPrototypeOf";
      "propertyIsEnumerable"; "toString"; "valueOf"; "__proto__";
      "toLocaleString" ].

Inductive Lookup (A : Type) :=
| Own (a : A)
| Inherited
| Missing.
Arguments Own {A} a.
Arguments Inherited {A}.
Arguments Missing {A}.

(** [o[key]] *)
Definition js_get {A : Type} (o : gmap string A) (key : string) : Lookup A :=
  match o !! key with
  | Some a => Own a
  | None => if inherited key then Inherited else Missing
  end.

(** *** Data *)

(** An indicator mesh.  At load time the service gives every indicator
    its own clone of the material, so the material lives with the mesh it
    belongs to. *)
Record Mesh := mkMesh { mesh_name : string; mesh_material : Material }.

Record PortInfo := mkPortInfo {
  mesh : Mesh;
  originalColor : Color;
  originalEmissive : Color;
  blinking : option bool;
  blinkOn : option bool;
  lastBlinkTime : option Z;
  currentState : option string }.

(** [object] is the identity of the root group in the scene. *)
Record LoadedModel := mkLoadedModel {
  id : string;
  object : nat;
  portIndicators : gmap string PortInfo;
  portAttachPoints : gmap string Object3D }.

(** The cylinder the service builds for a cable: [CylinderGeometry] of
    the given height, placed at [cable_position], its Y axis turned onto
    [cable_axis], with a [MeshStandardMaterial] of [cable_color]. *)
Record CableMesh := mkCableMesh {
  cable_uid : nat;
  cable_name : string;
  cable_height : R;
  cable_position : Vector3;
  cable_axis : Vector3;
  cable_color : Color }.

Record CableInfo := mkCableInfo {
  cable_id : string;
  cable_object : CableMesh;
  source : Endpoint;
  target : Endpoint }.

(** The direct children of [this.scene]. *)
Inductive SceneChild :=
| Light (uid : nat)
| ModelRoot (uid : nat) (name : string)
            (position : option Vector3D) (rotation : option EulerRotation)
| CableCylinder (uid : nat) (name : string).

Definition child_uid (c : SceneChild) : nat :=
  match c with
  | Light u | ModelRoot u _ _ _ | CableCylinder u _ => u
  end.

(** [has_scene] tells whether [this.scene] is defined, which it is from
    the first [initScene] on; [scene] are its children (none while there
    is no scene).  [fresh] numbers the objects as they are created.

    A method that reaches [this.scene] while there is no scene throws a
    TypeError.  [addModelToScene] does so inside its [try], after the
    load.  The other methods get that far only on the service as
    constructed, which they leave as it is. *)
Record State := mkState {
  has_scene : bool;
  scene : list SceneChild;
  loadedModels : gmap string LoadedModel;
  cables : gmap string CableInfo;
  fresh : nat }.

Definition with_scene (sc : list SceneChild) (st : State) : State :=
  {| has_scene := has_scene st; scene := sc; loadedModels := loadedModels st;
     cables := cables st; fresh := fresh st |}.
Definition with_loadedModels (lm : gmap string LoadedModel) (st : State) : State :=
  {| has_scene := has_scene st; scene := scene st; loadedModels := lm;
     cables := cables st; fresh := fresh st |}.
Definition with_cables (cs : gmap string CableInfo) (st : State) : State :=
  {| has_scene := has_scene st; scene := scene st;
     loadedModels := loadedModels st; cables := cs; fresh := fresh st |}.
Definition with_fresh (n : nat) (st : State) : State :=
  {| has_scene := has_scene st; scene := scene st;
     loadedModels := loadedModels st; cables := cables st; fresh := n |}.

(** [scene.add(o)] and [scene.remove(o)] *)
Definition scene_add (c : SceneChild) (st : State) : State :=
  with_scene (scene st ++ [c]) st.
Definition scene_remove (u : nat) (st : State) : State :=
  with_scene (List.filter (fun c => negb (Nat.eqb (child_uid c) u)) (scene st)) st.

(** The service as constructed, before [initScene]: no scene yet. *)
Definition initial : State := mkState false [] ∅ ∅ 0.

(** [initScene]: a new scene with the two lights; the maps are kept. *)
Definition initScene (st : State) : State :=
  {| has_scene := true;
     scene := [Light (fresh st); Light (S (fresh st))];
     loadedModels := loadedModels st; cables := cables st;
     fresh := 2 + fresh st |}.

(** The payload of [onObjectSelected]. *)
Record SelectedEvent := mkSelectedEvent {
  ev_modelId : string;
  ev_objectName : string;
  ev_objectType : ObjectType }.

(** An [async] method call.  Neither async method of the service writes
    to the service before its first [await], so a call either has
    returned ([Settled]) or is suspended on a load ([Await]) with the code
    after the [await]: that code keeps the locals it had computed and runs
    on the state the service has when the load settles. *)
Inductive Async :=
| Settled
| Await (url : string) (resume : LoadResult -> State -> State).

(** The rest of a call, run on the state [st] the service has when the
    load settles with [r]; nothing is left to run of a call that returned. *)
Definition settle (r : LoadResult) (call : Async) (st : State) : State :=
  match call with
  | Settled => st
  | Await _ resume => resume r st
  end.

(** The call with its load settling at once, nothing running in between. *)
Definition run_now (call : State -> Async) (r : LoadResult) (st : State) : State :=
  settle r (call st) st.

Definition BLINK_INTERVAL : Z := 500.

Section Service.
Context `{ColorParser}.

(** *** Port state *)

Definition set_mesh_material (m : Material) (p : PortInfo) : PortInfo :=
  {| mesh := mkMesh (mesh_name (mesh p)) m;
     originalColor := originalColor p; originalEmissive := originalEmissive p;
     blinking := blinking p; blinkOn := blinkOn p;
     lastBlinkTime := lastBlinkTime p; currentState := currentState p |}.
Definition set_blinking (b : option bool) (p : PortInfo) : PortInfo :=
  {| mesh := mesh p;
     originalColor := originalColor p; originalEmissive := originalEmissive p;
     blinking := b; blinkOn := blinkOn p;
     lastBlinkTime := lastBlinkTime p; currentState := currentState p |}.
Definition set_currentState (s : option string) (p : PortInfo) : PortInfo :=
  {| mesh := mesh p;
     originalColor := originalColor p; originalEmissive := originalEmissive p;
     blinking := blinking p; blinkOn := blinkOn p;
     lastBlinkTime := lastBlinkTime p; currentState := s |}.
Definition set_blink (on : option bool) (t : option Z) (p : PortInfo) : PortInfo :=
  {| mesh := mesh p;
     originalColor := originalColor p; originalEmissive := originalEmissive p;
     blinking := blinking p; blinkOn := on;
     lastBlinkTime := t; currentState := currentState p |}.

Definition with_portIndicators (ps : gmap string PortInfo) (m : LoadedModel)
  : LoadedModel :=
  {| id := id m; object := object m; portIndicators := ps;
     portAttachPoints := portAttachPoints m |}.
Definition with_portAttachPoints (ps : gmap string Object3D) (m : LoadedModel)
  : LoadedModel :=
  {| id := id m; object := object m; portIndicators := portIndicators m;
     portAttachPoints := ps |}.

(** The body of [setPortState] on the port it found. *)
Definition apply_port_state (state : string) (blink : bool) (p : PortInfo)
  : PortInfo :=
  let p := set_currentState (Some state) (set_blinking (Some blink) p) in
  let material := mesh_material (mesh p) in
  if String.eqb state "active" then
    set_mesh_material
      (set_emissive (if blink then 0x003300 else 0x008800)
         (set_color 0x00ff00 material)) p
  else if String.eqb state "inactive" then
    set_blinking (Some false)
      (set_mesh_material (set_emissive 0x000000 (set_color 0x808080 material)) p)
  else if String.eqb state "error" then
    set_mesh_material
      (set_emissive (if blink then 0x330000 else 0x880000)
         (set_color 0xff0000 material)) p
  else
    set_mesh_material
      (set_emissive 0x000000
         (set_color (Color_setStyle state (color material)) material)) p.

Definition set_cable_color (c : Color) (ci : CableInfo) : CableInfo :=
  let o := cable_object ci in
  {| cable_id := cable_id ci;
     cable_object :=
       mkCableMesh (cable_uid o) (cable_name o) (cable_height o)
         (cable_position o) (cable_axis o) c;
     source := source ci; target := target ci |}.

Definition cable_touches_port (mid portIndicatorName : string) (ci : CableInfo)
  : bool :=
  let stem := replace portIndicatorName "_Indicator" "" in
  (String.eqb (modelId (source ci)) mid
     && startsWith (portAttachName (source ci)) stem)
  || (String.eqb (modelId (target ci)) mid
        && startsWith (portAttachName (target ci)) stem).

Definition state_cable_color (s : option string) : Color :=
  match s with
  | Some s =>
      if String.eqb s "active" then 0x00aa00
      else if String.eqb s "inactive" then 0x505050
      else if String.eqb s "error" then 0xaa0000
      else 0x505050
  | None => 0x505050
  end.

(** [updateCableVisualsForPort].  For a cable at the port the model and
    the port are looked up: a port that is stored gives the colour of its
    state; an inherited property taken for the port has no [currentState]
    and gives the default colour; with no port ([undefined]) or no model
    (the optional chaining stops) the cable is skipped.  An inherited
    property taken for the model has no [portIndicators]: reading the port
    from it throws a TypeError at the first such cable, before any colour
    is written. *)
Definition updateCableVisualsForPort (mid portIndicatorName : string)
    (st : State) : State :=
  let recolor (ci : CableInfo) : CableInfo :=
    if cable_touches_port mid portIndicatorName ci then
      match js_get (loadedModels st) mid with
      | Own modelData =>
          match js_get (portIndicators modelData) portIndicatorName with
          | Own portInfo =>
              set_cable_color (state_cable_color (currentState portInfo)) ci
          | Inherited => set_cable_color (state_cable_color None) ci
          | Missing => ci
          end
      | Inherited => ci
      | Missing => ci
      end
    else ci in
  with_cables (recolor <$> cables st) st.

(** [setPortState]: the service the call leaves, whether it returns or
    throws.  With no model or no port under the names it returns at the
    guard.  An inherited property taken for the model has no
    [portIndicators], so the guard itself throws a TypeError; one taken
    for the port passes the guard and has no [mesh], so reading
    [portInfo.mesh.material] throws.  Both happen before anything is
    written. *)
Definition setPortState (mid portName state : string) (blink : bool)
    (st : State) : State :=
  match js_get (loadedModels st) mid with
  | Missing => st
  | Inherited => st
  | Own modelData =>
      match js_get (portIndicators modelData) portName with
      | Missing => st
      | Inherited => st
      | Own portInfo =>
          let portInfo' := apply_port_state state blink portInfo in
          let modelData' :=
            with_portIndicators
              (<[portName := portInfo']> (portIndicators modelData)) modelData in
          updateCableVisualsForPort mid portName
            (with_loadedModels (<[mid := modelData']> (loadedModels st)) st)
      end
  end.

(** Whether that call throws; what follows it in the caller is then not
    run. *)
Definition setPortState_throws (mid portName : string) (st : State) : bool :=
  match js_get (loadedModels st) mid with
  | Missing => false
  | Inherited => true
  | Own modelData =>
      match js_get (portIndicators modelData) portName with
      | Inherited => true
      | Own _ | Missing => false
      end
  end.

(** *** Blinking *)

Definition blink_port (currentTime : Z) (p : PortInfo) : PortInfo :=
  if truthy_bool (blinking p) then
    if negb (truthy_number (lastBlinkTime p))
       || (currentTime - default 0 (lastBlinkTime p) >? BLINK_INTERVAL)
    then
      let on := negb (truthy_bool (blinkOn p)) in
      let p := set_blink (Some on) (Some currentTime) p in
      let material := mesh_material (mesh p) in
      let state_is s := match currentState p with
                  | Some c => String.eqb c s | None => false end in
      if on then
        if state_is "active" then set_mesh_material (set_emissive 0x00ff00 material) p
        else if state_is "error" then set_mesh_material (set_emissive 0xff0000 material) p
        else p
      else
        if state_is "active" then set_mesh_material (set_emissive 0x003300 material) p
        else if state_is "error" then set_mesh_material (set_emissive 0x330000 material) p
        else p
    else p
  else p.

Definition updateBlinkingPorts (currentTime : Z) (st : State) : State :=
  with_loadedModels
    ((fun md => with_portIndicators
                  (blink_port currentTime <$> portIndicators md) md)
       <$> loadedModels st) st.


(** *** Models *)

(** The callback of [modelRoot.traverse] in [addModelToScene]: it fills
    the entry under construction and calls [setPortState] on the
    service.  That call does not throw: the id has passed the test of
    [addModelToScene], so it names no inherited property, and neither does
    a name that ends in '_Indicator'. *)
Definition register_child (mid : string) (acc : LoadedModel * State)
    (child : Object3D) : LoadedModel * State :=
  let (modelEntry, st) := acc in
  if isMesh child && endsWith (name child) "_Indicator" then
    let portName := name child in
    let cloned := material child in
    let info :=
      mkPortInfo (mkMesh portName cloned) (color cloned) (emissive cloned)
        None None None None in
    (with_portIndicators (<[portName := info]> (portIndicators modelEntry))
       modelEntry,
     setPortState mid portName "inactive" false st)
  else if endsWith (name child) "_Attach" then
    (with_portAttachPoints
       (<[name child := child]> (portAttachPoints modelEntry)) modelEntry,
     st)
  else (modelEntry, st).

(** The code of [addModelToScene] after [await loader.loadAsync].  A
    load that fails, and [this.scene.add] on a service without a scene,
    throw into the [catch], which only logs. *)
Definition addModelToScene_loaded (mid : string)
    (position : option Vector3D) (rotation : option EulerRotation)
    (r : LoadResult) (st : State) : State :=
  match r with
  | LoadError => st
  | Loaded gltf_scene =>
      if has_scene st then
        let modelRoot := set_name mid gltf_scene in
        let uid := fresh st in
        let st := scene_add (ModelRoot uid mid position rotation)
                    (with_fresh (S uid) st) in
        let modelEntry := mkLoadedModel mid uid ∅ ∅ in
        let (modelEntry, st) :=
          fold_left (register_child mid) (traverse modelRoot) (modelEntry, st) in
        with_loadedModels (<[mid := modelEntry]> (loadedModels st)) st
      else st
  end.

(** [addModelToScene]: whatever [this.loadedModels[modelInstanceId]]
    finds, a stored model or an inherited property, counts as already
    loaded. *)
Definition addModelToScene (modelUrl mid : string)
    (position : option Vector3D) (rotation : option EulerRotation)
    (st : State) : Async :=
  match js_get (loadedModels st) mid with
  | Own _ => Settled
  | Inherited => Settled
  | Missing => Await modelUrl (addModelToScene_loaded mid position rotation)
  end.

(** *** Cables *)

(** [disconnectCable].  (An inherited property found under [cableId] has
    no [object] and is not stored: nothing is removed or deleted.) *)
Definition disconnectCable (cableId : string) (st : State) : State :=
  match cables st !! cableId with
  | Some cableInfo =>
      with_cables (delete cableId (cables st))
        (scene_remove (cable_uid (cable_object cableInfo)) st)
  | None => st
  end.

Definition cable_references (mid : string) (ci : CableInfo) : bool :=
  String.eqb (modelId (source ci)) mid || String.eqb (modelId (target ci)) mid.

(** [Object.keys(this.cables)] *)
Definition cable_keys (st : State) : list string :=
  (map_to_list (cables st)).*1.

(** [removeModelFromScene].  (An inherited property found under the id
    passes the test.  No cable has an end on such an id, since
    [connectCable] throws before it stores one; [scene.remove] finds
    nothing to remove, and the call throws at
    [modelData.object.traverse], before the [delete].) *)
Definition removeModelFromScene (mid : string) (st : State) : State :=
  match loadedModels st !! mid with
  | Some modelData =>
      let st :=
        fold_left
          (fun st cableId =>
             match cables st !! cableId with
             | Some cable =>
                 if cable_references mid cable
                 then disconnectCable cableId st else st
             | None => st
             end)
          (cable_keys st) st in
      with_loadedModels (delete mid (loadedModels st))
        (scene_remove (object modelData) st)
  | None => st
  end.

(** The code of [connectCable] after [await loader.loadAsync]; the two
    attach points were looked up before the [await], on models that had
    been loaded into the scene. *)
Definition connectCable_loaded (cableInstanceId : string)
    (source target : Endpoint) (sourceAttachPoint targetAttachPoint : Object3D)
    (r : LoadResult) (st : State) : State :=
  match r with
  | LoadError => st
  | Loaded _ =>
      let sourcePos := getWorldPosition sourceAttachPoint in
      let targetPos := getWorldPosition targetAttachPoint in
      let direction := subVectors targetPos sourcePos in
      let length := lengthOf direction in
      (* [direction.multiplyScalar(0.5)] changes [direction] itself *)
      let direction := multiplyScalar direction (1 / 2) in
      let position := addVectors sourcePos direction in
      let axis := normalize direction in
      let cableMesh :=
        mkCableMesh (fresh st) cableInstanceId length position axis 0x555555 in
      let st := scene_add (CableCylinder (fresh st) cableInstanceId)
                  (with_fresh (S (fresh st)) st) in
      let st :=
        with_cables
          (<[cableInstanceId :=
               mkCableInfo cableInstanceId cableMesh source target]> (cables st))
          st in
      updateCableVisualsForPort (modelId source)
        (replace (portAttachName source) "_Attach" "_Indicator") st
  end.

(** [connectCable].  Before the [try]: with a model or an attach point
    missing the call returns; an inherited property taken for a model has
    no [portAttachPoints], so reading the attach point from it throws.
    Either way no load is started.  An inherited property taken for an
    attach point passes the test and the asset is loaded; calling
    [getWorldPosition] on it then throws inside the [try], and the [catch]
    only logs. *)
Definition connectCable (cableModelUrl cableInstanceId : string)
    (source target : Endpoint) (st : State) : Async :=
  match js_get (loadedModels st) (modelId source),
        js_get (loadedModels st) (modelId target) with
  | Own sourceModel, Own targetModel =>
      match js_get (portAttachPoints sourceModel) (portAttachName source),
            js_get (portAttachPoints targetModel) (portAttachName target) with
      | Own sourceAttachPoint, Own targetAttachPoint =>
          Await cableModelUrl
            (connectCable_loaded cableInstanceId source target
               sourceAttachPoint targetAttachPoint)
      | Missing, _ => Settled
      | _, Missing => Settled
      | _, _ => Await cableModelUrl (fun _ st => st)
      end
  | _, _ => Settled
  end.

(** *** Selection by click *)

(** [objectType === t] for [objectType : 'port' | 'device' | null] *)
Definition type_is (o : option ObjectType) (t : ObjectType) : bool :=
  match o, t with
  | Some port, port | Some device, device => true
  | _, _ => false
  end.

(** The test [if (this.loadedModels[name])]: a stored model passes it,
    and so does an inherited property. *)
Definition is_loaded (st : State) (n : string) : bool :=
  match js_get (loadedModels st) n with
  | Own _ => true
  | Inherited => true
  | Missing => false
  end.

(** The inner loop: the nearest ancestor that is a loaded model. *)
Fixpoint parent_model (st : State) (parents : list string) : option string :=
  match parents with
  | [] => None
  | p :: rest => if is_loaded st p then Some p else parent_model st rest
  end.

(** The outer loop over [current], given as the names of the hit object
    and of its ancestors, nearest first.  It yields
    [(modelInstanceId, portName, objectType)]. *)
Fixpoint find_selection (st : State) (chain : list string)
  : option string * option string * option ObjectType :=
  match chain with
  | [] => (None, None, None)
  | n :: parents =>
      if is_loaded st n then (Some n, None, Some device)
      else if endsWith n "_Indicator"
           then (parent_model st parents, Some n, Some port)
           else find_selection st parents
  end.

(** [onCanvasClick], given what the raycaster returns: for each
    intersection the ancestor chain of the object hit.  The result is
    what is sent on [onObjectSelected]. *)
Definition onCanvasClick (intersects : list (list string)) (st : State)
  : list SelectedEvent :=
  match intersects with
  | [] => []
  | chain :: _ =>
      match find_selection st chain with
      | (modelInstanceId, portName, objectType) =>
          if truthy_string modelInstanceId
             && (type_is objectType device
                 || (truthy_string portName && type_is objectType port))
          then
            match modelInstanceId, objectType with
            | Some m, Some ty =>
                [mkSelectedEvent m
                   (if truthy_string portName then default m portName else m)
                   ty]
            | _, _ => []
            end
          else []
      end
  end.

(** *** Per-frame update and teardown *)

Definition reposition_cable (st : State) (ci : CableInfo) : CableInfo :=
  match loadedModels st !! modelId (source ci)
          ≫= (fun m => portAttachPoints m !! portAttachName (source ci)),
        loadedModels st !! modelId (target ci)
          ≫= (fun m => portAttachPoints m !! portAttachName (target ci)) with
  | Some sourceAttachPoint, Some targetAttachPoint =>
      let sourcePos := getWorldPosition sourceAttachPoint in
      let targetPos := getWorldPosition targetAttachPoint in
      let direction := subVectors targetPos sourcePos in
      let o := cable_object ci in
      {| cable_id := cable_id ci;
         cable_object :=
           mkCableMesh (cable_uid o) (cable_name o) (cable_height o)
             (addVectors sourcePos (multiplyScalar direction (1 / 2)))
             (normalize direction) (cable_color o);
         source := source ci; target := target ci |}
  | _, _ => ci
  end.

Definition updateScene (currentTime : Z) (st : State) : State :=
  let st := updateBlinkingPorts currentTime st in
  with_cables (reposition_cable st <$> cables st) st.

Definition render (st : State) : State := st.

Definition dispose (st : State) : State :=
  with_cables ∅ (with_loadedModels ∅ st).

End Service.
End ThreeScene.

(* ===================================================================== *)
(** ** topology-viewer.component                                          *)
(* ===================================================================== *)

Module TopologyViewer.
Import Engine.

Section Component.
Context `{ColorParser}.

(** The subscriber of [onObjectSelected] in [ngOnInit]. *)
Definition on_selected (selected : ThreeScene.SelectedEvent)
    (s : TopologyState.Store) : TopologyState.Store :=
  TopologyState.setSelectedObject
    (ThreeScene.ev_modelId selected) (ThreeScene.ev_objectName selected)
    (ThreeScene.ev_objectType selected) s.

(** A click on the canvas, seen from the store: every event the scene
    service sends reaches the subscriber. *)
Definition click (intersects : list (list string)) (st : ThreeScene.State)
    (s : TopologyState.Store) : TopologyState.Store :=
  fold_left (fun s ev => on_selected ev s)
    (ThreeScene.onCanvasClick intersects st) s.

(** [modelData.ports.forEach(portData => setPortState(...))]: a call of
    [setPortState] that throws ends the loop. *)
Fixpoint forEach_port (mid : string) (ports : list TopologyState.PortState)
    (st : ThreeScene.State) : ThreeScene.State :=
  match ports with
  | [] => st
  | portData :: rest =>
      if ThreeScene.setPortState_throws mid (TopologyState.name portData) st
      then st
      else
        forEach_port mid rest
          (ThreeScene.setPortState mid
             (TopologyState.name portData) (TopologyState.status portData)
             (TopologyState.blinking portData) st)
  end.

(** The [then] callback of [ngOnInit] for one model. *)
Definition apply_ports (modelData : TopologyState.ModelInstance)
    (st : ThreeScene.State) : ThreeScene.State :=
  forEach_port (TopologyState.id modelData) (TopologyState.ports modelData) st.

(** [promise.then(callback)]: the callback runs once the call is through. *)
Record Chained := mkChained {
  call : ThreeScene.Async;
  callback : ThreeScene.State -> ThreeScene.State }.

(** The subscriber of [currentTopology$]: one [addModelToScene] call per
    model, each with its [then] callback; all the calls are made before any
    of the loads settles. *)
Definition on_topology (topology : option TopologyState.TopologyLayout)
    (st : ThreeScene.State) : list Chained :=
  match topology with
  | Some t =>
      List.map
        (fun modelData =>
           mkChained
             (ThreeScene.addModelToScene (TopologyState.assetUrl modelData)
                (TopologyState.id modelData)
                (Some (TopologyState.position modelData))
                (Some (TopologyState.rotation modelData)) st)
             (apply_ports modelData))
        (TopologyState.models t)
  | None => []
  end.

Definition returned (c : Chained) : bool :=
  match call c with ThreeScene.Settled => true | ThreeScene.Await _ _ => false end.

(** What is left of the calls once the subscriber has returned: first the
    callbacks of the calls that returned without loading, then, as the
    loads settle (here in the order of the calls, [loader] telling how each
    url settles), the rest of each call followed by its callback. *)
Definition settle_all (loader : string -> LoadResult) (calls : list Chained)
    (st : ThreeScene.State) : ThreeScene.State :=
  let st :=
    fold_left (fun st c => callback c st) (List.filter returned calls) st in
  fold_left
    (fun st c =>
       match call c with
       | ThreeScene.Settled => st
       | ThreeScene.Await url resume => callback c (resume (loader url) st)
       end)
    calls st.

(** [addSwitch]; [now] is the clock reading and [random_x], [random_z]
    the two values of [Math.random()] it takes. *)
Definition addSwitch (now : Z) (random_x random_z : R) (s : TopologyState.Store)
  : TopologyState.Store :=
  let modelDefinitionId := "Switch_ModelA" in
  match TopologyState.getModelDefinition modelDefinitionId with
  | Some def =>
      match TopologyState.p_assetUrl def with
      | Some assetUrl =>
          if ThreeScene.truthy_string (Some assetUrl) then
            let newModelId :=
              "switch_instance_" +:+ TopologyState.number_to_string now in
            let n := String.length newModelId in
            TopologyState.addModelInstance
              (TopologyState.mkModelInstance newModelId modelDefinitionId assetUrl
                 (Some ("New Switch " +:+ String.substring (n - 5) 5 newModelId))
                 (TopologyState.mkVector3D (random_x * 6 - 3) 0 (random_z * 6 - 3))
                 (TopologyState.mkEulerRotation 0 0 0 None)
                 (default [] (TopologyState.p_ports def))) s
          else s
      | None => s
      end
  | None => s
  end.

(** [deleteSelectedModel] *)
Definition deleteSelectedModel (s : TopologyState.Store) : TopologyState.Store :=
  match TopologyState.getSelectedObjectValue s with
  | Some selected =>
      if ThreeScene.truthy_string (Some (TopologyState.sel_modelId selected))
      then TopologyState.removeModelInstance (TopologyState.sel_modelId selected) s
      else s
  | None => s
  end.

End Component.
End TopologyViewer.

(* ===================================================================== *)
(** ** The engine's colour parser                                         *)
(* ===================================================================== *)

(** What the engine (three.js) does in [Color.set] when it is given a
    string: [Color.setStyle].  A hash sign followed by three or six hex
    digits sets the colour to that value.  A string the engine cannot
    parse makes it log a warning (THREE.Color: Unknown color ...) and leave
    the colour as it was.  This instance covers the two hex forms; the
    other forms the engine parses (colour names, rgb(...), hsl(...)) are
    not used below and are treated here like a string it cannot parse. *)
Module ThreeColor.
Import Engine.

Definition hex_digit (a : Ascii.ascii) : option Z :=
  let n := Z.of_N (Ascii.N_of_ascii a) in
  if (48 <=? n) && (n <=? 57) then Some (n - 48)
  else if (97 <=? n) && (n <=? 102) then Some (n - 87)
  else if (65 <=? n) && (n <=? 70) then Some (n - 55)
  else None.

Fixpoint hex_digits (s : string) : option (list Z) :=
  match s with
  | EmptyString => Some []
  | String a rest =>
      d ← hex_digit a; ds ← hex_digits rest; Some (d :: ds)
  end.

Definition setStyle (style : string) (c : Color) : Color :=
  match style with
  | String "#" hex =>
      match hex_digits hex with
      | Some [r; g; b] => (r * 17) * 65536 + (g * 17) * 256 + b * 17
      | Some [r1; r0; g1; g0; b1; b0] =>
          (r1 * 16 + r0) * 65536 + (g1 * 16 + g0) * 256 + (b1 * 16 + b0)
      | _ => c
      end
  | _ => c
  end.

#[export] Instance three_color : ColorParser := setStyle.

End ThreeColor.

(* ===================================================================== *)
(** ** Vocabulary of the statements about the store                       *)
(* ===================================================================== *)

Module StoreSpec.
Import TopologyState.

(** [P] holds at index [i] of [l] and at no earlier index. *)
Definition first_at {A} (P : A -> Prop) (l : list A) (i : nat) : Prop :=
  (exists a, l !! i = Some a /\ P a)
  /\ forall i' a', (i' < i)%nat -> l !! i' = Some a' -> ~ P a'.

(** The port [updatePortState] addresses: port [j] of model [i], where
    [i] is the first model whose id is [mid] and [j] the first port of
    that model whose name is [pname]. *)
Definition addressed (t : TopologyLayout) (mid pname : string) (i j : nat) : Prop :=
  first_at (fun m => id m = mid) (models t) i
  /\ exists m, models t !! i = Some m
               /\ first_at (fun p => name p = pname) (ports m) j.

Definition same_but_ports (m m' : ModelInstance) : Prop :=
  id m' = id m /\ modelDefinitionId m' = modelDefinitionId m
  /\ assetUrl m' = assetUrl m /\ displayName m' = displayName m
  /\ position m' = position m /\ rotation m' = rotation m.

(** A store to try the operations on: two switches, one cable. *)
Definition origin : Vector3D := mkVector3D 0 0 0.
Definition upright : EulerRotation := mkEulerRotation 0 0 0 None.
Definition sample_store : Store :=
  mkStore
    (Some (mkTopologyLayout "main" "Main layout"
             [ mkModelInstance "sw1" "Switch_ModelA" "assets/models/Switch_ModelA.glb"
                 None origin upright
                 [ mkPortState "P1_Indicator" "active" true (Some "c1");
                   mkPortState "P2_Indicator" "inactive" false None ];
               mkModelInstance "sw2" "Switch_ModelA" "assets/models/Switch_ModelA.glb"
                 (Some "Core") origin upright
                 [ mkPortState "P1_Indicator" "error" false (Some "c1") ] ]
             [ mkCableConnection "c1" None
                 (mkEndpoint "sw1" "P1_Attach") (mkEndpoint "sw2" "P1_Attach") ]))
    None false.

End StoreSpec.

(* ===================================================================== *)
(** ** Vocabulary of the statements about the scene                       *)
(* ===================================================================== *)

Module SceneSpec.
Import Engine ThreeScene ThreeColor.

(** Every cable in [cables] joins two models that are in [loadedModels]. *)
Definition cables_join_loaded_models (st : State) : Prop :=
  forall cableId ci,
    cables st !! cableId = Some ci ->
    is_Some (loadedModels st !! modelId (source ci))
    /\ is_Some (loadedModels st !! modelId (target ci)).

(** The endpoints of the cables, and the ids of the loaded models: what
    [cables_join_loaded_models] looks at. *)
Definition cable_ends (st : State) : gmap string (Endpoint * Endpoint) :=
  (fun ci => (source ci, target ci)) <$> cables st.

Definition same_cables_and_models (st st' : State) : Prop :=
  cable_ends st' = cable_ends st
  /\ dom (loadedModels st') = dom (loadedModels st).

(** The model roots of the scene that carry a given name. *)
Definition roots_named (n : string) (st : State) : list SceneChild :=
  List.filter
    (fun c => match c with
              | ModelRoot _ n' _ _ => String.eqb n' n
              | _ => false
              end)
    (scene st).

(** The two shades an indicator blinks between, by state. *)
Definition bright (state : string) : Color :=
  if String.eqb state "active" then 0x00ff00 else 0xff0000.
Definition dim (state : string) : Color :=
  if String.eqb state "active" then 0x003300 else 0x330000.
Definition shade (state : string) (on : bool) : Color :=
  if on then bright state else dim state.

Definition indicator_material (p : PortInfo) : Material :=
  mesh_material (mesh p).

(** One blink of a port in state [state] at time [now]: the phase flips,
    the time is recorded, the emissive takes the shade of the new phase;
    nothing else of the port changes. *)
Definition toggled (now : Z) (state : string) (p p' : PortInfo) : Prop :=
  blinkOn p' = Some (negb (truthy_bool (blinkOn p)))
  /\ lastBlinkTime p' = Some now
  /\ emissive (indicator_material p')
     = shade state (negb (truthy_bool (blinkOn p)))
  /\ color (indicator_material p') = color (indicator_material p)
  /\ blinking p' = blinking p
  /\ currentState p' = currentState p.

(** The port [portName] of model [mid], if the service has it. *)
Definition port_of (mid portName : string) (st : State) : option PortInfo :=
  loadedModels st !! mid ≫= (fun md => portIndicators md !! portName).

(** The click takes the object named [n] for a model root: [n] is the id
    of a loaded model, or the name of a property every object inherits. *)
Definition taken_for_model (st : State) (n : string) : Prop :=
  is_Some (loadedModels st !! n) \/ inherited n = true.

(** None of the objects named in [l] is taken for a model root or is a
    port indicator: the walk up from the object hit passes over them. *)
Definition passed_over (st : State) (l : list string) : Prop :=
  forall x, x ∈ l ->
    ~ taken_for_model st x /\ endsWith x "_Indicator" = false.

(** None of the objects named in [l] is taken for a model root. *)
Definition no_model_root (st : State) (l : list string) : Prop :=
  forall x, x ∈ l -> ~ taken_for_model st x.

(** The first object, from the hit object upwards, that is taken for a
    model root or is an indicator is the object named [n], taken for a
    model root. *)
Definition hits_device (st : State) (chain : list string) (n : string) : Prop :=
  exists below above,
    chain = below ++ n :: above /\ passed_over st below
    /\ taken_for_model st n /\ n <> "".

(** The first such object is the indicator [n], and the nearest object
    above it that is taken for a model root is the object named [m]. *)
Definition hits_port (st : State) (chain : list string) (m n : string) : Prop :=
  exists below between above,
    chain = below ++ n :: between ++ m :: above /\ passed_over st below
    /\ ~ taken_for_model st n /\ endsWith n "_Indicator" = true
    /\ no_model_root st between
    /\ taken_for_model st m /\ m <> "".

(** The attach point an endpoint of a cable refers to, if its model is
    loaded and has an attach point of that name. *)
Definition attach_point (st : State) (e : Endpoint) : option Object3D :=
  loadedModels st !! modelId e ≫= (fun m => portAttachPoints m !! portAttachName e).

(** Two assets: a switch with two ports and a router with one. *)
Definition plastic : Material := mkMaterial 0xcccccc 0x000000.

Definition switch_asset : Object3D :=
  mkObject3D "Scene" false plastic (mkVector3 0 0 0)
    [ mkObject3D "Switch_ModelA" false plastic (mkVector3 0 0 0)
        [ mkObject3D "Chassis" true plastic (mkVector3 0 0 0) [];
          mkObject3D "P1_Indicator" true plastic (mkVector3 0 0 1) [];
          mkObject3D "P1_Attach" false plastic (mkVector3 0 0 0) [];
          mkObject3D "P2_Indicator" true plastic (mkVector3 1 0 1) [];
          mkObject3D "P2_Attach" false plastic (mkVector3 1 0 0) [] ] ].

Definition router_asset : Object3D :=
  mkObject3D "Scene" false plastic (mkVector3 3 4 0)
    [ mkObject3D "P1_Indicator" true plastic (mkVector3 3 4 1) [];
      mkObject3D "P1_Attach" false plastic (mkVector3 3 4 0) [] ].

(** The service after [initScene] and after the loads of "sw1" (the
    switch) and "rt1" (the router) have settled. *)
Definition one_model : State :=
  run_now (addModelToScene "assets/models/Switch_ModelA.glb" "sw1" None None)
    (Loaded switch_asset) (initScene initial).

Definition two_models : State :=
  run_now (addModelToScene "assets/models/Router_ModelB.glb" "rt1" None None)
    (Loaded router_asset) one_model.

(** The switch loaded under the empty id. *)
Definition unnamed_model : State :=
  run_now (addModelToScene "assets/models/Switch_ModelA.glb" "" None None)
    (Loaded switch_asset) (initScene initial).

(** "sw1" with its first port set to 'active', and to 'error'. *)
Definition was_active : State :=
  setPortState "sw1" "P1_Indicator" "active" false two_models.
Definition was_error : State :=
  setPortState "sw1" "P1_Indicator" "error" false two_models.

(** "sw1" with its first port blinking in state 'active'. *)
Definition blinking_active : State :=
  setPortState "sw1" "P1_Indicator" "active" true two_models.

(** A cable from the first port of "sw1" to the port of "rt1". *)
Definition sw1_p1 : Endpoint := mkEndpoint "sw1" "P1_Attach".
Definition rt1_p1 : Endpoint := mkEndpoint "rt1" "P1_Attach".

(** How the sample assets load: the two model files and the cable file
    exist, nothing else does. *)
Definition loader (url : string) : LoadResult :=
  if String.eqb url "assets/models/Switch_ModelA.glb" then Loaded switch_asset
  else if String.eqb url "assets/models/Router_ModelB.glb" then Loaded router_asset
  else if String.eqb url "assets/models/cable.glb" then Loaded router_asset
  else LoadError.

(** A topology with the one switch "sw1". *)
Definition one_switch : TopologyState.TopologyLayout :=
  TopologyState.mkTopologyLayout "main" "Main layout"
    [ TopologyState.mkModelInstance "sw1" "Switch_ModelA"
        "assets/models/Switch_ModelA.glb" None
        StoreSpec.origin StoreSpec.upright
        [ TopologyState.mkPortState "P1_Indicator" "active" true None ] ]
    [].

(** The topology delivered once, its load settled, and delivered again. *)
Definition delivered_then_redelivered : State :=
  let st := initScene initial in
  let st := TopologyViewer.settle_all loader
              (TopologyViewer.on_topology (Some one_switch) st) st in
  TopologyViewer.settle_all loader
    (TopologyViewer.on_topology (Some one_switch) st) st.

(** The topology delivered twice before the load of the first delivery
    has settled: both subscribers' calls are made on the same state. *)
Definition redelivered_while_loading : State :=
  let st := initScene initial in
  TopologyViewer.settle_all loader
    (TopologyViewer.on_topology (Some one_switch) st
     ++ TopologyViewer.on_topology (Some one_switch) st) st.

(** [connectCable] between "sw1" and "rt1", with "sw1" removed from the
    scene while the cable asset is loading. *)
Definition model_removed_while_cable_loads : State :=
  let pending :=
    connectCable "assets/models/cable.glb" "c1" sw1_p1 rt1_p1 two_models in
  let st := removeModelFromScene "sw1" two_models in
  settle (loader "assets/models/cable.glb") pending st.

(** The public operations of the service, each run to completion: an
    asynchronous one comes with what its load settles to. *)
Inductive Operation :=
| InitScene
| AddModelToScene (url mid : string) (position : option Vector3D)
                  (rotation : option EulerRotation) (r : LoadResult)
| RemoveModelFromScene (mid : string)
| SetPortState (mid portName state : string) (blink : bool)
| ConnectCable (url cableId : string) (source target : Endpoint) (r : LoadResult)
| DisconnectCable (cableId : string)
| UpdateCableVisualsForPort (mid portIndicatorName : string)
| UpdateScene (now : Z)
| Render
| Dispose.

Definition run_operation `{ColorParser} (op : Operation) (st : State) : State :=
  match op with
  | InitScene => initScene st
  | AddModelToScene url mid position rotation r =>
      run_now (addModelToScene url mid position rotation) r st
  | RemoveModelFromScene mid => removeModelFromScene mid st
  | SetPortState mid portName state blink => setPortState mid portName state blink st
  | ConnectCable url cableId source target r =>
      run_now (connectCable url cableId source target) r st
  | DisconnectCable cableId => disconnectCable cableId st
  | UpdateCableVisualsForPort mid portIndicatorName =>
      updateCableVisualsForPort mid portIndicatorName st
  | UpdateScene now => updateScene now st
  | Render => render st
  | Dispose => dispose st
  end.

(** The service after the operations [ops], run one after the other from
    the service as constructed. *)
Definition after_operations `{ColorParser} (ops : list Operation) : State :=
  fold_left (fun st op => run_operation op st) ops initial.

(** Every object of the scene, and every cylinder recorded in [cables], was
    numbered before [fresh]. *)
Definition identities_below_fresh (st : State) : Prop :=
  (forall c, c ∈ scene st -> (child_uid c < fresh st)%nat)
  /\ (forall k ci, cables st !! k = Some ci ->
        (cable_uid (cable_object ci) < fresh st)%nat).

(** Two records of a cable that differ at most in the colour of the
    cylinder. *)
Definition same_but_color (ci ci' : CableInfo) : Prop :=
  cable_id ci' = cable_id ci /\ source ci' = source ci /\ target ci' = target ci
  /\ cable_uid (cable_object ci') = cable_uid (cable_object ci)
  /\ cable_name (cable_object ci') = cable_name (cable_object ci)
  /\ cable_height (cable_object ci') = cable_height (cable_object ci)
  /\ cable_position (cable_object ci') = cable_position (cable_object ci)
  /\ cable_axis (cable_object ci') = cable_axis (cable_object ci).

(** Two entries of a model that differ at most in the port indicators. *)
Definition same_but_indicators (md md' : LoadedModel) : Prop :=
  id md' = id md /\ object md' = object md
  /\ portAttachPoints md' = portAttachPoints md
  /\ dom (portIndicators md') = dom (portIndicators md).

(** [st'] has the models of [st], each with the same root, attach points
    and indicator names. *)
Definition models_keep_shape (st st' : State) : Prop :=
  forall mid,
    match loadedModels st !! mid with
    | Some md =>
        exists md', loadedModels st' !! mid = Some md' /\ same_but_indicators md md'
    | None => loadedModels st' !! mid = None
    end.

(** [st'] has the cables of [st], each the same but for its colour. *)
Definition cables_keep_shape (st st' : State) : Prop :=
  forall k,
    match cables st !! k with
    | Some ci => exists ci', cables st' !! k = Some ci' /\ same_but_color ci ci'
    | None => cables st' !! k = None
    end.

(** [st'] has what [st] has and maybe more models: the scene of [st]
    followed by model roots, the loaded models of [st] and maybe others,
    the cables of [st], each the same but for its colour. *)
Definition is_model_root (c : SceneChild) : Prop :=
  match c with ModelRoot _ _ _ _ => True | _ => False end.

Definition only_adds_models (st st' : State) : Prop :=
  (exists added, scene st' = scene st ++ added /\ Forall is_model_root added)
  /\ dom (loadedModels st) ⊆ dom (loadedModels st')
  /\ cables_keep_shape st st'.

(** The sample service with the cable "c1" from the first port of "sw1"
    to the port of "rt1". *)
Definition one_cable : State :=
  run_now (connectCable "assets/models/cable.glb" "c1" sw1_p1 rt1_p1)
    (loader "assets/models/cable.glb") two_models.

(** No loaded model has the object [c] as its root and no cable has it
    as its cylinder. *)
Definition unrecorded (c : SceneChild) (st : State) : Prop :=
  (forall mid md, loadedModels st !! mid = Some md -> object md <> child_uid c)
  /\ (forall k ci, cables st !! k = Some ci ->
        cable_uid (cable_object ci) <> child_uid c).

Definition is_initScene (op : Operation) : bool :=
  match op with InitScene => true | _ => false end.

(** The service after the operations [ops], run one after the other from
    the state [st]. *)
Definition run_operations `{ColorParser} (ops : list Operation) (st : State)
  : State :=
  fold_left (fun st op => run_operation op st) ops st.

(** The names under which models, indicators and attach points are
    stored are as [addModelToScene] enters them: no model id names a
    property that every object inherits, indicator names end in
    '_Indicator' and attach point names in '_Attach'. *)
Definition names_as_registered (st : State) : Prop :=
  forall mid md, loadedModels st !! mid = Some md ->
    inherited mid = false
    /\ (forall n, is_Some (portIndicators md !! n) ->
          endsWith n "_Indicator" = true)
    /\ (forall n, is_Some (portAttachPoints md !! n) ->
          endsWith n "_Attach" = true).

(** Both ends of every cable are attach points of loaded models. *)
Definition cables_at_attach_points (st : State) : Prop :=
  forall k ci, cables st !! k = Some ci ->
    is_Some (attach_point st (source ci))
    /\ is_Some (attach_point st (target ci)).

(** The operations that lead to [two_models], and to [one_cable]. *)
Definition two_models_ops : list Operation :=
  [ InitScene;
    AddModelToScene "assets/models/Switch_ModelA.glb" "sw1" None None
      (Loaded switch_asset);
    AddModelToScene "assets/models/Router_ModelB.glb" "rt1" None None
      (Loaded router_asset) ].

Definition one_cable_ops : list Operation :=
  two_models_ops
  ++ [ ConnectCable "assets/models/cable.glb" "c1" sw1_p1 rt1_p1
         (loader "assets/models/cable.glb") ].

End SceneSpec.
(* ===================================================================== *)
(** * Properties of the topology store                                    *)
(* ===================================================================== *)

Section TopologyStoreProofs.
Import TopologyState StoreSpec.

Lemma eqb_string_true (a b : string) : String.eqb a b = true <-> a = b.
Proof. apply String.eqb_eq. Qed.

Lemma eqb_string_false (a b : string) : String.eqb a b = false <-> a <> b.
Proof. apply String.eqb_neq. Qed.

(** The boolean callbacks of the two [filter] calls decide the
    properties they are meant to decide. *)
Lemma keeps_model_iff mid m : keeps_model mid m = true <-> id m <> mid.
Proof.
  unfold keeps_model. rewrite negb_true_iff. apply eqb_string_false.
Qed.

Lemma keeps_connection_iff mid c :
  keeps_connection mid c = true
  <-> modelId (source c) <> mid /\ modelId (target c) <> mid.
Proof.
  unfold keeps_connection.
  rewrite andb_true_iff, !negb_true_iff, !eqb_string_false. tauto.
Qed.

(** [Array.prototype.filter] keeps exactly the elements on which the
    callback is true, in their order. *)
Lemma js_filter_eq {A} (f : A -> bool) (P : A -> Prop) `{!forall a, Decision (P a)}
    (l : list A) :
  (forall a, f a = true <-> P a) -> List.filter f l = base.filter P l.
Proof.
  intros Hf. induction l as [|a l IH]; [done|].
  cbn [List.filter]. rewrite filter_cons.
  destruct (f a) eqn:Ha.
  - rewrite decide_True by (by apply Hf). by rewrite IH.
  - rewrite decide_False; [done|]. intros HP. apply Hf in HP. congruence.
Qed.


Lemma findIndex_Some {A} (f : A -> bool) (l : list A) (i : nat) :
  findIndex f l = Some i ->
  first_at (fun a => f a = true) l i.
Proof.
  revert i. induction l as [|a l IH]; intros i; cbn [findIndex]; [done|].
  destruct (f a) eqn:Ha.
  - intros [= <-]. split; [by exists a|]. intros i' a' Hlt. lia.
  - destruct (findIndex f l) as [k|] eqn:Hk; [|done].
    intros [= <-]. destruct (IH k eq_refl) as [[b [Hb Hfb]] Hbefore].
    split; [by exists b|].
    intros [|i'] a' Hlt; cbn; [intros [= <-]; congruence|].
    intros Hl. eapply Hbefore; [|done]. lia.
Qed.

Lemma findIndex_None {A} (f : A -> bool) (l : list A) :
  findIndex f l = None -> forall a, a ∈ l -> f a = false.
Proof.
  induction l as [|a l IH]; cbn [findIndex]; intros Hnone b Hb.
  - by apply elem_of_nil in Hb.
  - destruct (f a) eqn:Ha; [done|].
    destruct (findIndex f l) eqn:Hk; [done|].
    apply elem_of_cons in Hb as [->|Hb]; [done|]. by apply IH.
Qed.

Lemma first_at_unique {A} (P : A -> Prop) (l : list A) (i j : nat) :
  first_at P l i -> first_at P l j -> i = j.
Proof.
  intros [[a [Ha Pa]] Hi] [[b [Hb Pb]] Hj].
  destruct (Nat.lt_trichotomy i j) as [Hlt|[->|Hlt]]; [|done|].
  - by destruct (Hj _ _ Hlt Ha).
  - by destruct (Hi _ _ Hlt Hb).
Qed.

Lemma removeModelInstance_topology mid s t :
  currentTopology s = Some t ->
  currentTopology (removeModelInstance mid s)
  = Some (mkTopologyLayout (layout_id t) (layout_name t)
            (List.filter (keeps_model mid) (models t))
            (List.filter (keeps_connection mid) (connections t))).
Proof.
  intros Ht. unfold removeModelInstance. rewrite Ht. cbn.
  destruct (selectedObject s) as [sel|]; [|done].
  by destruct (String.eqb (sel_modelId sel) mid).
Qed.

(** C4.  [removeModelInstance(modelId)] on a loaded topology publishes a
    topology with the same id and name whose models are the old models
    without those of id [modelId], and whose connections are the old
    connections without those whose source or target is [modelId]; all
    others stay, in their order.  With no topology loaded the store is
    left as it is. *)
Theorem removeModelInstance_removes_model_and_connections
    (mid : string) (s : Store) :
  match currentTopology s with
  | None => removeModelInstance mid s = s
  | Some t =>
      exists t',
        currentTopology (removeModelInstance mid s) = Some t'
        /\ layout_id t' = layout_id t /\ layout_name t' = layout_name t
        /\ models t' = base.filter (fun m => id m <> mid) (models t)
        /\ connections t'
           = base.filter
               (fun c => modelId (source c) <> mid /\ modelId (target c) <> mid)
               (connections t)
        /\ (forall m, m ∈ models t' <-> m ∈ models t /\ id m <> mid)
        /\ (forall c, c ∈ connections t'
                <-> c ∈ connections t
                    /\ modelId (source c) <> mid /\ modelId (target c) <> mid)
        /\ models t' `sublist_of` models t
        /\ connections t' `sublist_of` connections t
  end.
Proof.
  destruct (currentTopology s) as [t|] eqn:Ht.
  - eexists. split; [by apply removeModelInstance_topology|]. cbn.
    rewrite (js_filter_eq _ (fun m => id m <> mid))
      by apply keeps_model_iff.
    rewrite (js_filter_eq _
               (fun c => modelId (source c) <> mid /\ modelId (target c) <> mid))
      by apply keeps_connection_iff.
    split_and!; try done.
    + intros m. rewrite list_elem_of_filter. tauto.
    + intros c. rewrite list_elem_of_filter. tauto.
    + apply sublist_filter.
    + apply sublist_filter.
  - unfold removeModelInstance. by rewrite Ht.
Qed.

Lemma first_at_iff {A} (P Q : A -> Prop) (l : list A) (i : nat) :
  (forall a, P a <-> Q a) -> first_at P l i -> first_at Q l i.
Proof.
  intros HPQ [[a [Ha HP]] Hbefore]. split.
  - exists a. split; [done|]. by apply HPQ.
  - intros i' a' Hlt Hl HQ. apply (Hbefore i' a' Hlt Hl). by apply HPQ.
Qed.


Lemma addressed_unique t mid pname i j i' j' :
  addressed t mid pname i j -> addressed t mid pname i' j' -> i = i' /\ j = j'.
Proof.
  intros [Hi (m & Hm & Hj)] [Hi' (m' & Hm' & Hj')].
  assert (i = i') as <- by (by eapply first_at_unique).
  split; [done|]. rewrite Hm in Hm'. injection Hm' as <-.
  by eapply first_at_unique.
Qed.

(** What [updatePortState] does on a loaded topology: either it finds
    the addressed port and publishes the topology with that one port
    rebuilt, or there is no addressed port and nothing is published. *)
Lemma updatePortState_cases mid pname newStatus newBlinking s t :
  currentTopology s = Some t ->
  (exists i m j p,
      addressed t mid pname i j
      /\ models t !! i = Some m /\ ports m !! j = Some p
      /\ updatePortState mid pname newStatus newBlinking s
         = next_currentTopology
             (Some (mkTopologyLayout (layout_id t) (layout_name t)
                      (<[i := with_ports
                                (<[j := with_status newStatus newBlinking p]>
                                   (ports m)) m]> (models t))
                      (connections t))) s)
  \/ ((forall i j, ~ addressed t mid pname i j)
      /\ updatePortState mid pname newStatus newBlinking s = s).
Proof.
  intros Ht. unfold updatePortState. rewrite Ht.
  destruct (findIndex _ (models t)) as [i|] eqn:Hi.
  - apply findIndex_Some in Hi.
    apply (first_at_iff _ (fun m => id m = mid)) in Hi;
      [|intros; apply eqb_string_true].
    destruct Hi as [[m [Hm Hid]] Hbefore]. rewrite Hm.
    assert (Hfirst : first_at (fun m => id m = mid) (models t) i)
      by (split; [by exists m|done]).
    destruct (findIndex _ (ports m)) as [j|] eqn:Hj.
    + apply findIndex_Some in Hj.
      apply (first_at_iff _ (fun p => name p = pname)) in Hj;
        [|intros; apply eqb_string_true].
      pose proof Hj as [[p [Hp Hname]] _]. rewrite Hp.
      left. exists i, m, j, p. split_and!; try done.
      split; [done|]. by exists m.
    + right. split; [|done].
      intros i' j' [Hi' (m' & Hm' & [[p [Hp Hname]] _])].
      assert (i' = i) as -> by (by eapply first_at_unique).
      rewrite Hm in Hm'. injection Hm' as <-.
      assert (Hno : String.eqb (name p) pname = false).
      { apply (findIndex_None _ _ Hj p). by eapply list_elem_of_lookup_2. }
      by apply eqb_string_false in Hno.
  - right. split; [|done].
    intros i' j' [[[m [Hm Hid]] _] _].
    assert (Hno : String.eqb (id m) mid = false).
    { apply (findIndex_None _ _ Hi m). by eapply list_elem_of_lookup_2. }
    by apply eqb_string_false in Hno.
Qed.

(** C6.  On a loaded topology [updatePortState(modelId, portName,
    newStatus, newBlinking)] changes only the status and the blinking flag
    of the one port it addresses: the topology's id and name, every
    connection, every other model, the other fields of the model, its
    other ports, and the name and connectedCableId of the addressed port
    stay as they are.  When no model of that id has a port of that name
    the topology is unchanged. *)
Theorem updatePortState_changes_only_addressed_port
    (mid pname newStatus : string) (newBlinking : bool) (s : Store)
    (t : TopologyLayout) :
  currentTopology s = Some t ->
  exists t',
    currentTopology (updatePortState mid pname newStatus newBlinking s) = Some t'
    /\ selectedObject (updatePortState mid pname newStatus newBlinking s)
       = selectedObject s
    /\ layout_id t' = layout_id t /\ layout_name t' = layout_name t
    /\ connections t' = connections t
    /\ length (models t') = length (models t)
    /\ (forall i m,
          models t !! i = Some m ->
          exists m',
            models t' !! i = Some m' /\ same_but_ports m m'
            /\ length (ports m') = length (ports m)
            /\ forall j p,
                 ports m !! j = Some p ->
                 exists p',
                   ports m' !! j = Some p'
                   /\ name p' = name p
                   /\ connectedCableId p' = connectedCableId p
                   /\ (addressed t mid pname i j ->
                       status p' = newStatus /\ blinking p' = newBlinking)
                   /\ (~ addressed t mid pname i j -> p' = p))
    /\ ((forall m p, m ∈ models t -> id m = mid -> p ∈ ports m -> name p <> pname)
        -> t' = t).
Proof.
  intros Ht.
  destruct (updatePortState_cases mid pname newStatus newBlinking s t Ht)
    as [(i & m & j & p & Haddr & Hm & Hp & ->)|[Hnone ->]].
  - eexists. split; [reflexivity|]. cbn. split_and!; try done.
    + by rewrite length_insert.
    + intros i0 m0 Hm0. destruct (decide (i0 = i)) as [->|Hne].
      * rewrite Hm in Hm0. injection Hm0 as <-.
        eexists. split.
        { apply list_lookup_insert_eq. by eapply lookup_lt_Some. }
        split; [done|]. cbn. split; [by rewrite length_insert|].
        intros j0 p0 Hp0. destruct (decide (j0 = j)) as [->|Hnej].
        -- rewrite Hp in Hp0. injection Hp0 as <-.
           eexists. split.
           { apply list_lookup_insert_eq. by eapply lookup_lt_Some. }
           cbn. split_and!; done.
        -- exists p0. split; [by rewrite list_lookup_insert_ne|].
           split_and!; try done.
           intros Haddr0.
           destruct (addressed_unique _ _ _ _ _ _ _ Haddr Haddr0). congruence.
      * exists m0. split; [by rewrite list_lookup_insert_ne|].
        split; [done|]. split; [done|].
        intros j0 p0 Hp0. exists p0. split_and!; try done.
        intros Haddr0.
        destruct (addressed_unique _ _ _ _ _ _ _ Haddr Haddr0). congruence.
    + intros Hno. exfalso.
      destruct Haddr as [[[m1 [Hm1 Hid]] _] (m2 & Hm2 & [[p1 [Hp1 Hname]] _])].
      rewrite Hm1 in Hm2. injection Hm2 as <-.
      apply (Hno m1 p1); try done; by eapply list_elem_of_lookup_2.
  - exists t. split_and!; try done.
    intros i m Hm. exists m. split_and!; try done.
    intros j p Hp. exists p. split_and!; try done.
    intros Haddr. by destruct (Hnone i j).
Qed.


Lemma updatePortState_changes_only_addressed_port_witness :
  exists t',
    currentTopology (updatePortState "sw1" "P2_Indicator" "error" true sample_store)
    = Some t'
    /\ (models t' !! 0%nat) ≫= (fun m => ports m !! 1%nat)
       = Some (mkPortState "P2_Indicator" "error" true None).
Proof.
  destruct (updatePortState_changes_only_addressed_port
              "sw1" "P2_Indicator" "error" true sample_store _ eq_refl)
    as (t' & Ht' & _).
  exists t'. split; [exact Ht'|].
  cbv in Ht'. injection Ht' as <-. reflexivity.
Defined.

(** Removing "sw1" from the sample store leaves "sw2" and drops the cable
    between them; removing an id that is not there leaves both lists. *)
Example removeModelInstance_sample :
  (fun t => id <$> models t)
    <$> currentTopology (removeModelInstance "sw1" sample_store)
  = Some ["sw2"]
  /\ connections <$> currentTopology (removeModelInstance "sw1" sample_store)
     = Some []
  /\ currentTopology (removeModelInstance "sw9" sample_store)
     = currentTopology sample_store.
Proof. split_and!; reflexivity. Qed.

(** A port name that "sw2" does not have: nothing is published. *)
Example updatePortState_sample_missing_port :
  updatePortState "sw2" "P2_Indicator" "active" true sample_store = sample_store.
Proof. reflexivity. Qed.

End TopologyStoreProofs.

(* ===================================================================== *)
(** * Properties of the scene service                                     *)
(* ===================================================================== *)

Section SceneProofs.
Import Engine ThreeScene SceneSpec.
Context `{ColorParser}.

(** *** Lookups *)

Lemma js_get_own {A : Type} (o : gmap string A) (k : string) (a : A) :
  o !! k = Some a -> js_get o k = Own a.
Proof. intros Hk. unfold js_get. by rewrite Hk. Qed.

Lemma js_get_not_own {A : Type} (o : gmap string A) (k : string) :
  o !! k = None -> js_get o k = if inherited k then Inherited else Missing.
Proof. intros Hk. unfold js_get. by rewrite Hk. Qed.

Lemma js_get_Own {A : Type} (o : gmap string A) (k : string) (a : A) :
  js_get o k = Own a <-> o !! k = Some a.
Proof.
  unfold js_get. destruct (o !! k) as [a'|].
  - split; by intros [= ->].
  - by destruct (inherited k).
Qed.

(** No name ending in '_Indicator' or '_Attach' is the name of an
    inherited property. *)
Lemma inherited_names k :
  inherited k = true ->
  endsWith k "_Indicator" = false /\ endsWith k "_Attach" = false /\ k <> "".
Proof.
  unfold inherited. intros Hk. apply existsb_exists in Hk as (n & Hn & Hk).
  apply String.eqb_eq in Hk as ->. cbn in Hn.
  repeat (destruct Hn as [<-|Hn]; [by vm_compute|]). done.
Qed.

(** As far as the service it leaves goes, [setPortState] acts on the
    stored model and the stored port, and on nothing else. *)
Lemma setPortState_eq mid portName state blink st :
  setPortState mid portName state blink st
  = match loadedModels st !! mid with
    | None => st
    | Some modelData =>
        match portIndicators modelData !! portName with
        | None => st
        | Some portInfo =>
            updateCableVisualsForPort mid portName
              (with_loadedModels
                 (<[mid := with_portIndicators
                              (<[portName := apply_port_state state blink portInfo]>
                                 (portIndicators modelData)) modelData]>
                    (loadedModels st)) st)
        end
    end.
Proof.
  unfold setPortState, js_get.
  destruct (loadedModels st !! mid) as [md|]; [|by destruct (inherited mid)].
  destruct (portIndicators md !! portName); [done|by destruct (inherited portName)].
Qed.

(** [setPortState] throws exactly on an inherited property taken for the
    model or for the port. *)
Lemma setPortState_throws_iff mid portName st :
  setPortState_throws mid portName st = true
  <-> match loadedModels st !! mid with
      | None => inherited mid = true
      | Some modelData =>
          portIndicators modelData !! portName = None
          /\ inherited portName = true
      end.
Proof.
  unfold setPortState_throws, js_get.
  destruct (loadedModels st !! mid) as [md|]; [|by destruct (inherited mid)].
  destruct (portIndicators md !! portName).
  - split; [done|by intros [? _]].
  - destruct (inherited portName); split; try done. by intros [_ ?].
Qed.

(** The calls of [setPortState] that [addModelToScene] makes do not
    throw. *)
Lemma setPortState_of_indicator_returns mid portName st :
  inherited mid = false -> endsWith portName "_Indicator" = true ->
  setPortState_throws mid portName st = false.
Proof.
  intros Hmid Hind. apply not_true_iff_false. intros Hthrows.
  apply setPortState_throws_iff in Hthrows.
  destruct (loadedModels st !! mid) as [md|]; [|congruence].
  destruct Hthrows as [_ Hinh]. apply inherited_names in Hinh as [Hno _].
  congruence.
Qed.

(** [setPortState] on a port it finds rewrites that port and no other
    entry of [loadedModels]. *)
Lemma setPortState_found mid portName state blink st modelData portInfo :
  loadedModels st !! mid = Some modelData ->
  portIndicators modelData !! portName = Some portInfo ->
  loadedModels (setPortState mid portName state blink st)
  = <[mid := with_portIndicators
               (<[portName := apply_port_state state blink portInfo]>
                  (portIndicators modelData)) modelData]> (loadedModels st).
Proof.
  intros Hm Hp. rewrite setPortState_eq. by rewrite Hm, Hp.
Qed.

Lemma setPortState_port mid portName state blink st modelData portInfo :
  loadedModels st !! mid = Some modelData ->
  portIndicators modelData !! portName = Some portInfo ->
  loadedModels (setPortState mid portName state blink st) !! mid
    ≫= (fun md => portIndicators md !! portName)
  = Some (apply_port_state state blink portInfo).
Proof.
  intros Hm Hp. rewrite (setPortState_found _ _ _ _ _ _ _ Hm Hp).
  rewrite lookup_insert_eq. cbn. by rewrite lookup_insert_eq.
Qed.

(** C1, as the code has it.  On a loaded model and a port indicator
    registered on it, [setPortState] leaves the indicator's material green
    for 'active', gray with a black emissive for 'inactive', red for
    'error'; for any other state string the colour is what the engine's
    [Color.set] makes of that string, starting from the colour the
    material has, and the emissive is black. *)
Theorem setPortState_indicator_colors
    (mid portName state : string) (blink : bool) (st : State)
    (modelData : LoadedModel) (portInfo : PortInfo) :
  loadedModels st !! mid = Some modelData ->
  portIndicators modelData !! portName = Some portInfo ->
  exists modelData' portInfo',
    loadedModels (setPortState mid portName state blink st) !! mid
    = Some modelData'
    /\ portIndicators modelData' !! portName = Some portInfo'
    /\ (state = "active" ->
        color (mesh_material (mesh portInfo')) = 0x00ff00)
    /\ (state = "inactive" ->
        color (mesh_material (mesh portInfo')) = 0x808080
        /\ emissive (mesh_material (mesh portInfo')) = 0x000000)
    /\ (state = "error" ->
        color (mesh_material (mesh portInfo')) = 0xff0000)
    /\ (state <> "active" -> state <> "inactive" -> state <> "error" ->
        color (mesh_material (mesh portInfo'))
        = Color_setStyle state (color (mesh_material (mesh portInfo)))
        /\ emissive (mesh_material (mesh portInfo')) = 0x000000).
Proof.
  intros Hm Hp.
  rewrite (setPortState_found _ _ _ _ _ _ _ Hm Hp), lookup_insert_eq.
  eexists _, (apply_port_state state blink portInfo).
  split; [done|]. split; [cbn; by rewrite lookup_insert_eq|].
  unfold apply_port_state. split_and!.
  - by intros ->.
  - by intros ->.
  - by intros ->.
  - intros Ha Hi He.
    apply String.eqb_neq in Ha, Hi, He. by rewrite Ha, Hi, He.
Qed.

Lemma port_of_setPortState mid portName state blink st portInfo :
  port_of mid portName st = Some portInfo ->
  port_of mid portName (setPortState mid portName state blink st)
  = Some (apply_port_state state blink portInfo).
Proof.
  unfold port_of. intros Hp.
  destruct (loadedModels st !! mid) as [md|] eqn:Hm; [|done]. cbn in Hp.
  by apply (setPortState_port _ _ _ _ _ md).
Qed.

Lemma apply_port_state_currentState state blink p :
  currentState (apply_port_state state blink p) = Some state.
Proof.
  unfold apply_port_state.
  by destruct (String.eqb state "active"), (String.eqb state "inactive"),
    (String.eqb state "error").
Qed.

Lemma apply_port_state_blinking state blink p :
  blinking (apply_port_state state blink p)
  = Some (if String.eqb state "inactive" then false else blink).
Proof.
  unfold apply_port_state.
  destruct (String.eqb state "active") eqn:Ha.
  - apply String.eqb_eq in Ha as ->. done.
  - by destruct (String.eqb state "inactive"), (String.eqb state "error").
Qed.

Lemma apply_port_state_emissive state blink p q :
  emissive (indicator_material (apply_port_state state blink p))
  = emissive (indicator_material (apply_port_state state blink q)).
Proof.
  unfold apply_port_state, indicator_material.
  by destruct (String.eqb state "active"), (String.eqb state "inactive"),
    (String.eqb state "error").
Qed.

Lemma apply_port_state_color state blink p q :
  state = "active" \/ state = "inactive" \/ state = "error"
  \/ Color_setStyle state (color (indicator_material p))
     = Color_setStyle state (color (indicator_material q)) ->
  color (indicator_material (apply_port_state state blink p))
  = color (indicator_material (apply_port_state state blink q)).
Proof.
  unfold apply_port_state, indicator_material.
  intros [->|[->|[->|Heq]]]; try done.
  destruct (String.eqb state "active"), (String.eqb state "inactive"),
    (String.eqb state "error"); try done.
Qed.

(** C7, as the code has it.  After [setPortState] on an existing port
    indicator, [currentState] is the [state] argument and the stored
    blinking flag is the [blinking] argument, except that it is false for
    'inactive'.  From any two prior states of the port the same arguments
    give the same stored state and blinking flag and the same emissive;
    they give the same colour when the state is one of the three named
    ones, or when the engine makes the same colour of the state string
    from both prior colours. *)
Theorem setPortState_result_from_arguments
    (mid portName state : string) (blink : bool) (st1 st2 : State)
    (p1 p2 : PortInfo) :
  port_of mid portName st1 = Some p1 ->
  port_of mid portName st2 = Some p2 ->
  exists q1 q2,
    port_of mid portName (setPortState mid portName state blink st1) = Some q1
    /\ port_of mid portName (setPortState mid portName state blink st2) = Some q2
    /\ currentState q1 = Some state
    /\ blinking q1 = Some (if String.eqb state "inactive" then false else blink)
    /\ currentState q2 = currentState q1
    /\ blinking q2 = blinking q1
    /\ emissive (indicator_material q2) = emissive (indicator_material q1)
    /\ (state = "active" \/ state = "inactive" \/ state = "error"
        \/ Color_setStyle state (color (indicator_material p1))
           = Color_setStyle state (color (indicator_material p2)) ->
        color (indicator_material q2) = color (indicator_material q1)).
Proof.
  intros H1 H2.
  exists (apply_port_state state blink p1), (apply_port_state state blink p2).
  split; [by apply port_of_setPortState|].
  split; [by apply port_of_setPortState|].
  rewrite !apply_port_state_currentState, !apply_port_state_blinking.
  split_and!; try done.
  - apply apply_port_state_emissive.
  - intros Hc. symmetry. by apply apply_port_state_color.
Qed.

(** *** Blinking *)

Lemma port_of_updateScene now mid portName st :
  port_of mid portName (updateScene now st)
  = blink_port now <$> port_of mid portName st.
Proof.
  unfold port_of, updateScene, updateBlinkingPorts. cbn.
  rewrite lookup_fmap. destruct (loadedModels st !! mid) as [md|]; [|done].
  cbn. by rewrite lookup_fmap.
Qed.

Lemma blink_port_idle now p :
  blinking p <> Some true -> blink_port now p = p.
Proof.
  intros Hb. unfold blink_port.
  destruct (blinking p) as [[]|]; try done.
Qed.

Lemma blink_port_rest now p t :
  lastBlinkTime p = Some t -> t <> 0 -> now - t <= BLINK_INTERVAL ->
  blink_port now p = p.
Proof.
  intros Ht Hne Hle. unfold blink_port. rewrite Ht. cbn.
  destruct (truthy_bool (blinking p)); [|done].
  rewrite (proj2 (Z.eqb_neq t 0) Hne). cbn.
  destruct (Z.gtb_spec (now - t) BLINK_INTERVAL) as [Hgt|_]; [lia|done].
Qed.

Lemma blink_port_toggle now p state :
  blinking p = Some true -> currentState p = Some state ->
  state = "active" \/ state = "error" ->
  truthy_number (lastBlinkTime p) = false
  \/ BLINK_INTERVAL < now - default 0 (lastBlinkTime p) ->
  toggled now state p (blink_port now p).
Proof.
  intros Hb Hs Hstate Hdue. unfold blink_port. rewrite Hb. cbn.
  assert (negb (truthy_number (lastBlinkTime p))
          || (now - default 0 (lastBlinkTime p) >? BLINK_INTERVAL) = true)
    as ->.
  { destruct Hdue as [->|Hlt]; [done|].
    apply orb_true_iff. right. by apply Z.gtb_lt. }
  unfold toggled, indicator_material, shade, bright, dim. cbn. rewrite Hs.
  destruct (truthy_bool (blinkOn p)); cbn;
    destruct Hstate as [->| ->]; cbn; by rewrite ?Hb, ?Hs.
Qed.

Lemma shade_flips state b :
  state = "active" \/ state = "error" ->
  shade state (negb b) <> shade state b
  /\ (shade state b = bright state /\ shade state (negb b) = dim state
      \/ shade state b = dim state /\ shade state (negb b) = bright state).
Proof. intros [->| ->]; destruct b; cbn; split; (done || tauto). Qed.

(** C5.  A port that has its blinking flag set and is in state 'active'
    or 'error' is either left alone by a call of [updateScene] or blinks:
    its phase flips and its emissive takes the bright or the dim shade of
    its state colour, alternately from one blink to the next.  It blinks
    when it has never blinked or when more than [BLINK_INTERVAL] ms of
    clock time have passed since its last blink, and a blink never
    happens less than [BLINK_INTERVAL] ms after the previous one, recorded
    at a clock reading [t] (of [Date.now()], which is not 0).  A port whose
    blinking flag is not set is left as it is. *)
Theorem updateScene_blinks_at_interval
    (now : Z) (st : State) (mid portName : string) (p : PortInfo) :
  port_of mid portName st = Some p ->
  exists p',
    port_of mid portName (updateScene now st) = Some p'
    /\ (forall state,
          blinking p = Some true -> currentState p = Some state ->
          state = "active" \/ state = "error" ->
          (p' = p \/ toggled now state p p')
          /\ (lastBlinkTime p = None -> toggled now state p p')
          /\ (forall t, lastBlinkTime p = Some t ->
                        BLINK_INTERVAL < now - t -> toggled now state p p')
          /\ (forall t, lastBlinkTime p = Some t -> t <> 0 ->
                        p' <> p -> BLINK_INTERVAL <= now - t)
          /\ (forall later p'',
                port_of mid portName (updateScene later (updateScene now st))
                = Some p'' ->
                toggled now state p p' -> toggled later state p' p'' ->
                emissive (indicator_material p'')
                <> emissive (indicator_material p')
                /\ (emissive (indicator_material p') = bright state
                    /\ emissive (indicator_material p'') = dim state
                    \/ emissive (indicator_material p') = dim state
                       /\ emissive (indicator_material p'') = bright state)))
    /\ (blinking p <> Some true -> p' = p).
Proof.
  intros Hp. exists (blink_port now p).
  split; [by rewrite port_of_updateScene, Hp|].
  split; [|apply blink_port_idle].
  intros state Hb Hs Hstate. split_and!.
  - destruct (lastBlinkTime p) as [t|] eqn:Ht.
    + destruct (decide (t = 0)) as [->|Hne].
      { right. apply blink_port_toggle; try done. left. by rewrite Ht. }
      destruct (decide (now - t <= BLINK_INTERVAL)) as [Hle|Hgt].
      * left. by eapply blink_port_rest.
      * right. apply blink_port_toggle; try done. right. rewrite Ht. cbn. lia.
    + right. apply blink_port_toggle; try done. left. by rewrite Ht.
  - intros Ht. apply blink_port_toggle; try done. left. by rewrite Ht.
  - intros t Ht Hlt. apply blink_port_toggle; try done. right. by rewrite Ht.
  - intros t Ht Hne Hchanged.
    destruct (decide (now - t <= BLINK_INTERVAL)) as [Hle|Hgt]; [|lia].
    destruct Hchanged. by eapply blink_port_rest.
  - intros later p'' _ (Hon & _ & Hem & _) (_ & _ & Hem' & _).
    rewrite Hem, Hem', Hon. cbn.
    by apply shade_flips.
Qed.

(** *** Selection by click *)

Lemma is_loaded_true st n : is_loaded st n = true <-> taken_for_model st n.
Proof.
  unfold is_loaded, taken_for_model, js_get.
  destruct (loadedModels st !! n) as [md|].
  - split; [by left; eexists|done].
  - destruct (inherited n); split; try done; try by right.
    by intros [[? ?]|?].
Qed.

Lemma is_loaded_false st n : is_loaded st n = false <-> ~ taken_for_model st n.
Proof.
  rewrite <- is_loaded_true. by destruct (is_loaded st n).
Qed.

Lemma find_selection_passed_over st below rest :
  passed_over st below ->
  find_selection st (below ++ rest) = find_selection st rest.
Proof.
  induction below as [|x below IH]; intros Hover; [done|].
  destruct (Hover x) as [Hx Hnot]; [by left|].
  cbn. rewrite (proj2 (is_loaded_false st x) Hx), Hnot.
  apply IH. intros y Hy. apply Hover. by right.
Qed.

Lemma parent_model_no_model_root st between rest :
  no_model_root st between ->
  parent_model st (between ++ rest) = parent_model st rest.
Proof.
  induction between as [|x between IH]; intros Hno; [done|].
  cbn. rewrite (proj2 (is_loaded_false st x)) by (apply Hno; by left).
  apply IH. intros y Hy. apply Hno. by right.
Qed.

Lemma parent_model_None st chain :
  no_model_root st chain -> parent_model st chain = None.
Proof.
  intros Hno. rewrite <- (app_nil_r chain).
  by rewrite parent_model_no_model_root.
Qed.

Lemma find_selection_no_model_root st chain :
  no_model_root st chain -> (find_selection st chain).1.1 = None.
Proof.
  induction chain as [|x chain IH]; intros Hno; [done|].
  cbn. rewrite (proj2 (is_loaded_false st x)) by (apply Hno; by left).
  assert (no_model_root st chain) by (intros y Hy; apply Hno; by right).
  destruct (endsWith x "_Indicator"); cbn; [by apply parent_model_None|by apply IH].
Qed.

Lemma parent_model_Some st chain m :
  parent_model st chain = Some m ->
  exists between above,
    chain = between ++ m :: above /\ no_model_root st between
    /\ taken_for_model st m.
Proof.
  induction chain as [|x chain IH]; [done|]. cbn.
  destruct (is_loaded st x) eqn:Hx.
  - intros [= ->]. exists [], chain. split; [done|].
    split; [by intros ? ?%elem_of_nil|by apply is_loaded_true].
  - intros (between & above & -> & Hno & Hm)%IH.
    exists (x :: between), above. split; [done|]. split; [|done].
    intros y [->|Hy]%elem_of_cons; [by apply is_loaded_false|by apply Hno].
Qed.

(** What the walk up the ancestors has found when it yields a model. *)
Lemma find_selection_Some st chain m portName objectType :
  find_selection st chain = (Some m, portName, objectType) ->
  (portName = None /\ objectType = Some device
   /\ exists below above,
        chain = below ++ m :: above /\ passed_over st below
        /\ taken_for_model st m)
  \/ (exists n below between above,
         portName = Some n /\ objectType = Some port
         /\ chain = below ++ n :: between ++ m :: above /\ passed_over st below
         /\ ~ taken_for_model st n /\ endsWith n "_Indicator" = true
         /\ no_model_root st between /\ taken_for_model st m).
Proof.
  induction chain as [|x chain IH]; [done|]. cbn.
  destruct (is_loaded st x) eqn:Hx.
  - intros [= -> <- <-]. left. split_and!; try done.
    exists [], chain. split; [done|].
    split; [by intros ? ?%elem_of_nil|by apply is_loaded_true].
  - apply is_loaded_false in Hx.
    destruct (endsWith x "_Indicator") eqn:Hind.
    + intros [= Hparent <- <-]. right.
      apply parent_model_Some in Hparent as (between & above & -> & Hno & Hm).
      exists x, [], between, above. split_and!; try done.
      by intros ? ?%elem_of_nil.
    + assert (Hover : forall below, passed_over st below -> passed_over st (x :: below)).
      { intros below Hb y [->|Hy]%elem_of_cons; [done|by apply Hb]. }
      intros [(-> & -> & below & above & -> & Hb & Hm)
             |(n & below & between & above & -> & -> & -> & Hb & Hrest)]%IH.
      * left. split_and!; try done. exists (x :: below), above.
        split; [done|]. split; [by apply Hover|done].
      * right. exists n, (x :: below), between, above.
        split_and!; try done; try tauto. by apply Hover.
Qed.

Lemma endsWith_nonempty s suffix :
  suffix <> "" -> endsWith s suffix = true -> s <> "".
Proof.
  intros Hsuffix Hends ->. unfold endsWith in Hends.
  destruct suffix; [done|]. by cbn in Hends.
Qed.

Lemma onCanvasClick_device st chain others n :
  hits_device st chain n ->
  onCanvasClick (chain :: others) st = [mkSelectedEvent n n device].
Proof.
  intros (below & above & -> & Hover & Hn & Hne).
  unfold onCanvasClick. rewrite find_selection_passed_over by done.
  cbn. rewrite (proj2 (is_loaded_true st n) Hn). cbn.
  by rewrite (proj2 (String.eqb_neq n "") Hne).
Qed.

Lemma onCanvasClick_port st chain others m n :
  hits_port st chain m n ->
  onCanvasClick (chain :: others) st = [mkSelectedEvent m n port].
Proof.
  intros (below & between & above & -> & Hover & Hn & Hind & Hno & Hm & Hne).
  unfold onCanvasClick. rewrite find_selection_passed_over by done.
  cbn. rewrite (proj2 (is_loaded_false st n) Hn), Hind.
  rewrite parent_model_no_model_root by done.
  cbn. rewrite (proj2 (is_loaded_true st m) Hm). cbn.
  rewrite (proj2 (String.eqb_neq m "") Hne).
  assert (n <> "") as Hn' by (by apply (endsWith_nonempty n "_Indicator")).
  by rewrite (proj2 (String.eqb_neq n "") Hn').
Qed.

Lemma onCanvasClick_event st chain others ev :
  onCanvasClick (chain :: others) st = [ev] ->
  (hits_device st chain (ev_modelId ev)
   /\ ev = mkSelectedEvent (ev_modelId ev) (ev_modelId ev) device)
  \/ (exists n, hits_port st chain (ev_modelId ev) n
                /\ ev = mkSelectedEvent (ev_modelId ev) n port).
Proof.
  unfold onCanvasClick.
  destruct (find_selection st chain) as [[[m|] portName] objectType] eqn:Hfind;
    [|done].
  apply find_selection_Some in Hfind
    as [(-> & -> & below & above & -> & Hover & Hm)
       |(n & below & between & above & -> & -> & -> & Hover & Hn & Hind & Hno & Hm)].
  - cbn. destruct (String.eqb m "") eqn:Hne; [done|]. cbn.
    intros [= <-]. left. split; [|done]. cbn.
    exists below, above. split_and!; try done. by apply String.eqb_neq.
  - cbn. destruct (String.eqb m "") eqn:Hne; [done|]. cbn.
    assert (n <> "") as Hn' by (by apply (endsWith_nonempty n "_Indicator")).
    rewrite (proj2 (String.eqb_neq n "") Hn'). cbn.
    intros [= <-]. right. exists n. split; [|done]. cbn.
    exists below, between, above. split_and!; try done. by apply String.eqb_neq.
Qed.

(** A click whose ray hits an object sends at most one
    [onObjectSelected] event.  Walking up from the object hit, the first
    object that the lookup in [loadedModels] takes for a model root (the
    id of a loaded model, or the name of a property every object
    inherits) or whose name ends in '_Indicator' decides: if it is taken
    for a model root and has a name, the one event has type 'device' and
    that name as model id and object name; if it is an indicator with such
    an object above it, the one event has type 'port', the indicator's
    name as object name and the name of the nearest such object as model
    id; events are sent in these two cases only, and none when no object
    on the way up is taken for a model root.  The event reaches the
    store's selected object with its three fields as sent. *)
Theorem onCanvasClick_selects_device_or_port
    (st : State) (chain : list string) (others : list (list string))
    (store : TopologyState.Store) :
  (List.length (onCanvasClick (chain :: others) st) <= 1)%nat
  /\ (forall n, hits_device st chain n ->
        onCanvasClick (chain :: others) st = [mkSelectedEvent n n device])
  /\ (forall m n, hits_port st chain m n ->
        onCanvasClick (chain :: others) st = [mkSelectedEvent m n port])
  /\ (forall ev, onCanvasClick (chain :: others) st = [ev] ->
        (hits_device st chain (ev_modelId ev)
         /\ ev = mkSelectedEvent (ev_modelId ev) (ev_modelId ev) device)
        \/ (exists n, hits_port st chain (ev_modelId ev) n
                      /\ ev = mkSelectedEvent (ev_modelId ev) n port))
  /\ (no_model_root st chain -> onCanvasClick (chain :: others) st = [])
  /\ (forall ev, onCanvasClick (chain :: others) st = [ev] ->
        TopologyState.selectedObject
          (TopologyViewer.click (chain :: others) st store)
        = Some (TopologyState.mkSelectedObjectInfo
                  (ev_modelId ev) (ev_objectName ev) (ev_objectType ev))).
Proof.
  split_and!.
  - unfold onCanvasClick.
    destruct (find_selection st chain) as [[[m|] portName] [ty|]]; cbn;
      repeat case_match; cbn; lia.
  - intros n. apply onCanvasClick_device.
  - intros m n. apply onCanvasClick_port.
  - intros ev. apply onCanvasClick_event.
  - intros Hno%find_selection_no_model_root. unfold onCanvasClick.
    destruct (find_selection st chain) as [[m portName] objectType].
    cbn in Hno. by subst m.
  - intros ev Hev. unfold TopologyViewer.click. by rewrite Hev.
Qed.

(** *** Cables *)

Lemma connectCable_found url cableId source target st sa ta :
  attach_point st source = Some sa -> attach_point st target = Some ta ->
  connectCable url cableId source target st
  = Await url (connectCable_loaded cableId source target sa ta).
Proof.
  unfold attach_point, connectCable. intros Hs Ht.
  destruct (loadedModels st !! modelId source) as [sm|] eqn:Hsm; [|done].
  destruct (loadedModels st !! modelId target) as [tm|] eqn:Htm; [|done].
  cbn in Hs, Ht.
  by rewrite (js_get_own _ _ _ Hsm), (js_get_own _ _ _ Htm),
    (js_get_own _ _ _ Hs), (js_get_own _ _ _ Ht).
Qed.

(** With a model or an attach point not stored under the name, nothing
    comes of the call, whatever the load settles to and whenever. *)
Lemma connectCable_missing url cableId source target st :
  attach_point st source = None \/ attach_point st target = None ->
  forall r st', settle r (connectCable url cableId source target st) st' = st'.
Proof.
  unfold attach_point, connectCable, js_get. intros Hmissing r st'.
  destruct (loadedModels st !! modelId source) as [sm|],
           (loadedModels st !! modelId target) as [tm|];
    repeat case_match; try done.
  cbn in Hmissing. destruct Hmissing; congruence.
Qed.

Lemma lengthOf_subVectors a b : lengthOf (subVectors b a) = distanceTo a b.
Proof.
  unfold lengthOf, distanceTo, subVectors. cbn. f_equal. ring.
Qed.

Lemma halfway_is_midpoint a b :
  addVectors a (multiplyScalar (subVectors b a) (1 / 2)) = midpoint a b.
Proof.
  unfold addVectors, multiplyScalar, subVectors, midpoint. cbn.
  f_equal; lra.
Qed.

(** The cable [connectCable_loaded] records, before its colour is brought
    in line with the source port. *)
Lemma connectCable_loaded_cable cableId source target sa ta gltf st :
  exists color,
    cables (connectCable_loaded cableId source target sa ta (Loaded gltf) st)
      !! cableId
    = Some (mkCableInfo cableId
              (mkCableMesh (fresh st) cableId
                 (distanceTo (getWorldPosition sa) (getWorldPosition ta))
                 (midpoint (getWorldPosition sa) (getWorldPosition ta))
                 (normalize
                    (multiplyScalar
                       (subVectors (getWorldPosition ta) (getWorldPosition sa))
                       (1 / 2)))
                 color)
              source target).
Proof.
  unfold connectCable_loaded, updateCableVisualsForPort. cbn.
  rewrite lookup_fmap, lookup_insert_eq. cbn.
  rewrite lengthOf_subVectors, halfway_is_midpoint.
  repeat case_match; by eexists.
Qed.



(** *** Loading models *)

(** One step of the traversal: the callback on the first node, by cases. *)
Ltac traversal_step :=
  cbn [fold_left]; unfold register_child at 2; repeat case_match.

(** While [mid] is not in [loadedModels], the [setPortState] calls made
    during the traversal find nothing to set. *)
Lemma register_children_not_loaded mid nodes entry st :
  loadedModels st !! mid = None ->
  (fold_left (register_child mid) nodes (entry, st)).2 = st.
Proof.
  intros Hnone. revert entry.
  induction nodes as [|child nodes IH]; intros entry; [done|].
  cbn [fold_left]. unfold register_child at 2.
  assert (setPortState mid (name child) "inactive" false st = st) as Hnoop
    by (rewrite setPortState_eq; by rewrite Hnone).
  repeat case_match; rewrite ?Hnoop; apply IH.
Qed.

Lemma register_children_id mid nodes entry st :
  id entry = mid ->
  id (fold_left (register_child mid) nodes (entry, st)).1 = mid.
Proof.
  revert entry st. induction nodes as [|child nodes IH]; intros entry st Hid;
    [done|].
  traversal_step; by apply IH.
Qed.

(** The calls [addModelToScene] takes: on an id under which nothing is
    stored and which names no inherited property. *)
Lemma addModelToScene_taken url mid position rotation st :
  loadedModels st !! mid = None -> inherited mid = false ->
  addModelToScene url mid position rotation st
  = Await url (addModelToScene_loaded mid position rotation).
Proof.
  intros Hnone Hinh. unfold addModelToScene.
  by rewrite (js_get_not_own _ _ Hnone), Hinh.
Qed.

Lemma addModelToScene_refused url mid position rotation st :
  is_Some (loadedModels st !! mid) \/ inherited mid = true ->
  addModelToScene url mid position rotation st = Settled.
Proof.
  unfold addModelToScene, js_get. intros [[m ->]|Hinh]; [done|].
  rewrite Hinh. by destruct (loadedModels st !! mid).
Qed.

Lemma addModelToScene_duplicate url mid position rotation r st :
  is_Some (loadedModels st !! mid) ->
  run_now (addModelToScene url mid position rotation) r st = st.
Proof.
  intros Hm. unfold run_now. rewrite addModelToScene_refused; auto.
Qed.

Lemma addModelToScene_load_error url mid position rotation st :
  run_now (addModelToScene url mid position rotation) LoadError st = st.
Proof.
  unfold run_now, addModelToScene. by destruct (js_get (loadedModels st) mid).
Qed.

(** Without a scene nothing comes of the call. *)
Lemma addModelToScene_no_scene url mid position rotation r st later :
  has_scene later = false ->
  settle r (addModelToScene url mid position rotation st) later = later.
Proof.
  intros Hscene. unfold addModelToScene.
  destruct (js_get (loadedModels st) mid); [done|done|]. cbn [settle].
  unfold addModelToScene_loaded. destruct r; [done|]. by rewrite Hscene.
Qed.

(** A call on an id that is not loaded yet, whose asset loads with nothing
    else running in between, adds one root and one entry. *)
Lemma addModelToScene_loads_entry url mid position rotation gltf st :
  loadedModels st !! mid = None -> inherited mid = false ->
  has_scene st = true ->
  run_now (addModelToScene url mid position rotation) (Loaded gltf) st
  = mkState true (scene st ++ [ModelRoot (fresh st) mid position rotation])
      (<[mid := (fold_left (register_child mid) (traverse (set_name mid gltf))
                   (mkLoadedModel mid (fresh st) ∅ ∅,
                    scene_add (ModelRoot (fresh st) mid position rotation)
                      (with_fresh (S (fresh st)) st))).1]>
         (loadedModels st))
      (cables st) (S (fresh st)).
Proof.
  intros Hnone Hinh Hscene. unfold run_now.
  rewrite addModelToScene_taken by done. cbn [settle].
  unfold addModelToScene_loaded. rewrite Hscene. cbv zeta.
  set (st1 := scene_add _ _).
  set (entry0 := mkLoadedModel mid (fresh st) ∅ ∅).
  pose proof (register_children_not_loaded mid (traverse (set_name mid gltf))
                entry0 st1 Hnone) as Hst.
  destruct (fold_left _ _ _) as [entry st2] eqn:Hfold. cbn in Hst. subst st2.
  subst st1. unfold with_loadedModels, scene_add, with_scene, with_fresh. cbn.
  by rewrite Hscene.
Qed.

Lemma register_children_object mid nodes entry st :
  object (fold_left (register_child mid) nodes (entry, st)).1 = object entry.
Proof.
  revert entry st. induction nodes as [|child nodes IH]; intros entry st; [done|].
  traversal_step; by rewrite IH.
Qed.

Lemma addModelToScene_loads url mid position rotation gltf st :
  loadedModels st !! mid = None -> inherited mid = false ->
  has_scene st = true ->
  exists entry,
    run_now (addModelToScene url mid position rotation) (Loaded gltf) st
    = mkState true (scene st ++ [ModelRoot (fresh st) mid position rotation])
        (<[mid := entry]> (loadedModels st)) (cables st) (S (fresh st))
    /\ id entry = mid /\ object entry = fresh st.
Proof.
  intros Hnone Hinh Hscene. eexists.
  split; [by apply addModelToScene_loads_entry|].
  split; [by apply register_children_id|by rewrite register_children_object].
Qed.

(** The ports the traversal registers are entered as the asset has them. *)
Lemma register_children_ports (P : PortInfo -> Prop) mid nodes entry st :
  (forall material name,
      P (mkPortInfo (mkMesh name material) (color material) (emissive material)
           None None None None)) ->
  (forall n q, portIndicators entry !! n = Some q -> P q) ->
  forall n q,
    portIndicators (fold_left (register_child mid) nodes (entry, st)).1 !! n
    = Some q -> P q.
Proof.
  intros Hnew. revert entry st.
  induction nodes as [|child nodes IH]; intros entry st Hentry; [done|].
  traversal_step; apply IH; try done.
  intros n q. cbn. intros [[_ <-]|[_ Hq]]%lookup_insert_Some; [done|].
  by eapply Hentry.
Qed.

(** *** Cables and the models they join *)

Lemma cable_ends_lookup st k :
  cable_ends st !! k = (fun ci => (source ci, target ci)) <$> cables st !! k.
Proof. unfold cable_ends. by rewrite lookup_fmap. Qed.

Lemma cables_join_loaded_models_alt st :
  cables_join_loaded_models st
  <-> forall k s t, cable_ends st !! k = Some (s, t) ->
        modelId s ∈ dom (loadedModels st) /\ modelId t ∈ dom (loadedModels st).
Proof.
  unfold cables_join_loaded_models. setoid_rewrite cable_ends_lookup.
  setoid_rewrite elem_of_dom. split.
  - intros Hinv k s t Hk.
    destruct (cables st !! k) as [ci|] eqn:Hci; [|done].
    injection Hk as <- <-. by eapply Hinv.
  - intros Hinv k ci Hci. apply (Hinv k). by rewrite Hci.
Qed.

Lemma same_cables_and_models_invariant st st' :
  same_cables_and_models st st' ->
  cables_join_loaded_models st -> cables_join_loaded_models st'.
Proof.
  intros [Hends Hdom]. rewrite !cables_join_loaded_models_alt.
  rewrite Hends, Hdom. done.
Qed.

Lemma same_cables_and_models_trans st1 st2 st3 :
  same_cables_and_models st1 st2 -> same_cables_and_models st2 st3 ->
  same_cables_and_models st1 st3.
Proof. intros [? ?] [? ?]. split; congruence. Qed.

Lemma updateCableVisualsForPort_same mid portName st :
  same_cables_and_models st (updateCableVisualsForPort mid portName st).
Proof.
  split; [|done]. apply map_eq. intros k. rewrite !cable_ends_lookup. cbn.
  rewrite lookup_fmap. destruct (cables st !! k) as [ci|]; [|done]. cbn.
  destruct (cable_touches_port mid portName ci); [|done].
  by repeat case_match.
Qed.

Lemma setPortState_same mid portName state blink st :
  same_cables_and_models st (setPortState mid portName state blink st).
Proof.
  rewrite setPortState_eq.
  destruct (loadedModels st !! mid) as [md|] eqn:Hm; [|done].
  destruct (portIndicators md !! portName) as [p|]; [|done].
  eapply same_cables_and_models_trans; [|apply updateCableVisualsForPort_same].
  split; [done|]. cbn. rewrite dom_insert_L.
  apply subseteq_union_1_L, singleton_subseteq_l. by eapply elem_of_dom_2.
Qed.

Lemma updateScene_same now st : same_cables_and_models st (updateScene now st).
Proof.
  split.
  - apply map_eq. intros k. rewrite !cable_ends_lookup. cbn.
    rewrite lookup_fmap. destruct (cables st !! k) as [ci|]; [|done]. cbn.
    unfold reposition_cable. by repeat case_match.
  - cbn. by rewrite dom_fmap_L.
Qed.

Lemma register_children_same mid nodes entry st :
  same_cables_and_models st (fold_left (register_child mid) nodes (entry, st)).2.
Proof.
  revert entry st. induction nodes as [|child nodes IH]; intros entry st; [done|].
  traversal_step; try apply IH.
  eapply same_cables_and_models_trans; [apply setPortState_same|apply IH].
Qed.

Lemma attach_point_loaded st e a :
  attach_point st e = Some a -> modelId e ∈ dom (loadedModels st).
Proof.
  unfold attach_point. intros Ha. apply elem_of_dom.
  by destruct (loadedModels st !! modelId e).
Qed.

(** The loop of [removeModelFromScene] over the cable ids. *)
Lemma remove_cables_loop mid ks st :
  let step st cableId :=
    match cables st !! cableId with
    | Some cable =>
        if cable_references mid cable then disconnectCable cableId st else st
    | None => st
    end in
  loadedModels (fold_left step ks st) = loadedModels st
  /\ forall k,
       cables (fold_left step ks st) !! k
       = match cables st !! k with
         | Some c =>
             if bool_decide (k ∈ ks) && cable_references mid c
             then None else Some c
         | None => None
         end.
Proof.
  intros step. revert st. induction ks as [|k0 ks IH]; intros st.
  - split; [done|]. intros k. cbn. by destruct (cables st !! k).
  - cbn [fold_left]. destruct (IH (step st k0)) as [Hmodels Hcables].
    assert (Hstep : loadedModels (step st k0) = loadedModels st
                    /\ forall k, cables (step st k0) !! k
                         = match cables st !! k with
                           | Some c =>
                               if bool_decide (k = k0) && cable_references mid c
                               then None else Some c
                           | None => None
                           end).
    { unfold step, disconnectCable.
      destruct (cables st !! k0) as [c0|] eqn:Hk0.
      - destruct (cable_references mid c0) eqn:Href.
        + split; [done|]. intros k. cbn.
          destruct (decide (k = k0)) as [->|Hne].
          * rewrite lookup_delete_eq, Hk0, Href.
            by rewrite bool_decide_eq_true_2.
          * rewrite lookup_delete_ne by done.
            rewrite bool_decide_eq_false_2 by done.
            by destruct (cables st !! k).
        + split; [done|]. intros k. destruct (cables st !! k) as [c|] eqn:Hk; [|done].
          case_bool_decide as Heq; [|done]. subst k.
          rewrite Hk0 in Hk. injection Hk as <-. by rewrite Href.
      - split; [done|]. intros k. destruct (cables st !! k) as [c|] eqn:Hk; [|done].
        case_bool_decide as Heq; [|done]. subst k. congruence. }
    destruct Hstep as [Hmodels0 Hcables0].
    split; [congruence|]. intros k. rewrite Hcables, Hcables0.
    destruct (cables st !! k) as [c|]; [|done].
    destruct (cable_references mid c) eqn:Href.
    + destruct (decide (k = k0)) as [->|Hne].
      * rewrite bool_decide_eq_true_2 by done. cbn.
        by rewrite bool_decide_eq_true_2 by (by left).
      * rewrite (bool_decide_eq_false_2 (k = k0)) by done. cbn.
        rewrite Href, !andb_true_r.
        destruct (decide (k ∈ ks)) as [Hin|Hnin].
        -- rewrite bool_decide_eq_true_2 by done.
           by rewrite bool_decide_eq_true_2 by (by right).
        -- rewrite bool_decide_eq_false_2 by done.
           rewrite bool_decide_eq_false_2; [done|].
           by intros [?|?]%elem_of_cons.
    + rewrite andb_false_r. cbn. by rewrite Href, !andb_false_r.
Qed.

Lemma grown_models_invariant st st' :
  cable_ends st' = cable_ends st ->
  dom (loadedModels st) ⊆ dom (loadedModels st') ->
  cables_join_loaded_models st -> cables_join_loaded_models st'.
Proof.
  intros Hends Hdom. rewrite !cables_join_loaded_models_alt, Hends.
  intros Hinv k s t Hk. destruct (Hinv k s t Hk). split; by apply Hdom.
Qed.

Lemma cable_keys_elem st k c : cables st !! k = Some c -> k ∈ cable_keys st.
Proof.
  intros Hk. unfold cable_keys. apply list_elem_of_fmap.
  exists (k, c). split; [done|]. by apply elem_of_map_to_list.
Qed.

Lemma cable_references_false mid c :
  cable_references mid c = false ->
  modelId (source c) <> mid /\ modelId (target c) <> mid.
Proof.
  unfold cable_references. intros [Hs Ht]%orb_false_iff.
  split; by apply String.eqb_neq.
Qed.

Lemma initScene_invariant st :
  cables_join_loaded_models st -> cables_join_loaded_models (initScene st).
Proof. done. Qed.

Lemma dispose_invariant st : cables_join_loaded_models (dispose st).
Proof. intros k ci Hk. cbn in Hk. by rewrite lookup_empty in Hk. Qed.

Lemma disconnectCable_invariant cableId st :
  cables_join_loaded_models st ->
  cables_join_loaded_models (disconnectCable cableId st).
Proof.
  intros Hinv. unfold disconnectCable.
  destruct (cables st !! cableId) as [ci0|]; [|done].
  intros k ci Hk. cbn in Hk.
  apply lookup_delete_Some in Hk as [_ Hk]. by apply (Hinv k).
Qed.

(** [removeModelFromScene] takes every cable of the model out of [cables]
    before it takes the model out of [loadedModels]. *)
Lemma removeModelFromScene_invariant mid st :
  cables_join_loaded_models st ->
  cables_join_loaded_models (removeModelFromScene mid st).
Proof.
  intros Hinv. unfold removeModelFromScene.
  destruct (loadedModels st !! mid) as [md|]; [|done].
  destruct (remove_cables_loop mid (cable_keys st) st) as [Hmodels Hcables].
  cbv zeta in Hmodels, Hcables.
  intros k ci Hk. cbn in Hk. cbn. rewrite Hmodels. rewrite Hcables in Hk.
  destruct (cables st !! k) as [c|] eqn:Hc; [|done].
  rewrite (bool_decide_eq_true_2 _ (cable_keys_elem _ _ _ Hc)) in Hk. cbn in Hk.
  destruct (cable_references mid c) eqn:Href; [done|]. injection Hk as <-.
  apply cable_references_false in Href as [Hs Ht].
  destruct (Hinv k c Hc). by rewrite !lookup_delete_ne.
Qed.

(** [connectCable], its load settling at once, records a cable only
    between two models it has just found in [loadedModels]. *)
Lemma connectCable_invariant url cableId source target r st :
  cables_join_loaded_models st ->
  cables_join_loaded_models (run_now (connectCable url cableId source target) r st).
Proof.
  intros Hinv. unfold run_now.
  destruct (attach_point st source) as [sa|] eqn:Hs;
    [destruct (attach_point st target) as [ta|] eqn:Ht|].
  - rewrite (connectCable_found _ _ _ _ _ sa ta) by done.
    destruct r as [|gltf]; [done|]. cbn [settle]. unfold connectCable_loaded.
    eapply same_cables_and_models_invariant;
      [apply updateCableVisualsForPort_same|].
    intros k ci Hk. cbn in Hk. cbn.
    apply lookup_insert_Some in Hk as [[_ <-]|[_ Hk]]; [|by apply (Hinv k)].
    cbn. split; apply elem_of_dom; by eapply attach_point_loaded.
  - rewrite connectCable_missing; [done|by right].
  - rewrite connectCable_missing; [done|by left].
Qed.

Lemma addModelToScene_invariant url mid position rotation r st :
  cables_join_loaded_models st ->
  cables_join_loaded_models
    (run_now (addModelToScene url mid position rotation) r st).
Proof.
  intros Hinv. unfold run_now, addModelToScene.
  destruct (js_get (loadedModels st) mid); [done|done|].
  destruct r as [|gltf]; [done|]. cbn [settle]. unfold addModelToScene_loaded.
  destruct (has_scene st); [|done].
  set (st1 := scene_add _ _). set (entry0 := mkLoadedModel _ _ _ _).
  pose proof (register_children_same mid (traverse (set_name mid gltf)) entry0 st1)
    as [Hends Hdom].
  destruct (fold_left _ _ _) as [entry st2]. cbn in Hends, Hdom.
  eapply (grown_models_invariant st); [done| |done].
  cbn. rewrite dom_insert_L, Hdom. cbn. apply union_subseteq_r.
Qed.

(** Run one after the other, each to completion, the operations of the
    service keep every cable between two loaded models. *)
Lemma run_operation_invariant op st :
  cables_join_loaded_models st -> cables_join_loaded_models (run_operation op st).
Proof.
  intros Hinv. destruct op; cbn [run_operation].
  - by apply initScene_invariant.
  - by apply addModelToScene_invariant.
  - by apply removeModelFromScene_invariant.
  - eapply same_cables_and_models_invariant; [apply setPortState_same|done].
  - by apply connectCable_invariant.
  - by apply disconnectCable_invariant.
  - eapply same_cables_and_models_invariant;
      [apply updateCableVisualsForPort_same|done].
  - eapply same_cables_and_models_invariant; [apply updateScene_same|done].
  - done.
  - apply dispose_invariant.
Qed.

Lemma initial_invariant : cables_join_loaded_models initial.
Proof. intros k ci Hk. cbn in Hk. by rewrite lookup_empty in Hk. Qed.

(** What a load that succeeds adds to the scene does not depend on what
    [loadedModels] holds by then. *)
Lemma setPortState_scene mid portName state blink st :
  scene (setPortState mid portName state blink st) = scene st
  /\ fresh (setPortState mid portName state blink st) = fresh st.
Proof.
  rewrite setPortState_eq.
  destruct (loadedModels st !! mid) as [md|]; [|done].
  by destruct (portIndicators md !! portName).
Qed.

Lemma register_children_scene mid nodes entry st :
  scene (fold_left (register_child mid) nodes (entry, st)).2 = scene st
  /\ fresh (fold_left (register_child mid) nodes (entry, st)).2 = fresh st.
Proof.
  revert entry st. induction nodes as [|child nodes IH]; intros entry st; [done|].
  cbn [fold_left].
  assert (scene (register_child mid (entry, st) child).2 = scene st
          /\ fresh (register_child mid (entry, st) child).2 = fresh st)
    as Hstep.
  { unfold register_child. repeat case_match; try done.
    apply setPortState_scene. }
  destruct (register_child mid (entry, st) child) as [entry' st'].
  cbn in Hstep. destruct Hstep as [<- <-]. apply IH.
Qed.

Lemma setPortState_has_scene mid portName state blink st :
  has_scene (setPortState mid portName state blink st) = has_scene st.
Proof.
  rewrite setPortState_eq.
  destruct (loadedModels st !! mid) as [md|]; [|done].
  by destruct (portIndicators md !! portName).
Qed.

Lemma register_children_has_scene mid nodes entry st :
  has_scene (fold_left (register_child mid) nodes (entry, st)).2 = has_scene st.
Proof.
  revert entry st. induction nodes as [|child nodes IH]; intros entry st; [done|].
  cbn [fold_left].
  assert (has_scene (register_child mid (entry, st) child).2 = has_scene st)
    as Hstep.
  { unfold register_child. repeat case_match; try done.
    apply setPortState_has_scene. }
  destruct (register_child mid (entry, st) child) as [entry' st'].
  cbn in Hstep. rewrite <- Hstep. apply IH.
Qed.

Lemma addModelToScene_loaded_scene mid position rotation gltf st :
  has_scene st = true ->
  scene (addModelToScene_loaded mid position rotation (Loaded gltf) st)
  = scene st ++ [ModelRoot (fresh st) mid position rotation]
  /\ fresh (addModelToScene_loaded mid position rotation (Loaded gltf) st)
     = S (fresh st)
  /\ has_scene (addModelToScene_loaded mid position rotation (Loaded gltf) st)
     = true.
Proof.
  intros Hhas. unfold addModelToScene_loaded. rewrite Hhas.
  set (st1 := scene_add _ _). set (entry0 := mkLoadedModel _ _ _ _).
  pose proof (register_children_scene mid (traverse (set_name mid gltf)) entry0 st1)
    as [Hscene Hfresh].
  pose proof (register_children_has_scene mid (traverse (set_name mid gltf))
                entry0 st1) as Hhas'.
  destruct (fold_left _ _ _) as [entry st2]. cbn in Hhas'.
  split_and!; [done|done|]. cbn. by rewrite Hhas'.
Qed.

(** Two calls for the same new id, the second made before the load of the
    first has settled: when both loads succeed, the scene gets two roots of
    that id. *)
Lemma overlapping_loads_add_two_roots url mid position rotation gltf1 gltf2 st :
  loadedModels st !! mid = None -> inherited mid = false ->
  has_scene st = true ->
  scene (settle (Loaded gltf2) (addModelToScene url mid position rotation st)
           (settle (Loaded gltf1) (addModelToScene url mid position rotation st) st))
  = scene st ++ [ ModelRoot (fresh st) mid position rotation;
                  ModelRoot (S (fresh st)) mid position rotation ].
Proof.
  intros Hnone Hinh Hhas. rewrite addModelToScene_taken by done. cbn [settle].
  destruct (addModelToScene_loaded_scene mid position rotation gltf1 st Hhas)
    as (Hscene1 & Hfresh1 & Hhas1).
  destruct (addModelToScene_loaded_scene mid position rotation gltf2
              (addModelToScene_loaded mid position rotation (Loaded gltf1) st)
              Hhas1)
    as (Hscene2 & _).
  rewrite Hscene2, Hscene1, Hfresh1. by rewrite <- app_assoc.
Qed.

(** Started from the service as constructed, any sequence of operations
    in which each one is through before the next begins (the load of an
    asynchronous one settles before anything else runs) leaves every cable
    of [cables] between two models of [loadedModels]. *)
Theorem operations_run_to_completion_keep_cables_joined (ops : list Operation) :
  cables_join_loaded_models
    (fold_left (fun st op => run_operation op st) ops initial).
Proof.
  pose proof initial_invariant as Hinit. revert Hinit. generalize initial.
  induction ops as [|op ops IH]; intros st Hinv; [done|].
  cbn [fold_left]. by apply IH, run_operation_invariant.
Qed.

(** A call of [addModelToScene] whose load settles before anything else
    runs changes the service only when the service has a scene, nothing is
    stored under the id, the id names no property that every object
    inherits, and the asset loads: then it adds one root to the scene and
    one entry, and a later call with that id returns at once.  In every
    other case the service is left as it was. *)
Theorem addModelToScene_only_new_and_loaded
    (url mid : string) (position : option Vector3D)
    (rotation : option EulerRotation) (r : LoadResult) (st : State) :
  (is_Some (loadedModels st !! mid) \/ inherited mid = true
   \/ r = LoadError \/ has_scene st = false ->
   run_now (addModelToScene url mid position rotation) r st = st)
  /\ (forall gltf,
        loadedModels st !! mid = None -> inherited mid = false ->
        r = Loaded gltf -> has_scene st = true ->
        scene (run_now (addModelToScene url mid position rotation) r st)
        = scene st ++ [ModelRoot (fresh st) mid position rotation]
        /\ dom (loadedModels (run_now (addModelToScene url mid position rotation) r st))
           = {[mid]} ∪ dom (loadedModels st)
        /\ cables (run_now (addModelToScene url mid position rotation) r st)
           = cables st
        /\ forall url' position' rotation',
             addModelToScene url' mid position' rotation'
               (run_now (addModelToScene url mid position rotation) r st)
             = Settled).
Proof.
  split.
  - intros [Hloaded|[Hinh|[->|Hnoscene]]].
    + by apply addModelToScene_duplicate.
    + unfold run_now. rewrite addModelToScene_refused; auto.
    + apply addModelToScene_load_error.
    + by apply addModelToScene_no_scene.
  - intros gltf Hnone Hinh -> Hhas.
    destruct (addModelToScene_loads url mid position rotation gltf st
                Hnone Hinh Hhas) as (entry & -> & _).
    cbn. split_and!; [done|by rewrite dom_insert_L|done|].
    intros url' position' rotation'. apply addModelToScene_refused. left.
    cbn. rewrite lookup_insert_eq. by eexists.
Qed.

(** While [mid] is being loaded for the first time, the ports the
    traversal registers are not initialised: the [setPortState] call made
    for each of them looks the model up in [loadedModels], where it is
    entered only after the traversal.  A registered indicator keeps the
    material of the asset and has no current state. *)
Theorem addModelToScene_leaves_indicators_as_loaded
    (url mid : string) (position : option Vector3D)
    (rotation : option EulerRotation) (gltf : Object3D) (st : State)
    (portName : string) (p : PortInfo) :
  (loadedModels st !! mid = None /\
   port_of mid portName
     (run_now (addModelToScene url mid position rotation) (Loaded gltf) st)
   = Some p) ->
  currentState p = None /\ blinking p = None
  /\ color (indicator_material p) = originalColor p
  /\ emissive (indicator_material p) = originalEmissive p.
Proof.
  intros [Hnone Hp].
  destruct (inherited mid) eqn:Hinh.
  { unfold run_now in Hp. rewrite addModelToScene_refused in Hp by auto.
    cbn [settle] in Hp. unfold port_of in Hp. by rewrite Hnone in Hp. }
  destruct (has_scene st) eqn:Hhas; cycle 1.
  { unfold run_now in Hp. rewrite addModelToScene_no_scene in Hp by done.
    unfold port_of in Hp. by rewrite Hnone in Hp. }
  revert Hp. unfold port_of.
  rewrite addModelToScene_loads_entry by done. cbn.
  rewrite lookup_insert_eq. cbn.
  apply (register_children_ports
           (fun q => currentState q = None /\ blinking q = None
                     /\ color (indicator_material q) = originalColor q
                     /\ emissive (indicator_material q) = originalEmissive q));
    [done|].
  intros n q Hq. cbn in Hq. by rewrite lookup_empty in Hq.
Qed.

End SceneProofs.

(** The statements above at concrete inputs, with the engine's parser. *)
Section SceneExamples.
Import Engine ThreeScene SceneSpec ThreeColor.

(** An object of the sample scene that the click does not take for a
    model root. *)
Ltac not_taken :=
  let Hl := fresh "Hl" in
  let Hi := fresh "Hi" in
  intros [[? Hl]|Hi]; [by vm_compute in Hl|by vm_compute in Hi].

(** Three frames on a port that blinks in state 'active': the first blink
    turns it bright, 400 ms later nothing happens, 501 ms after the first
    blink it turns dim. *)
Example blinking_three_frames :
  (fun p => (blinkOn p, lastBlinkTime p, emissive (indicator_material p)))
    <$> port_of "sw1" "P1_Indicator" (updateScene 1000 blinking_active)
  = Some (Some true, Some 1000, 0x00ff00)
  /\ (fun p => (blinkOn p, lastBlinkTime p, emissive (indicator_material p)))
       <$> port_of "sw1" "P1_Indicator"
             (updateScene 1400 (updateScene 1000 blinking_active))
     = Some (Some true, Some 1000, 0x00ff00)
  /\ (fun p => (blinkOn p, lastBlinkTime p, emissive (indicator_material p)))
       <$> port_of "sw1" "P1_Indicator"
             (updateScene 1501 (updateScene 1400 (updateScene 1000 blinking_active)))
     = Some (Some false, Some 1501, 0x003300).
Proof. split_and!; vm_compute; reflexivity. Qed.

(** Clicks on the sample scene: an object outside every model, and an
    indicator that is in no loaded model, select nothing. *)
Example clicks_that_select_nothing :
  onCanvasClick [] two_models = []
  /\ onCanvasClick [["c1"; ""]] two_models = []
  /\ onCanvasClick [["P1_Indicator"; "Switch_ModelA"; "sw7"; ""]] two_models = [].
Proof. split_and!; reflexivity. Qed.

(** A model loaded under the empty id is found by the walk but not
    selected: the id is tested for truthiness before the event is sent. *)
Example click_on_model_without_name :
  is_Some (loadedModels unnamed_model !! "")
  /\ onCanvasClick [["Chassis"; "Switch_ModelA"; ""; ""]] unnamed_model = [].
Proof. split; [by eexists|reflexivity]. Qed.

Lemma setPortState_indicator_colors_witness :
  exists portInfo',
    loadedModels (setPortState "sw1" "P1_Indicator" "active" true two_models)
      !! "sw1" ≫= (fun md => portIndicators md !! "P1_Indicator")
    = Some portInfo'
    /\ color (mesh_material (mesh portInfo')) = 0x00ff00.
Proof.
  edestruct (setPortState_indicator_colors
               "sw1" "P1_Indicator" "active" true two_models)
    as (md & p & Hmd & Hp & Hactive & _).
  - reflexivity.
  - reflexivity.
  - exists p. split.
    + rewrite Hmd. exact Hp.
    + by apply Hactive.
Defined.

Lemma setPortState_result_from_arguments_witness :
  exists q1 q2,
    port_of "sw1" "P1_Indicator"
      (setPortState "sw1" "P1_Indicator" "#ff8800" true two_models) = Some q1
    /\ port_of "sw1" "P2_Indicator"
         (setPortState "sw1" "P2_Indicator" "inactive" true two_models) = Some q2
    /\ currentState q1 = Some "#ff8800" /\ blinking q1 = Some true
    /\ currentState q2 = Some "inactive" /\ blinking q2 = Some false.
Proof.
  edestruct (setPortState_result_from_arguments
               "sw1" "P1_Indicator" "#ff8800" true two_models two_models)
    as (q1 & _ & Hq1 & _ & Hs1 & Hb1 & _); [reflexivity|reflexivity|].
  edestruct (setPortState_result_from_arguments
               "sw1" "P2_Indicator" "inactive" true two_models two_models)
    as (q2 & _ & Hq2 & _ & Hs2 & Hb2 & _); [reflexivity|reflexivity|].
  by exists q1, q2.
Defined.

(** C1, as it is stated, fails for a state string that is no colour: the
    port is put in the state, but its colour is not set from the string,
    it stays the red of the state the port was in. *)
Lemma setPortState_other_state_leaves_indicator_color :
  exists before after,
    port_of "sw1" "P1_Indicator" was_error = Some before
    /\ port_of "sw1" "P1_Indicator"
         (setPortState "sw1" "P1_Indicator" "offline" false was_error)
       = Some after
    /\ currentState after = Some "offline"
    /\ color (indicator_material before) = 0xff0000
    /\ color (indicator_material after) = 0xff0000
    /\ emissive (indicator_material after) = 0x000000.
Proof.
  eexists _, _.
  split; [vm_compute; reflexivity|]. split; [vm_compute; reflexivity|].
  by vm_compute.
Qed.

(** C7, as it is stated, fails for a state string the engine cannot
    parse: the port keeps the colour it had, so a port that was green and
    a port that was red end up with different colours after the same
    call. *)
Lemma setPortState_unparsed_state_keeps_prior_color :
  exists q1 q2,
    port_of "sw1" "P1_Indicator"
      (setPortState "sw1" "P1_Indicator" "down" false was_active) = Some q1
    /\ port_of "sw1" "P1_Indicator"
         (setPortState "sw1" "P1_Indicator" "down" false was_error) = Some q2
    /\ color (indicator_material q1) = 0x00ff00
    /\ color (indicator_material q2) = 0xff0000
    /\ color (indicator_material q1) <> color (indicator_material q2).
Proof.
  eexists _, _.
  split; [vm_compute; reflexivity|]. split; [vm_compute; reflexivity|].
  by vm_compute.
Qed.

Lemma updateScene_blinks_at_interval_witness :
  exists p',
    port_of "sw1" "P1_Indicator" (updateScene 1700000000000 blinking_active)
    = Some p'
    /\ blinkOn p' = Some true
    /\ emissive (indicator_material p') = 0x00ff00.
Proof.
  edestruct (updateScene_blinks_at_interval 1700000000000 blinking_active
               "sw1" "P1_Indicator") as (p' & Hp' & Hblink & _);
    [reflexivity|].
  destruct (Hblink "active" eq_refl eq_refl (or_introl eq_refl))
    as (_ & Hfirst & _).
  destruct (Hfirst eq_refl) as (Hon & _ & Hem & _).
  exists p'. split; [exact Hp'|]. split; [exact Hon|exact Hem].
Defined.

Lemma onCanvasClick_selects_device_or_port_witness :
  onCanvasClick [["Chassis"; "Switch_ModelA"; "sw1"; ""]] two_models
  = [mkSelectedEvent "sw1" "sw1" device]
  /\ onCanvasClick [["P2_Indicator"; "Switch_ModelA"; "sw1"; ""]] two_models
     = [mkSelectedEvent "sw1" "P2_Indicator" port].
Proof.
  split.
  - apply (onCanvasClick_selects_device_or_port two_models
             ["Chassis"; "Switch_ModelA"; "sw1"; ""] [] StoreSpec.sample_store).
    exists ["Chassis"; "Switch_ModelA"], [""]. split; [reflexivity|].
    split; [|split; [left; by eexists|done]].
    intros x Hx.
    repeat (apply elem_of_cons in Hx as [->|Hx]; [split; [not_taken|done]|]).
    by apply elem_of_nil in Hx.
  - apply (onCanvasClick_selects_device_or_port two_models
             ["P2_Indicator"; "Switch_ModelA"; "sw1"; ""] [] StoreSpec.sample_store).
    exists [], ["Switch_ModelA"], [""]. split; [reflexivity|].
    split; [by intros x Hx%elem_of_nil|].
    split; [not_taken|]. split; [reflexivity|].
    split; [|split; [left; by eexists|done]].
    intros x Hx. repeat (apply elem_of_cons in Hx as [->|Hx]; [not_taken|]).
    by apply elem_of_nil in Hx.
Defined.



Lemma addModelToScene_leaves_indicators_as_loaded_witness :
  exists p,
    port_of "sw1" "P1_Indicator" one_model = Some p
    /\ currentState p = None
    /\ color (indicator_material p) = 0xcccccc.
Proof.
  eexists. split; [reflexivity|].
  edestruct (addModelToScene_leaves_indicators_as_loaded
               "assets/models/Switch_ModelA.glb" "sw1" None None switch_asset
               (initScene initial) "P1_Indicator") as (Hs & _ & Hc & _).
  - split; reflexivity.
  - split; [exact Hs|exact Hc].
Defined.

(** C2 on the code: in the sample scene no model is loaded under
    'toString' or 'constructor', and yet a click on an object of that name
    inside the switch "sw1" selects a device of that name, where the
    nearest loaded model root is "sw1"; a click on an object of such a
    name outside every model selects it too.  The store takes the
    selection as sent. *)
Theorem click_on_object_named_like_inherited_property :
  loadedModels two_models !! "toString" = None
  /\ loadedModels two_models !! "constructor" = None
  /\ onCanvasClick [["Chassis"; "Switch_ModelA"; "sw1"; ""]] two_models
     = [mkSelectedEvent "sw1" "sw1" device]
  /\ onCanvasClick [["toString"; "Switch_ModelA"; "sw1"; ""]] two_models
     = [mkSelectedEvent "toString" "toString" device]
  /\ onCanvasClick [["constructor"; ""]] two_models
     = [mkSelectedEvent "constructor" "constructor" device]
  /\ TopologyState.selectedObject
       (TopologyViewer.click [["toString"; "Switch_ModelA"; "sw1"; ""]]
          two_models StoreSpec.sample_store)
     = Some (TopologyState.mkSelectedObjectInfo "toString" "toString" device).
Proof. split_and!; reflexivity. Qed.

(** C9 on the code: the same topology delivered again while the load of
    the first delivery has not settled.  Both calls of [addModelToScene]
    for "sw1" find it missing from [loadedModels]; each adds a root named
    "sw1" to the scene, and [loadedModels] keeps the second only.
    Delivered again after the load has settled, the topology adds nothing. *)
Theorem redelivery_while_loading_adds_second_root :
  roots_named "sw1" redelivered_while_loading
  = [ ModelRoot 2 "sw1" (Some StoreSpec.origin) (Some StoreSpec.upright);
      ModelRoot 3 "sw1" (Some StoreSpec.origin) (Some StoreSpec.upright) ]
  /\ (map_to_list (loadedModels redelivered_while_loading)).*1 = ["sw1"]
  /\ object <$> loadedModels redelivered_while_loading !! "sw1" = Some 3%nat
  /\ roots_named "sw1" delivered_then_redelivered
     = [ ModelRoot 2 "sw1" (Some StoreSpec.origin) (Some StoreSpec.upright) ].
Proof. split_and!; vm_compute; reflexivity. Qed.

(** C8 on the code: "sw1" is removed from the scene while the asset of a
    cable from "sw1" to "rt1" is loading.  Before the call and after the
    removal every cable joins two loaded models; when the load settles the
    cable is recorded although "sw1" is no longer loaded. *)
Theorem cable_recorded_after_its_model_was_removed :
  cables_join_loaded_models two_models
  /\ cables_join_loaded_models (removeModelFromScene "sw1" two_models)
  /\ (exists ci,
        cables model_removed_while_cable_loads !! "c1" = Some ci
        /\ source ci = sw1_p1 /\ target ci = rt1_p1)
  /\ loadedModels model_removed_while_cable_loads !! "sw1" = None.
Proof.
  split_and!.
  - change two_models
      with (run_operation
              (AddModelToScene "assets/models/Router_ModelB.glb" "rt1" None None
                 (Loaded router_asset))
              (run_operation
                 (AddModelToScene "assets/models/Switch_ModelA.glb" "sw1" None None
                    (Loaded switch_asset))
                 (run_operation InitScene initial))).
    do 3 apply run_operation_invariant. apply initial_invariant.
  - apply removeModelFromScene_invariant.
    change two_models
      with (run_operation
              (AddModelToScene "assets/models/Router_ModelB.glb" "rt1" None None
                 (Loaded router_asset))
              (run_operation
                 (AddModelToScene "assets/models/Switch_ModelA.glb" "sw1" None None
                    (Loaded switch_asset))
                 (run_operation InitScene initial))).
    do 3 apply run_operation_invariant. apply initial_invariant.
  - eexists. split; [vm_compute; reflexivity|]. split; reflexivity.
  - reflexivity.
Qed.

End SceneExamples.

(* ===================================================================== *)
(** * Further properties of the topology store                            *)
(* ===================================================================== *)

Section StoreEdits.
Import TopologyState StoreSpec.

Lemma layout_eta t :
  mkTopologyLayout (layout_id t) (layout_name t) (models t) (connections t) = t.
Proof. by destruct t. Qed.

Lemma js_filter_all {A} (f : A -> bool) (l : list A) :
  (forall a, a ∈ l -> f a = true) -> List.filter f l = l.
Proof.
  induction l as [|a l IH]; intros Hall; [done|]. cbn.
  rewrite Hall by (by left). f_equal. apply IH. intros b Hb. apply Hall. by right.
Qed.

Lemma js_filter_app {A} (f : A -> bool) (l k : list A) :
  List.filter f (l ++ k) = List.filter f l ++ List.filter f k.
Proof. induction l as [|a l IH]; [done|]. cbn. destruct (f a); by rewrite IH. Qed.

(** Removing a model right after it was added is the same as removing it
    from the topology as it was; when no model and no connection of the
    topology used the id, this gives the topology back. *)
Theorem addModelInstance_then_removeModelInstance
    (m : ModelInstance) (s : Store) (t : TopologyLayout) :
  currentTopology s = Some t ->
  removeModelInstance (id m) (addModelInstance m s) = removeModelInstance (id m) s
  /\ ((forall m', m' ∈ models t -> id m' <> id m) ->
      (forall c, c ∈ connections t ->
         modelId (source c) <> id m /\ modelId (target c) <> id m) ->
      currentTopology (removeModelInstance (id m) (addModelInstance m s)) = Some t).
Proof.
  intros Ht.
  assert (Heq : removeModelInstance (id m) (addModelInstance m s)
                = removeModelInstance (id m) s).
  { assert (List.filter (keeps_model (id m)) (models t ++ [m])
            = List.filter (keeps_model (id m)) (models t)) as Hfilter.
    { rewrite js_filter_app. cbn. unfold keeps_model at 2.
      rewrite String.eqb_refl. apply app_nil_r. }
    unfold removeModelInstance, addModelInstance. rewrite Ht. cbn.
    rewrite Hfilter. destruct (selectedObject s) as [sel|]; [|done].
    by destruct (String.eqb (sel_modelId sel) (id m)). }
  split; [done|]. intros Hmodels Hconnections. rewrite Heq.
  rewrite (removeModelInstance_topology _ _ _ Ht).
  rewrite (js_filter_all (keeps_model (id m)))
    by (intros m' Hm'; apply keeps_model_iff; by apply Hmodels).
  rewrite (js_filter_all (keeps_connection (id m)))
    by (intros c Hc; apply keeps_connection_iff; by apply Hconnections).
  by rewrite layout_eta.
Qed.

Lemma addModelInstance_then_removeModelInstance_witness :
  currentTopology
    (removeModelInstance "sw3"
       (addModelInstance
          (mkModelInstance "sw3" "Switch_ModelA" "assets/models/Switch_ModelA.glb"
             None origin upright [])
          sample_store))
  = currentTopology sample_store.
Proof.
  destruct (addModelInstance_then_removeModelInstance
              (mkModelInstance "sw3" "Switch_ModelA"
                 "assets/models/Switch_ModelA.glb" None origin upright [])
              sample_store _ eq_refl) as [_ Hback].
  apply Hback.
  - intros m' Hm'. cbn in Hm'.
    repeat (apply elem_of_cons in Hm' as [->|Hm']; [done|]).
    by apply elem_of_nil in Hm'.
  - intros c Hc. cbn in Hc.
    repeat (apply elem_of_cons in Hc as [->|Hc]; [done|]).
    by apply elem_of_nil in Hc.
Defined.

(** A connection that is added gets a non-empty id: its own, or a
    generated one when it had none.  Removing that id right after is the
    same as removing it from the topology as it was, and gives the topology
    back when no connection of the topology used the id. *)
Theorem addCableConnection_then_removeCableConnection
    (now : Z) (random : string) (c : CableConnection) (s : Store)
    (t : TopologyLayout) :
  currentTopology s = Some t ->
  exists c',
    currentTopology (addCableConnection now random c s)
    = Some (mkTopologyLayout (layout_id t) (layout_name t) (models t)
              (connections t ++ [c']))
    /\ cable_id c' <> ""
    /\ (cable_id c <> "" -> c' = c)
    /\ (cable_id c = "" ->
        cable_id c' = "cable_" +:+ number_to_string now +:+ "_" +:+ random)
    /\ source c' = source c /\ target c' = target c
    /\ cableModelUrl c' = cableModelUrl c
    /\ removeCableConnection (cable_id c') (addCableConnection now random c s)
       = removeCableConnection (cable_id c') s
    /\ ((forall c0, c0 ∈ connections t -> cable_id c0 <> cable_id c') ->
        currentTopology
          (removeCableConnection (cable_id c') (addCableConnection now random c s))
        = Some t).
Proof.
  intros Ht.
  set (c' := if String.eqb (cable_id c) ""
             then with_cable_id
                    ("cable_" +:+ number_to_string now +:+ "_" +:+ random) c
             else c).
  assert (Hadd : addCableConnection now random c s
                 = next_currentTopology
                     (Some (mkTopologyLayout (layout_id t) (layout_name t)
                              (models t) (connections t ++ [c']))) s)
    by (unfold addCableConnection; by rewrite Ht).
  assert (Hremove : removeCableConnection (cable_id c')
                      (addCableConnection now random c s)
                    = removeCableConnection (cable_id c') s).
  { rewrite Hadd. unfold removeCableConnection. rewrite Ht. cbn.
    rewrite js_filter_app. cbn. rewrite String.eqb_refl. cbn.
    by rewrite app_nil_r. }
  exists c'. split; [by rewrite Hadd|]. subst c'.
  destruct (String.eqb (cable_id c) "") eqn:Hid.
  - apply String.eqb_eq in Hid. split_and!; try done.
    intros Hfresh. rewrite Hremove. unfold removeCableConnection. rewrite Ht. cbn.
    rewrite js_filter_all; [by rewrite layout_eta|].
    intros c0 Hc0. apply negb_true_iff, String.eqb_neq. by apply Hfresh.
  - apply String.eqb_neq in Hid. split_and!; try done.
    intros Hfresh. rewrite Hremove. unfold removeCableConnection. rewrite Ht. cbn.
    rewrite js_filter_all; [by rewrite layout_eta|].
    intros c0 Hc0. apply negb_true_iff, String.eqb_neq. by apply Hfresh.
Qed.

Lemma addCableConnection_then_removeCableConnection_witness :
  exists c',
    currentTopology
      (addCableConnection 1700000000000 "k3x9q"
         (mkCableConnection "" None (mkEndpoint "sw1" "P2_Attach")
            (mkEndpoint "sw2" "P1_Attach")) sample_store)
    = (fun t => mkTopologyLayout (layout_id t) (layout_name t) (models t)
                  (connections t ++ [c'])) <$> currentTopology sample_store
    /\ cable_id c' = "cable_1700000000000_k3x9q".
Proof.
  destruct (addCableConnection_then_removeCableConnection 1700000000000 "k3x9q"
              (mkCableConnection "" None (mkEndpoint "sw1" "P2_Attach")
                 (mkEndpoint "sw2" "P1_Attach")) sample_store _ eq_refl)
    as (c' & Hadd & _ & _ & Hid & _).
  exists c'. split; [exact Hadd|]. rewrite Hid by reflexivity.
  vm_compute. reflexivity.
Defined.

Lemma findIndex_insert_same_key {A} (f : A -> bool) (l : list A) (i : nat) (a a' : A) :
  l !! i = Some a -> f a' = f a -> findIndex f (<[i := a']> l) = findIndex f l.
Proof.
  revert i. induction l as [|b l IH]; intros [|i] Ha Hf; try done.
  - cbn in Ha. injection Ha as ->. cbn. by rewrite Hf.
  - cbn in Ha. change (<[S i := a']> (b :: l)) with (b :: <[i := a']> l).
    cbn [findIndex]. by rewrite (IH i).
Qed.

(** Of two [updatePortState] calls on the same port the later one decides:
    the first leaves no trace.  So a call repeated with the same values
    changes nothing more. *)
Theorem updatePortState_last_call_decides
    (mid pname status1 status2 : string) (blinking1 blinking2 : bool) (s : Store) :
  updatePortState mid pname status2 blinking2
    (updatePortState mid pname status1 blinking1 s)
  = updatePortState mid pname status2 blinking2 s.
Proof.
  unfold updatePortState at 2 3.
  destruct (currentTopology s) as [t|] eqn:Ht;
    [|unfold updatePortState; by rewrite Ht].
  destruct (findIndex _ (models t)) as [i|] eqn:Hi;
    [|unfold updatePortState; by rewrite Ht, Hi].
  destruct (models t !! i) as [m|] eqn:Hm;
    [|unfold updatePortState; by rewrite Ht, Hi, Hm].
  destruct (findIndex _ (ports m)) as [j|] eqn:Hj;
    [|unfold updatePortState; by rewrite Ht, Hi, Hm, Hj].
  destruct (ports m !! j) as [p|] eqn:Hp;
    [|unfold updatePortState; by rewrite Ht, Hi, Hm, Hj, Hp].
  unfold updatePortState. cbn.
  rewrite (findIndex_insert_same_key _ _ _ m) by done. rewrite Hi.
  rewrite list_lookup_insert_eq by (by eapply lookup_lt_Some). cbn.
  rewrite (findIndex_insert_same_key _ _ _ p) by done. rewrite Hj.
  rewrite list_lookup_insert_eq by (by eapply lookup_lt_Some).
  unfold next_currentTopology. cbn. do 3 f_equal.
  by rewrite !list_insert_insert_eq.
Qed.

End StoreEdits.

(* ===================================================================== *)
(** * Further properties of the component and of the backend calls        *)
(* ===================================================================== *)

Section ComponentEdits.
Import TopologyState StoreSpec.

(** A load that fails replaces whatever topology the store holds by the
    empty fallback layout and ends the loading state.  A save that follows
    sends that layout to the backend under the fallback's own id; if the
    save fails the store keeps the topology it has by then, if it succeeds
    the store takes the backend's copy, and in both cases the loading state
    ends. *)
Theorem failed_load_then_save
    (layoutId : string) (s later : Store) :
  isLoading (loadTopology layoutId s).1 = true
  /\ currentTopology (loadTopology layoutId s).1 = currentTopology s
  /\ currentTopology (settle_request Failed (loadTopology layoutId s).2 later)
     = Some getFallbackTopology
  /\ isLoading (settle_request Failed (loadTopology layoutId s).2 later) = false
  /\ selectedObject (settle_request Failed (loadTopology layoutId s).2 later)
     = selectedObject later
  /\ exists settled,
      saveCurrentTopology (settle_request Failed (loadTopology layoutId s).2 later)
      = (next_isLoading true
           (settle_request Failed (loadTopology layoutId s).2 later),
         Request "PUT" "/api/topology/layouts/fallback-layout"
           (Some getFallbackTopology) settled)
      /\ forall s', isLoading (settled Failed s') = false
                    /\ currentTopology (settled Failed s') = currentTopology s'
                    /\ forall saved,
                         isLoading (settled (Ok saved) s') = false
                         /\ currentTopology (settled (Ok saved) s') = Some saved.
Proof.
  split_and!; try done.
  eexists. split; [reflexivity|]. intros s'. split_and!; try done.
Qed.

(** Without a topology [saveCurrentTopology] sends nothing and leaves the
    store, its loading state included, as it is.  With one it sends the
    topology it holds at that moment: a model added while the request is in
    flight is not part of what is sent, and is gone from the store once the
    backend has answered with the copy it was sent. *)
Theorem saveCurrentTopology_sends_snapshot
    (s : Store) (m : ModelInstance) :
  match currentTopology s with
  | None => saveCurrentTopology s = (s, NoRequest)
  | Some t =>
      exists settled,
        saveCurrentTopology s
        = (next_isLoading true s,
           Request "PUT" (apiUrl +:+ "/layouts/" +:+ layout_id t) (Some t) settled)
        /\ currentTopology
             (settled (Ok t) (addModelInstance m (saveCurrentTopology s).1))
           = Some t
        /\ currentTopology
             (settled Failed (addModelInstance m (saveCurrentTopology s).1))
           = Some (mkTopologyLayout (layout_id t) (layout_name t)
                     (models t ++ [m]) (connections t))
  end.
Proof.
  unfold saveCurrentTopology.
  destruct (currentTopology s) as [t|] eqn:Ht; [|done].
  eexists. split; [reflexivity|]. cbn. unfold addModelInstance. cbn.
  by rewrite Ht.
Qed.

Lemma string_app_inj (p a b : string) : p +:+ a = p +:+ b -> a = b.
Proof. induction p as [|c p IH]; cbn; [done|]. intros [= H]. by apply IH. Qed.

(** Two calls of [addSwitch] on a loaded topology append two switches of
    the definition 'Switch_ModelA', without ports, and keep the models and
    connections there were.  The two get the same id exactly when the two
    calls read the same value of the clock. *)
Theorem addSwitch_twice
    (now1 now2 : Z) (x1 z1 x2 z2 : R) (s : Store) (t : TopologyLayout) :
  currentTopology s = Some t ->
  exists m1 m2,
    currentTopology
      (TopologyViewer.addSwitch now2 x2 z2 (TopologyViewer.addSwitch now1 x1 z1 s))
    = Some (mkTopologyLayout (layout_id t) (layout_name t)
              (models t ++ [m1; m2]) (connections t))
    /\ id m1 = "switch_instance_" +:+ number_to_string now1
    /\ id m2 = "switch_instance_" +:+ number_to_string now2
    /\ (id m1 = id m2 <-> now1 = now2)
    /\ modelDefinitionId m1 = "Switch_ModelA" /\ modelDefinitionId m2 = "Switch_ModelA"
    /\ assetUrl m1 = "assets/models/Switch_ModelA.glb"
    /\ assetUrl m2 = "assets/models/Switch_ModelA.glb"
    /\ ports m1 = [] /\ ports m2 = [].
Proof.
  intros Ht. unfold TopologyViewer.addSwitch. cbn.
  unfold addModelInstance at 2. rewrite Ht.
  unfold addModelInstance. cbn.
  eexists _, _. split; [by rewrite <- app_assoc|]. cbn.
  split_and!; try done. split.
  - intros Heq. apply (string_app_inj "switch_instance_") in Heq.
    by apply (inj pretty) in Heq.
  - by intros ->.
Qed.

Lemma addSwitch_twice_witness :
  exists m1 m2,
    (fun t => models t) <$>
      currentTopology
        (TopologyViewer.addSwitch 1700000000001 0 0
           (TopologyViewer.addSwitch 1700000000000 0 0 sample_store))
    = (fun t => models t ++ [m1; m2]) <$> currentTopology sample_store
    /\ id m1 = "switch_instance_1700000000000"
    /\ id m2 = "switch_instance_1700000000001".
Proof.
  destruct (addSwitch_twice 1700000000000 1700000000001 0 0 0 0 sample_store _
              eq_refl) as (m1 & m2 & Hadd & Hid1 & Hid2 & _).
  exists m1, m2. split; [by rewrite Hadd|].
  split; [rewrite Hid1|rewrite Hid2]; vm_compute; reflexivity.
Defined.

(** A click that selects something, followed by [deleteSelectedModel]:
    the model the click named (the device clicked, or the device of the
    port clicked) leaves the topology with all its connections, every
    other model and connection stays in place, and nothing is selected any
    more.  With nothing selected [deleteSelectedModel] does nothing. *)
Theorem click_then_deleteSelectedModel
    (st : ThreeScene.State) (chain : list string) (others : list (list string))
    (s : Store) (t : TopologyLayout) (ev : ThreeScene.SelectedEvent) :
  ThreeScene.onCanvasClick (chain :: others) st = [ev] ->
  currentTopology s = Some t ->
  selectedObject
    (TopologyViewer.deleteSelectedModel
       (TopologyViewer.click (chain :: others) st s)) = None
  /\ currentTopology
       (TopologyViewer.deleteSelectedModel
          (TopologyViewer.click (chain :: others) st s))
     = Some (mkTopologyLayout (layout_id t) (layout_name t)
               (base.filter (fun m => id m <> ThreeScene.ev_modelId ev) (models t))
               (base.filter
                  (fun c => modelId (source c) <> ThreeScene.ev_modelId ev
                            /\ modelId (target c) <> ThreeScene.ev_modelId ev)
                  (connections t)))
  /\ (selectedObject s = None -> TopologyViewer.deleteSelectedModel s = s).
Proof.
  intros Hev Ht.
  assert (Hnamed : ThreeScene.ev_modelId ev <> "").
  { destruct (onCanvasClick_event _ _ _ _ Hev)
      as [[(?&?&?&?&?&?) _]|(n & (?&?&?&?&?&?&?&?&?&?) & _)]; done. }
  unfold TopologyViewer.click. rewrite Hev. cbn.
  unfold TopologyViewer.deleteSelectedModel. cbn.
  rewrite (proj2 (String.eqb_neq _ _) Hnamed). cbn.
  unfold removeModelInstance. cbn. rewrite Ht. cbn. rewrite String.eqb_refl. cbn.
  rewrite (js_filter_eq _ (fun m => id m <> ThreeScene.ev_modelId ev))
    by apply keeps_model_iff.
  rewrite (js_filter_eq _
             (fun c => modelId (source c) <> ThreeScene.ev_modelId ev
                       /\ modelId (target c) <> ThreeScene.ev_modelId ev))
    by apply keeps_connection_iff.
  split_and!; try done.
  intros Hnone. unfold TopologyViewer.deleteSelectedModel.
  unfold getSelectedObjectValue. by rewrite Hnone.
Qed.

Lemma click_then_deleteSelectedModel_witness :
  (fun t => id <$> models t)
    <$> currentTopology
          (TopologyViewer.deleteSelectedModel
             (TopologyViewer.click [["P2_Indicator"; "Switch_ModelA"; "sw1"; ""]]
                SceneSpec.two_models sample_store))
  = Some ["sw2"].
Proof.
  destruct (click_then_deleteSelectedModel SceneSpec.two_models
              ["P2_Indicator"; "Switch_ModelA"; "sw1"; ""] [] sample_store _
              (ThreeScene.mkSelectedEvent "sw1" "P2_Indicator" port)
              eq_refl eq_refl) as (_ & Htopology & _).
  rewrite Htopology. reflexivity.
Defined.

End ComponentEdits.

(* ===================================================================== *)
(** * Further properties of the scene service                             *)
(* ===================================================================== *)

Section SceneEdits.
Import Engine ThreeScene SceneSpec.
Context `{ColorParser}.

(** *** What [setPortState] leaves alone *)

Lemma port_of_insert mid portName mid' portName' st md p :
  loadedModels st !! mid = Some md ->
  (mid', portName') <> (mid, portName) ->
  port_of mid' portName'
    (with_loadedModels
       (<[mid := with_portIndicators (<[portName := p]> (portIndicators md)) md]>
          (loadedModels st)) st)
  = port_of mid' portName' st.
Proof.
  intros Hmd Hne. unfold port_of. cbn.
  destruct (decide (mid' = mid)) as [->|Hmid].
  - rewrite lookup_insert_eq, Hmd. cbn.
    rewrite lookup_insert_ne; [done|]. intros ->. by apply Hne.
  - by rewrite lookup_insert_ne.
Qed.

Lemma setPortState_other_port mid portName state blink mid' portName' st :
  (mid', portName') <> (mid, portName) ->
  port_of mid' portName' (setPortState mid portName state blink st)
  = port_of mid' portName' st.
Proof.
  intros Hne. rewrite setPortState_eq.
  destruct (loadedModels st !! mid) as [md|] eqn:Hmd; [|done].
  destruct (portIndicators md !! portName) as [p|]; [|done].
  change (port_of mid' portName' (updateCableVisualsForPort mid portName ?st'))
    with (port_of mid' portName' st').
  by apply port_of_insert.
Qed.

Lemma setPortState_missing mid portName state blink st :
  port_of mid portName st = None -> setPortState mid portName state blink st = st.
Proof.
  unfold port_of. rewrite setPortState_eq.
  destruct (loadedModels st !! mid) as [md|]; [|done]. cbn.
  by intros ->.
Qed.

Lemma updateCableVisualsForPort_stored mid portName st portInfo :
  port_of mid portName st = Some portInfo ->
  cables (updateCableVisualsForPort mid portName st)
  = (fun ci =>
       if cable_touches_port mid portName ci
       then set_cable_color (state_cable_color (currentState portInfo)) ci
       else ci) <$> cables st.
Proof.
  unfold port_of. intros Hp.
  destruct (loadedModels st !! mid) as [md|] eqn:Hmd; [|done]. cbn in Hp.
  unfold updateCableVisualsForPort. cbn. apply map_fmap_ext. intros k ci _.
  by rewrite (js_get_own _ _ _ Hmd), (js_get_own _ _ _ Hp).
Qed.

Lemma setPortState_cables mid portName state blink st portInfo k :
  port_of mid portName st = Some portInfo ->
  cables (setPortState mid portName state blink st) !! k
  = (fun ci =>
       if cable_touches_port mid portName ci
       then set_cable_color (state_cable_color (Some state)) ci else ci)
      <$> cables st !! k.
Proof.
  unfold port_of. rewrite setPortState_eq. intros Hp.
  destruct (loadedModels st !! mid) as [md|] eqn:Hmd; [|done]. cbn in Hp.
  rewrite Hp.
  rewrite (updateCableVisualsForPort_stored _ _ _
             (apply_port_state state blink portInfo)).
  - cbn. rewrite lookup_fmap. destruct (cables st !! k) as [ci|]; [|done]. cbn.
    by rewrite apply_port_state_currentState.
  - unfold port_of. cbn. rewrite lookup_insert_eq. cbn.
    by rewrite lookup_insert_eq.
Qed.

Lemma same_but_color_refl ci : same_but_color ci ci.
Proof. by repeat split. Qed.

Lemma same_but_color_set c ci : same_but_color ci (set_cable_color c ci).
Proof. by repeat split. Qed.

Lemma models_keep_shape_refl st : models_keep_shape st st.
Proof.
  intros mid. destruct (loadedModels st !! mid) as [md|] eqn:Hmd; [|done].
  by exists md.
Qed.

Lemma cables_keep_shape_refl st : cables_keep_shape st st.
Proof.
  intros k. destruct (cables st !! k) as [ci|] eqn:Hci; [|done].
  exists ci. split; [done|apply same_but_color_refl].
Qed.

Lemma setPortState_models_keep_shape mid portName state blink st :
  models_keep_shape st (setPortState mid portName state blink st).
Proof.
  rewrite setPortState_eq.
  destruct (loadedModels st !! mid) as [md|] eqn:Hmd;
    [|apply models_keep_shape_refl].
  destruct (portIndicators md !! portName) as [p|] eqn:Hp;
    [|apply models_keep_shape_refl].
  intros mid'. cbn. destruct (decide (mid' = mid)) as [->|Hne].
  - rewrite Hmd, lookup_insert_eq. eexists. split; [done|].
    split_and!; try done. cbn. rewrite dom_insert_L.
    apply subseteq_union_1_L, singleton_subseteq_l. by eapply elem_of_dom_2.
  - rewrite lookup_insert_ne by done.
    destruct (loadedModels st !! mid') as [md'|]; [|done]. by exists md'.
Qed.

Lemma updateCableVisualsForPort_cables_keep_shape mid portName st :
  cables_keep_shape st (updateCableVisualsForPort mid portName st).
Proof.
  intros k. unfold updateCableVisualsForPort. cbn. rewrite lookup_fmap.
  destruct (cables st !! k) as [ci|]; [|done]. cbn. eexists. split; [done|].
  destruct (cable_touches_port mid portName ci); [|apply same_but_color_refl].
  repeat case_match;
    first [apply same_but_color_set|apply same_but_color_refl].
Qed.

Lemma setPortState_cables_keep_shape mid portName state blink st :
  cables_keep_shape st (setPortState mid portName state blink st).
Proof.
  rewrite setPortState_eq.
  destruct (loadedModels st !! mid) as [md|]; [|apply cables_keep_shape_refl].
  destruct (portIndicators md !! portName) as [p|];
    [|apply cables_keep_shape_refl].
  intros k.
  pose proof (updateCableVisualsForPort_cables_keep_shape mid portName
                (with_loadedModels
                   (<[mid := with_portIndicators
                               (<[portName := apply_port_state state blink p]>
                                  (portIndicators md)) md]> (loadedModels st)) st) k)
    as Hk.
  exact Hk.
Qed.

(** [setPortState] changes one port and the colour of cables, and nothing
    else: the scene, the loaded models with their roots, attach points and
    indicator names, every other port of every model, and the ids,
    endpoints and geometry of the cables stay as they are.  On a model or
    a port that is not registered it changes nothing at all. *)
Theorem setPortState_changes_one_port
    (mid portName state : string) (blink : bool) (st : State) :
  scene (setPortState mid portName state blink st) = scene st
  /\ fresh (setPortState mid portName state blink st) = fresh st
  /\ models_keep_shape st (setPortState mid portName state blink st)
  /\ (forall mid' portName',
        (mid', portName') <> (mid, portName) ->
        port_of mid' portName' (setPortState mid portName state blink st)
        = port_of mid' portName' st)
  /\ cables_keep_shape st (setPortState mid portName state blink st)
  /\ (port_of mid portName st = None ->
      setPortState mid portName state blink st = st).
Proof.
  split_and!.
  - apply setPortState_scene.
  - apply setPortState_scene.
  - apply setPortState_models_keep_shape.
  - intros mid' portName'. apply setPortState_other_port.
  - apply setPortState_cables_keep_shape.
  - apply setPortState_missing.
Qed.

(** After [setPortState] on a registered port, every cable with an end on
    that model at an attach point whose name starts with the indicator's
    name less '_Indicator' has the cable colour of the new state: 0x00aa00
    for 'active', 0xaa0000 for 'error', 0x505050 for any other state.
    Every other cable keeps its colour. *)
Theorem setPortState_recolors_cables_of_port
    (mid portName state : string) (blink : bool) (st : State)
    (portInfo : PortInfo) (k : string) (ci : CableInfo) :
  port_of mid portName st = Some portInfo ->
  cables st !! k = Some ci ->
  exists ci',
    cables (setPortState mid portName state blink st) !! k = Some ci'
    /\ same_but_color ci ci'
    /\ ((String.eqb (modelId (source ci)) mid
         && startsWith (portAttachName (source ci))
              (replace portName "_Indicator" "")
         || String.eqb (modelId (target ci)) mid
            && startsWith (portAttachName (target ci))
                 (replace portName "_Indicator" "")) = true ->
        (state = "active" -> cable_color (cable_object ci') = 0x00aa00)
        /\ (state = "error" -> cable_color (cable_object ci') = 0xaa0000)
        /\ (state <> "active" -> state <> "error" ->
            cable_color (cable_object ci') = 0x505050))
    /\ ((String.eqb (modelId (source ci)) mid
         && startsWith (portAttachName (source ci))
              (replace portName "_Indicator" "")
         || String.eqb (modelId (target ci)) mid
            && startsWith (portAttachName (target ci))
                 (replace portName "_Indicator" "")) = false ->
        ci' = ci).
Proof.
  intros Hp Hk. rewrite (setPortState_cables _ _ _ _ _ portInfo) by done.
  rewrite Hk. cbn. eexists. split; [done|].
  fold (cable_touches_port mid portName ci).
  destruct (cable_touches_port mid portName ci).
  - split; [apply same_but_color_set|]. split; [|done]. intros _. cbn.
    split_and!.
    + by intros ->.
    + by intros ->.
    + intros Ha He. apply String.eqb_neq in Ha, He. rewrite Ha, He.
      by destruct (String.eqb state "inactive").
  - split; [apply same_but_color_refl|]. by split.
Qed.

(** *** What a click can select *)

Lemma onCanvasClick_nil st : onCanvasClick [] st = [].
Proof. done. Qed.

Lemma onCanvasClick_taken intersects st ev :
  ev ∈ onCanvasClick intersects st ->
  taken_for_model st (ev_modelId ev) /\ ev_modelId ev <> ""
  /\ ev_objectName ev <> "".
Proof.
  destruct intersects as [|chain others]; [by intros ?%elem_of_nil|].
  destruct (onCanvasClick (chain :: others) st) as [|ev' [|]] eqn:Hev.
  - by intros ?%elem_of_nil.
  - intros ->%list_elem_of_singleton.
    destruct (onCanvasClick_event _ _ _ _ Hev)
      as [[(?&?&?&?&?&?) ->]|(n & (?&?&?&?&?&?&Hind&?&?&?) & ->)]; cbn.
    + done.
    + split_and!; try done. by apply (endsWith_nonempty n "_Indicator").
  - exfalso. revert Hev. unfold onCanvasClick.
    destruct (find_selection st chain) as [[[m|] portName] [ty|]]; cbn;
      repeat case_match; done.
Qed.

Lemma removeModelFromScene_not_loaded mid st :
  loadedModels (removeModelFromScene mid st) !! mid = None.
Proof.
  unfold removeModelFromScene.
  destruct (loadedModels st !! mid) as [md|] eqn:Hmd; [|done].
  cbn. apply lookup_delete_eq.
Qed.

(** Every event a click sends names, under a non-empty id and with a
    non-empty object name, a model that is loaded at that moment, or else
    a property that every object inherits ('toString', 'constructor',
    ...), for which the lookup in [loadedModels] finds a function.  So
    after [removeModelFromScene] no click selects the model taken out,
    unless its id is such a name; and after [dispose] a click selects
    nothing, unless an object with such a name is hit or lies above the
    indicator hit. *)
Theorem onCanvasClick_names_loaded_model_or_inherited_property
    (intersects : list (list string)) (st : State) :
  (forall ev, ev ∈ onCanvasClick intersects st ->
     (is_Some (loadedModels st !! ev_modelId ev)
      \/ inherited (ev_modelId ev) = true)
     /\ ev_modelId ev <> "" /\ ev_objectName ev <> "")
  /\ (forall mid ev,
        inherited mid = false ->
        ev ∈ onCanvasClick intersects (removeModelFromScene mid st) ->
        ev_modelId ev <> mid)
  /\ (forall ev, ev ∈ onCanvasClick intersects (dispose st) ->
        inherited (ev_modelId ev) = true)
  /\ (forall chain others,
        intersects = chain :: others ->
        (forall x, x ∈ chain -> inherited x = false) ->
        onCanvasClick intersects (dispose st) = []).
Proof.
  split_and!.
  - intros ev. apply onCanvasClick_taken.
  - intros mid ev Hinh [[[md Hmd]|Hev] _]%onCanvasClick_taken Heq.
    + by rewrite Heq, removeModelFromScene_not_loaded in Hmd.
    + congruence.
  - intros ev [[[md Hmd]|Hev] _]%onCanvasClick_taken; [|done].
    cbn in Hmd. by rewrite lookup_empty in Hmd.
  - intros chain others -> Hchain.
    assert (Hno : no_model_root (dispose st) chain).
    { intros x Hx [[md Hmd]|Hinh].
      - cbn in Hmd. by rewrite lookup_empty in Hmd.
      - by rewrite (Hchain x Hx) in Hinh. }
    apply find_selection_no_model_root in Hno. unfold onCanvasClick.
    destruct (find_selection (dispose st) chain) as [[m portName] objectType].
    cbn in Hno. by subst m.
Qed.

(** *** Identities *)

Lemma identities_below_fresh_same st st' :
  scene st' = scene st -> fresh st' = fresh st -> cables_keep_shape st st' ->
  identities_below_fresh st -> identities_below_fresh st'.
Proof.
  intros Hscene Hfresh Hcables [Hs Hc]. split.
  - rewrite Hscene, Hfresh. apply Hs.
  - intros k ci' Hk. rewrite Hfresh. specialize (Hcables k).
    destruct (cables st !! k) as [ci|] eqn:Hci; [|congruence].
    destruct Hcables as (ci'' & Hk' & Hsame). rewrite Hk in Hk'.
    injection Hk' as <-. destruct Hsame as (_&_&_&->&_). by eapply Hc.
Qed.

Lemma identities_below_fresh_grow st n :
  (fresh st <= n)%nat ->
  identities_below_fresh st -> identities_below_fresh (with_fresh n st).
Proof.
  intros Hle [Hs Hc]. split; cbn.
  - intros c Hin. specialize (Hs c Hin). lia.
  - intros k ci Hk. specialize (Hc k ci Hk). lia.
Qed.

Lemma cables_keep_shape_trans st1 st2 st3 :
  cables_keep_shape st1 st2 -> cables_keep_shape st2 st3 ->
  cables_keep_shape st1 st3.
Proof.
  intros H12 H23 k. specialize (H12 k). specialize (H23 k).
  destruct (cables st1 !! k) as [c1|].
  - destruct H12 as (c2 & Hc2 & Hs12). rewrite Hc2 in H23.
    destruct H23 as (c3 & Hc3 & Hs23). exists c3. split; [done|].
    destruct Hs12 as (?&?&?&?&?&?&?&?), Hs23 as (?&?&?&?&?&?&?&?).
    repeat split; congruence.
  - by rewrite H12 in H23.
Qed.

Lemma register_children_cables_keep_shape mid nodes entry st :
  cables_keep_shape st (fold_left (register_child mid) nodes (entry, st)).2.
Proof.
  revert entry st. induction nodes as [|child nodes IH]; intros entry st;
    [apply cables_keep_shape_refl|].
  cbn [fold_left]. unfold register_child at 2.
  repeat case_match; try apply IH.
  eapply cables_keep_shape_trans; [apply setPortState_cables_keep_shape|apply IH].
Qed.

Lemma addModelToScene_loaded_identities mid position rotation r st :
  identities_below_fresh st ->
  identities_below_fresh (addModelToScene_loaded mid position rotation r st).
Proof.
  intros Hinv. destruct r as [|gltf]; [done|]. unfold addModelToScene_loaded.
  destruct (has_scene st); [|done].
  set (st1 := scene_add _ _). set (entry0 := mkLoadedModel _ _ _ _).
  assert (Hst1 : identities_below_fresh st1).
  { destruct Hinv as [Hs Hc]. split; cbn.
    - intros c [Hin| ->%list_elem_of_singleton]%elem_of_app; cbn; [|lia].
      specialize (Hs c Hin). lia.
    - intros k ci Hk. specialize (Hc k ci Hk). lia. }
  pose proof (register_children_scene mid (traverse (set_name mid gltf)) entry0 st1)
    as [Hscene Hfresh].
  pose proof (register_children_cables_keep_shape mid
                (traverse (set_name mid gltf)) entry0 st1) as Hcables.
  destruct (fold_left _ _ _) as [entry st2]. cbn in Hscene, Hfresh, Hcables.
  pose proof (identities_below_fresh_same st1 st2 Hscene Hfresh Hcables Hst1)
    as [Hs Hc].
  by split.
Qed.

Lemma connectCable_loaded_identities cableId source target sa ta r st :
  identities_below_fresh st ->
  identities_below_fresh (connectCable_loaded cableId source target sa ta r st).
Proof.
  intros [Hs Hc]. destruct r as [|gltf]; [done|].
  unfold connectCable_loaded. cbv zeta.
  match goal with
  | |- identities_below_fresh (updateCableVisualsForPort ?m ?p ?s) =>
      apply (identities_below_fresh_same s); [done|done| |]
  end; [apply updateCableVisualsForPort_cables_keep_shape|].
  split; cbn.
  - intros c [Hin| ->%list_elem_of_singleton]%elem_of_app; cbn; [|lia].
    specialize (Hs c Hin). lia.
  - intros k ci [[_ <-]|[_ Hk]]%lookup_insert_Some; cbn; [lia|].
    specialize (Hc k ci Hk). lia.
Qed.

Lemma scene_remove_identities u st :
  identities_below_fresh st -> identities_below_fresh (scene_remove u st).
Proof.
  intros [Hs Hc]. split; [|done]. cbn.
  intros c Hin%list_elem_of_In%filter_In. apply Hs, list_elem_of_In, Hin.
Qed.

Lemma disconnectCable_identities cableId st :
  identities_below_fresh st -> identities_below_fresh (disconnectCable cableId st).
Proof.
  intros Hinv. unfold disconnectCable.
  destruct (cables st !! cableId) as [ci|]; [|done].
  destruct (scene_remove_identities (cable_uid (cable_object ci)) st Hinv)
    as [Hs Hc].
  split; [done|]. cbn. intros k ci' [_ Hk]%lookup_delete_Some. by eapply Hc.
Qed.

Lemma removeModelFromScene_identities mid st :
  identities_below_fresh st ->
  identities_below_fresh (removeModelFromScene mid st).
Proof.
  intros Hinv. unfold removeModelFromScene.
  destruct (loadedModels st !! mid) as [md|]; [|done].
  set (step := fun st cableId => _).
  assert (Hloop : identities_below_fresh (fold_left step (cable_keys st) st)).
  { revert Hinv. generalize (cable_keys st) as keys. generalize st as st0.
    intros st0 keys. revert st0.
    induction keys as [|k ks IH]; intros st0 Hinv; [done|].
    cbn [fold_left]. apply IH. unfold step.
    destruct (cables st0 !! k) as [ci|]; [|done].
    destruct (cable_references mid ci); [|done].
    by apply disconnectCable_identities. }
  destruct (scene_remove_identities (object md) _ Hloop) as [Hs Hc].
  by split.
Qed.

Lemma updateScene_cables_keep_uid now st k ci' :
  cables (updateScene now st) !! k = Some ci' ->
  exists ci, cables st !! k = Some ci
             /\ cable_uid (cable_object ci') = cable_uid (cable_object ci).
Proof.
  cbn. rewrite lookup_fmap. destruct (cables st !! k) as [ci|]; [|done].
  cbn. intros [= <-]. exists ci. split; [done|].
  unfold reposition_cable. by repeat case_match.
Qed.

Lemma run_operation_identities op st :
  identities_below_fresh st -> identities_below_fresh (run_operation op st).
Proof.
  intros Hinv. destruct op; cbn [run_operation].
  - destruct Hinv as [Hs Hc]. split; cbn.
    + intros c [->|[->|?%elem_of_nil]%elem_of_cons]%elem_of_cons; cbn; [lia|lia|done].
    + intros k ci Hk. specialize (Hc k ci Hk). lia.
  - unfold run_now, addModelToScene.
    destruct (js_get (loadedModels st) mid); [done|done|].
    by apply addModelToScene_loaded_identities.
  - by apply removeModelFromScene_identities.
  - eapply identities_below_fresh_same; [| | |done].
    + apply setPortState_scene.
    + apply setPortState_scene.
    + apply setPortState_cables_keep_shape.
  - unfold run_now, connectCable.
    repeat case_match; try done. by apply connectCable_loaded_identities.
  - by apply disconnectCable_identities.
  - apply (identities_below_fresh_same st); [done|done| |done].
    apply updateCableVisualsForPort_cables_keep_shape.
  - destruct Hinv as [Hs Hc]. split; [done|].
    intros k ci' (ci & Hk & ->)%updateScene_cables_keep_uid. by eapply Hc.
  - done.
  - destruct Hinv as [Hs Hc]. split; [done|]. cbn.
    intros k ci Hk. by rewrite lookup_empty in Hk.
Qed.

Lemma after_operations_invariants ops :
  identities_below_fresh (after_operations ops)
  /\ cables_join_loaded_models (after_operations ops).
Proof.
  unfold after_operations.
  assert (identities_below_fresh initial) as Hid.
  { split; cbn; [by intros ? ?%elem_of_nil|].
    intros k ci Hk. by rewrite lookup_empty in Hk. }
  pose proof initial_invariant as Hinv. revert Hid Hinv. generalize initial.
  induction ops as [|op ops IH]; intros st Hid Hinv; [done|].
  cbn [fold_left].
  apply IH; [by apply run_operation_identities|by apply run_operation_invariant].
Qed.

(** *** Cables connected and disconnected *)

Lemma scene_remove_last (u : nat) (c : SceneChild) (l : list SceneChild) :
  child_uid c = u -> (forall c', c' ∈ l -> (child_uid c' < u)%nat) ->
  List.filter (fun c' => negb (Nat.eqb (child_uid c') u)) (l ++ [c]) = l.
Proof.
  intros Hc Hl. rewrite js_filter_app. cbn. rewrite Hc, Nat.eqb_refl. cbn.
  rewrite app_nil_r. apply js_filter_all.
  intros c' Hin. specialize (Hl c' Hin).
  apply negb_true_iff, Nat.eqb_neq. lia.
Qed.

Lemma scene_remove_other (u : nat) (c : SceneChild) (l : list SceneChild) :
  c ∈ l -> child_uid c <> u ->
  c ∈ List.filter (fun c' => negb (Nat.eqb (child_uid c') u)) l.
Proof.
  intros Hin Hne. apply list_elem_of_In, filter_In. split.
  - by apply list_elem_of_In.
  - by apply negb_true_iff, Nat.eqb_neq.
Qed.

Lemma set_cable_color_uid c ci :
  cable_uid (cable_object (set_cable_color c ci)) = cable_uid (cable_object ci).
Proof. done. Qed.

Lemma updateCableVisualsForPort_lookup mid portName st :
  exists recolor,
    (forall st0, loadedModels st0 = loadedModels st ->
       cables (updateCableVisualsForPort mid portName st0)
       = recolor <$> cables st0)
    /\ forall ci, cable_uid (cable_object (recolor ci)) = cable_uid (cable_object ci).
Proof.
  eexists (fun ci =>
    if cable_touches_port mid portName ci then
      match js_get (loadedModels st) mid with
      | Own modelData =>
          match js_get (portIndicators modelData) portName with
          | Own portInfo =>
              set_cable_color (state_cable_color (currentState portInfo)) ci
          | Inherited => set_cable_color (state_cable_color None) ci
          | Missing => ci
          end
      | Inherited => ci
      | Missing => ci
      end
    else ci).
  split.
  - intros st0 Hst0. unfold updateCableVisualsForPort. cbn. by rewrite Hst0.
  - intros ci. by repeat case_match.
Qed.


(** [connectCable] under an id that is in use replaces the record of the
    cable and adds a cylinder without removing the one the record named:
    in a state reached by operations run to completion, the old cylinder
    is still in the scene after the new cable has been disconnected, when
    no record under that id is left. *)
Theorem connectCable_with_used_id_leaves_cylinder
    (ops : list Operation) (url cableId : string) (source target : Endpoint)
    (gltf : Object3D) (old : CableInfo) (c : SceneChild) :
  (cables (after_operations ops) !! cableId = Some old
   /\ c ∈ scene (after_operations ops)
   /\ child_uid c = cable_uid (cable_object old)
   /\ is_Some (attach_point (after_operations ops) source)
   /\ is_Some (attach_point (after_operations ops) target)) ->
  let st' :=
    disconnectCable cableId
      (run_now (connectCable url cableId source target) (Loaded gltf)
         (after_operations ops)) in
  c ∈ scene st' /\ cables st' !! cableId = None.
Proof.
  intros (Hold & Hin & Hc & [sa Hsa] & [ta Hta]). cbv zeta.
  destruct (after_operations_invariants ops) as [[Hs Hcab] _].
  set (st := after_operations ops) in *.
  unfold run_now. rewrite (connectCable_found _ _ _ _ _ sa ta) by done.
  cbn [settle]. unfold connectCable_loaded. cbv zeta.
  destruct (updateCableVisualsForPort_lookup (modelId source)
              (replace (portAttachName source) "_Attach" "_Indicator") st)
    as (recolor & Hrecolor & Huid).
  match goal with
  | |- context [updateCableVisualsForPort ?m ?p ?s] =>
      set (st1 := updateCableVisualsForPort m p s);
      assert (Hst1 : cables st1 = recolor <$> cables s)
        by (by apply Hrecolor);
      assert (Hscene1 : scene st1
                        = scene st ++ [CableCylinder (fresh st) cableId])
        by done
  end.
  cbn [cables with_cables scene_add with_scene with_fresh] in Hst1.
  rewrite fmap_insert in Hst1.
  unfold disconnectCable. rewrite Hst1, lookup_insert_eq.
  cbn [scene scene_remove with_cables with_scene loadedModels cables].
  rewrite Huid. cbn [cable_object cable_uid]. rewrite Hscene1. split.
  - apply scene_remove_other; [apply elem_of_app; by left|].
    specialize (Hcab cableId old Hold). lia.
  - apply lookup_delete_eq.
Qed.

(** *** Models removed *)

Lemma remove_cables_loop_scene mid ks st c :
  let step st cableId :=
    match cables st !! cableId with
    | Some cable =>
        if cable_references mid cable then disconnectCable cableId st else st
    | None => st
    end in
  (c ∈ scene (fold_left step ks st)
   <-> c ∈ scene st
       /\ forall k ci, k ∈ ks -> cables st !! k = Some ci ->
             cable_references mid ci = true ->
             child_uid c <> cable_uid (cable_object ci))
  /\ fresh (fold_left step ks st) = fresh st.
Proof.
  intros step. revert st. induction ks as [|k0 ks IH]; intros st.
  - cbn. split; [|done]. split; [intros Hin; split; [done|]|by intros [? _]].
    by intros k ci ?%elem_of_nil.
  - cbn [fold_left]. destruct (IH (step st k0)) as [IHs IHf].
    destruct (remove_cables_loop mid [k0] st) as [_ Hcables].
    cbv zeta in Hcables. cbn [fold_left] in Hcables. fold step in Hcables.
    assert (Hstep : (c ∈ scene (step st k0)
                     <-> c ∈ scene st
                         /\ forall ci, cables st !! k0 = Some ci ->
                               cable_references mid ci = true ->
                               child_uid c <> cable_uid (cable_object ci))
                    /\ fresh (step st k0) = fresh st).
    { unfold step, disconnectCable.
      destruct (cables st !! k0) as [c0|] eqn:Hk0.
      - destruct (cable_references mid c0) eqn:Href.
        + split; [|done]. cbn. rewrite list_elem_of_In, filter_In, <- list_elem_of_In.
          rewrite negb_true_iff, Nat.eqb_neq. split.
          * intros [Hin Hne]. split; [done|]. by intros ci [= <-] _.
          * intros [Hin Hne]. split; [done|]. by apply Hne.
        + split; [|done]. split; [|by intros [? _]].
          intros Hin. split; [done|]. intros ci [= <-]. congruence.
      - split; [|done]. split; [|by intros [? _]].
        intros Hin. split; [done|]. by intros ci. }
    destruct Hstep as [Hstep Hfresh]. split; [|congruence].
    rewrite IHs, Hstep. split.
    + intros [[Hin Hk0] Hks]. split; [done|].
      intros k ci [->|Hk]%elem_of_cons Hci Href; [by apply Hk0|].
      destruct (decide (k = k0)) as [->|Hne]; [by apply Hk0|].
      apply (Hks k); [done| |done]. rewrite Hcables, Hci.
      rewrite bool_decide_eq_false_2; [done|].
      by intros ->%list_elem_of_singleton.
    + intros [Hin Hall]. split_and!; [done| |].
      * intros ci Hci. apply (Hall k0); [by left|done].
      * intros k ci Hk Hci. apply (Hall k); [by right|].
        rewrite Hcables in Hci. destruct (cables st !! k); [|done].
        by case_match.
Qed.

(** [removeModelFromScene] on a loaded model takes out of [loadedModels]
    that model alone, out of [cables] exactly the cables with an end on it,
    and out of the scene the root of the model and the cylinders of those
    cables, and nothing else; on an id that is not loaded it changes
    nothing. *)
Theorem removeModelFromScene_removes_model_and_its_cables
    (mid : string) (st : State) :
  match loadedModels st !! mid with
  | None => removeModelFromScene mid st = st
  | Some md =>
      let st' := removeModelFromScene mid st in
      loadedModels st' = delete mid (loadedModels st)
      /\ (forall k,
            cables st' !! k
            = match cables st !! k with
              | Some ci => if cable_references mid ci then None else Some ci
              | None => None
              end)
      /\ (forall c,
            c ∈ scene st'
            <-> c ∈ scene st /\ child_uid c <> object md
                /\ forall k ci, cables st !! k = Some ci ->
                      cable_references mid ci = true ->
                      child_uid c <> cable_uid (cable_object ci))
      /\ fresh st' = fresh st
  end.
Proof.
  unfold removeModelFromScene.
  destruct (loadedModels st !! mid) as [md|] eqn:Hmd; [|done].
  destruct (remove_cables_loop mid (cable_keys st) st) as [Hmodels Hcables].
  cbv zeta in Hmodels, Hcables. cbv zeta.
  split_and!.
  - cbn. by rewrite Hmodels.
  - intros k. cbn. rewrite Hcables.
    destruct (cables st !! k) as [ci|] eqn:Hci; [|done].
    by rewrite (bool_decide_eq_true_2 _ (cable_keys_elem _ _ _ Hci)).
  - intros c.
    destruct (remove_cables_loop_scene mid (cable_keys st) st c) as [Hscene _].
    cbv zeta in Hscene. cbn.
    rewrite list_elem_of_In, filter_In, <- list_elem_of_In, Hscene.
    rewrite negb_true_iff, Nat.eqb_neq. split.
    + intros [[Hin Hall] Hne]. split_and!; [done|done|].
      intros k ci Hci. apply (Hall k); [|done]. by eapply cable_keys_elem.
    + intros (Hin & Hne & Hall). split_and!; [done| |done].
      intros k ci _. apply Hall.
  - destruct (remove_cables_loop_scene mid (cable_keys st) st (Light 0))
      as [_ Hfresh].
    cbv zeta in Hfresh. by cbn.
Qed.

Lemma remove_cables_loop_none mid ks st :
  (forall k ci, cables st !! k = Some ci -> cable_references mid ci = false) ->
  fold_left
    (fun st cableId =>
       match cables st !! cableId with
       | Some cable =>
           if cable_references mid cable then disconnectCable cableId st else st
       | None => st
       end) ks st = st.
Proof.
  intros Hnone. induction ks as [|k ks IH]; [done|]. cbn [fold_left].
  destruct (cables st !! k) as [ci|] eqn:Hci; [|done].
  by rewrite (Hnone k ci Hci).
Qed.

(** In a state reached by operations run to completion, adding a model
    under an id that is not loaded and removing it again gives back the
    scene, the loaded models and the cables as they were, whatever the
    load settled to. *)
Theorem addModelToScene_then_removeModelFromScene
    (ops : list Operation) (url mid : string) (position : option Vector3D)
    (rotation : option EulerRotation) (r : LoadResult) :
  loadedModels (after_operations ops) !! mid = None ->
  let st := after_operations ops in
  let st' :=
    removeModelFromScene mid
      (run_now (addModelToScene url mid position rotation) r st) in
  scene st' = scene st /\ loadedModels st' = loadedModels st
  /\ cables st' = cables st.
Proof.
  intros Hnone. cbv zeta.
  destruct (after_operations_invariants ops) as [[Hs Hc] Hjoin].
  set (st := after_operations ops) in *.
  destruct r as [|gltf].
  - rewrite addModelToScene_load_error. unfold removeModelFromScene.
    by rewrite Hnone.
  - assert (Hsame : removeModelFromScene mid st = st)
      by (unfold removeModelFromScene; by rewrite Hnone).
    destruct (inherited mid) eqn:Hinh.
    { unfold run_now. rewrite addModelToScene_refused by auto. cbn [settle].
      by rewrite Hsame. }
    destruct (has_scene st) eqn:Hhas; cycle 1.
    { unfold run_now. rewrite addModelToScene_no_scene by done.
      by rewrite Hsame. }
    destruct (addModelToScene_loads url mid position rotation gltf st
                Hnone Hinh Hhas) as (entry & -> & Hid & Hobj).
    unfold removeModelFromScene. cbn [loadedModels]. rewrite lookup_insert_eq.
    rewrite remove_cables_loop_none.
    + cbn. rewrite Hobj. split_and!; [|by apply delete_insert_id|done].
      by apply scene_remove_last.
    + cbn [cables]. intros k ci Hci. destruct (Hjoin k ci Hci) as [Hsrc Htgt].
      unfold cable_references. apply orb_false_iff.
      split; apply String.eqb_neq; intros Heq; rewrite Heq in *;
        [destruct Hsrc as [? ?]|destruct Htgt as [? ?]]; congruence.
Qed.

(** *** Cables on a frame *)

Lemma attach_point_updateBlinkingPorts now st e :
  attach_point (updateBlinkingPorts now st) e = attach_point st e.
Proof.
  unfold attach_point, updateBlinkingPorts. cbn. rewrite lookup_fmap.
  by destruct (loadedModels st !! modelId e).
Qed.

Lemma attach_point_updateScene now st e :
  attach_point (updateScene now st) e = attach_point st e.
Proof. apply attach_point_updateBlinkingPorts. Qed.

Lemma reposition_cable_attach st st' ci :
  (forall e, attach_point st' e = attach_point st e) ->
  reposition_cable st' ci = reposition_cable st ci.
Proof.
  intros Hsame. unfold reposition_cable.
  change (loadedModels st' !! modelId (source ci) ≫= _)
    with (attach_point st' (source ci)).
  change (loadedModels st' !! modelId (target ci) ≫= _)
    with (attach_point st' (target ci)).
  by rewrite !Hsame.
Qed.

Lemma reposition_cable_twice st ci :
  reposition_cable st (reposition_cable st ci) = reposition_cable st ci.
Proof.
  unfold reposition_cable.
  destruct (loadedModels st !! modelId (source ci) ≫= _) as [sa|] eqn:Hsa;
    [destruct (loadedModels st !! modelId (target ci) ≫= _) as [ta|] eqn:Hta|].
  - cbn. by rewrite Hsa, Hta.
  - by rewrite Hsa, Hta.
  - by rewrite Hsa.
Qed.

Lemma lengthOf_half v : lengthOf (multiplyScalar v (1 / 2)) = (lengthOf v / 2)%R.
Proof.
  unfold lengthOf, multiplyScalar. cbn.
  replace (vx v * (1 / 2) * (vx v * (1 / 2)) + vy v * (1 / 2) * (vy v * (1 / 2))
           + vz v * (1 / 2) * (vz v * (1 / 2)))%R
    with ((vx v * vx v + vy v * vy v + vz v * vz v) * ((1 / 2) * (1 / 2)))%R
    by lra.
  rewrite sqrt_mult_alt by nra.
  rewrite sqrt_square by lra. lra.
Qed.

Lemma lengthOf_zero v : lengthOf v = 0%R -> v = mkVector3 0 0 0.
Proof.
  unfold lengthOf. intros Hz%sqrt_eq_0; [|nra].
  destruct v as [x y z]. cbn in Hz.
  assert (x = 0)%R by nra. assert (y = 0)%R by nra. assert (z = 0)%R by nra.
  by subst.
Qed.

(** Half a vector has the direction of the vector. *)
Lemma normalize_half v : normalize (multiplyScalar v (1 / 2)) = normalize v.
Proof.
  unfold normalize. rewrite lengthOf_half.
  destruct (Req_dec_T (lengthOf v) 0) as [Hz|Hnz].
  - rewrite (lengthOf_zero v Hz). cbn.
    destruct (Req_dec_T _ 0) as [_|Hne]; f_equal; lra.
  - destruct (Req_dec_T (lengthOf v / 2) 0) as [Hz'|_]; [lra|].
    cbn. f_equal; field; lra.
Qed.

(** A frame leaves every cable its record, cylinder, length and colour.
    A cable whose two attach points are found is put halfway between them,
    along the direction from the source to the target; the length of the
    cylinder stays what it was when the cable was connected.  A cable with
    an attach point missing is left where it is. *)
Theorem updateScene_moves_cables_between_attach_points
    (now : Z) (st : State) (k : string) :
  match cables st !! k with
  | None => cables (updateScene now st) !! k = None
  | Some ci =>
      exists ci',
        cables (updateScene now st) !! k = Some ci'
        /\ cable_id ci' = cable_id ci /\ source ci' = source ci
        /\ target ci' = target ci
        /\ cable_uid (cable_object ci') = cable_uid (cable_object ci)
        /\ cable_name (cable_object ci') = cable_name (cable_object ci)
        /\ cable_height (cable_object ci') = cable_height (cable_object ci)
        /\ cable_color (cable_object ci') = cable_color (cable_object ci)
        /\ match attach_point st (source ci), attach_point st (target ci) with
           | Some sa, Some ta =>
               cable_position (cable_object ci')
               = midpoint (getWorldPosition sa) (getWorldPosition ta)
               /\ cable_axis (cable_object ci')
                  = normalize (subVectors (getWorldPosition ta)
                                 (getWorldPosition sa))
           | _, _ => ci' = ci
           end
  end.
Proof.
  cbn [updateScene cables with_cables]. rewrite lookup_fmap.
  change (cables (updateBlinkingPorts now st)) with (cables st).
  destruct (cables st !! k) as [ci|]; [|done]. cbn.
  eexists. split; [done|].
  rewrite (reposition_cable_attach st) by apply attach_point_updateBlinkingPorts.
  unfold reposition_cable.
  change (loadedModels st !! modelId (source ci) ≫= _)
    with (attach_point st (source ci)).
  change (loadedModels st !! modelId (target ci) ≫= _)
    with (attach_point st (target ci)).
  destruct (attach_point st (source ci)) as [sa|];
    [destruct (attach_point st (target ci)) as [ta|]|]; cbn; split_and!; try done.
  apply halfway_is_midpoint.
Qed.

(** A second frame moves no cable, and the frame after [connectCable]
    leaves the new cable as [connectCable] placed it. *)
Theorem updateScene_moves_no_cable_twice
    (now now' : Z) (st : State) :
  cables (updateScene now' (updateScene now st)) = cables (updateScene now st)
  /\ forall url cableId source target gltf,
       is_Some (attach_point st source) /\ is_Some (attach_point st target) ->
       cables (updateScene now
                 (run_now (connectCable url cableId source target)
                    (Loaded gltf) st)) !! cableId
       = cables (run_now (connectCable url cableId source target)
                   (Loaded gltf) st) !! cableId.
Proof.
  split.
  - cbn [updateScene cables with_cables].
    change (cables (updateBlinkingPorts now st)) with (cables st).
    change (cables (updateBlinkingPorts now' (updateScene now st)))
      with (reposition_cable (updateBlinkingPorts now st) <$> cables st).
    rewrite <- map_fmap_compose. apply map_fmap_ext. intros k ci _. cbn.
    rewrite (reposition_cable_attach st).
    + rewrite (reposition_cable_attach st (updateBlinkingPorts now st))
        by apply attach_point_updateBlinkingPorts.
      apply reposition_cable_twice.
    + intros e. rewrite attach_point_updateBlinkingPorts.
      unfold attach_point. cbn. rewrite lookup_fmap.
      by destruct (loadedModels st !! modelId e).
  - intros url cableId src tgt gltf [[sa Hsa] [ta Hta]].
    unfold run_now. rewrite (connectCable_found _ _ _ _ _ sa ta) by done.
    cbn [settle].
    set (st1 := connectCable_loaded cableId src tgt sa ta (Loaded gltf) st).
    destruct (connectCable_loaded_cable cableId src tgt sa ta gltf st)
      as [color Hcable]. fold st1 in Hcable.
    assert (Hattach : forall e, attach_point st1 e = attach_point st e) by done.
    cbn [updateScene cables with_cables].
    change (cables (updateBlinkingPorts now st1)) with (cables st1).
    rewrite lookup_fmap, Hcable. cbn [fmap option_fmap option_map]. f_equal.
    rewrite (reposition_cable_attach st)
      by (intros e; by rewrite attach_point_updateBlinkingPorts, Hattach).
    unfold reposition_cable. cbn [source target].
    change (loadedModels st !! modelId src ≫= _)
      with (attach_point st src).
    change (loadedModels st !! modelId tgt ≫= _)
      with (attach_point st tgt).
    rewrite Hsa, Hta. cbn. rewrite halfway_is_midpoint, normalize_half. done.
Qed.

End SceneEdits.

(* ===================================================================== *)
(** ** The component driving the scene                                    *)
(* ===================================================================== *)

Section ComponentScene.
Import Engine ThreeScene SceneSpec.
Context `{ColorParser}.

Lemma only_adds_models_same st st' :
  scene st' = scene st -> dom (loadedModels st') = dom (loadedModels st) ->
  cables_keep_shape st st' -> only_adds_models st st'.
Proof.
  intros Hscene Hdom Hcables. split_and!; [|by rewrite Hdom|done].
  exists []. by rewrite app_nil_r.
Qed.

Lemma only_adds_models_refl st : only_adds_models st st.
Proof. apply only_adds_models_same; [done|done|apply cables_keep_shape_refl]. Qed.

Lemma only_adds_models_trans st1 st2 st3 :
  only_adds_models st1 st2 -> only_adds_models st2 st3 ->
  only_adds_models st1 st3.
Proof.
  intros ((a12 & Hs12 & Hr12) & Hd12 & Hc12) ((a23 & Hs23 & Hr23) & Hd23 & Hc23).
  split_and!.
  - exists (a12 ++ a23). split; [by rewrite Hs23, Hs12, app_assoc|].
    by apply Forall_app.
  - by etrans.
  - by eapply cables_keep_shape_trans.
Qed.

Lemma setPortState_only_adds_models mid portName state blink st :
  only_adds_models st (setPortState mid portName state blink st).
Proof.
  apply only_adds_models_same.
  - apply setPortState_scene.
  - apply setPortState_same.
  - apply setPortState_cables_keep_shape.
Qed.

Lemma apply_ports_only_adds_models m st :
  only_adds_models st (TopologyViewer.apply_ports m st).
Proof.
  unfold TopologyViewer.apply_ports.
  generalize (TopologyState.ports m) as l. intros l. revert st.
  induction l as [|p l IH]; intros st; [apply only_adds_models_refl|].
  cbn [TopologyViewer.forEach_port].
  destruct (setPortState_throws _ _ st); [apply only_adds_models_refl|].
  eapply only_adds_models_trans; [apply setPortState_only_adds_models|apply IH].
Qed.

Lemma addModelToScene_loaded_only_adds_models mid position rotation r st :
  only_adds_models st (addModelToScene_loaded mid position rotation r st).
Proof.
  destruct r as [|gltf]; [apply only_adds_models_refl|].
  destruct (has_scene st) eqn:Hhas; cycle 1.
  { unfold addModelToScene_loaded. rewrite Hhas. apply only_adds_models_refl. }
  destruct (addModelToScene_loaded_scene mid position rotation gltf st Hhas)
    as [Hscene _].
  split_and!.
  - exists [ModelRoot (fresh st) mid position rotation]. split; [done|].
    by apply Forall_singleton.
  - unfold addModelToScene_loaded. rewrite Hhas.
    set (st1 := scene_add _ _). set (entry0 := mkLoadedModel _ _ _ _).
    pose proof (register_children_same mid (traverse (set_name mid gltf))
                  entry0 st1) as [_ Hdom].
    destruct (fold_left _ _ _) as [entry st2]. cbn in Hdom. cbn.
    rewrite dom_insert_L, Hdom. apply union_subseteq_r.
  - unfold addModelToScene_loaded. rewrite Hhas.
    set (st1 := scene_add _ _). set (entry0 := mkLoadedModel _ _ _ _).
    pose proof (register_children_cables_keep_shape mid
                  (traverse (set_name mid gltf)) entry0 st1) as Hcables.
    destruct (fold_left _ _ _) as [entry st2]. cbn in Hcables.
    intros k. specialize (Hcables k). by cbn in *.
Qed.

Lemma on_topology_calls topology st0 c :
  c ∈ TopologyViewer.on_topology topology st0 ->
  exists m,
    TopologyViewer.callback c = TopologyViewer.apply_ports m
    /\ (TopologyViewer.call c = Settled
        \/ exists url,
             TopologyViewer.call c
             = Await url
                 (addModelToScene_loaded (TopologyState.id m)
                    (Some (TopologyState.position m))
                    (Some (TopologyState.rotation m)))).
Proof.
  unfold TopologyViewer.on_topology. destruct topology as [t|];
    [|by intros ?%elem_of_nil].
  intros (m & -> & _)%list_elem_of_fmap. exists m. split; [done|]. cbn.
  unfold addModelToScene. destruct (js_get (loadedModels st0) _); eauto.
Qed.

(** Whatever topology is delivered, and whatever the state the calls were
    made on, the subscriber of [currentTopology$] only adds models: when
    all its loads have settled the scene is the one before followed by
    model roots, every model that was loaded is loaded, and every cable is
    there, the same but for its colour.  A model deleted from the store
    stays in the scene. *)
Theorem on_topology_only_adds_models
    (topology : option TopologyState.TopologyLayout)
    (loader : string -> LoadResult) (st0 st : State) :
  only_adds_models st
    (TopologyViewer.settle_all loader (TopologyViewer.on_topology topology st0) st).
Proof.
  unfold TopologyViewer.settle_all.
  pose proof (on_topology_calls topology st0) as Hcalls.
  generalize dependent (TopologyViewer.on_topology topology st0).
  intros calls Hcalls.
  assert (Hfirst : forall l st,
             (forall c, c ∈ l -> c ∈ calls) ->
             only_adds_models st
               (fold_left (fun st c => TopologyViewer.callback c st) l st)).
  { induction l as [|c l IH]; intros st1 Hl; [apply only_adds_models_refl|].
    cbn [fold_left].
    destruct (Hcalls c) as (m & -> & _); [apply Hl; by left|].
    eapply only_adds_models_trans; [apply apply_ports_only_adds_models|].
    apply IH. intros c' Hc'. apply Hl. by right. }
  assert (Hsecond : forall l st,
             (forall c, c ∈ l -> c ∈ calls) ->
             only_adds_models st
               (fold_left
                  (fun st c =>
                     match TopologyViewer.call c with
                     | Settled => st
                     | Await url resume =>
                         TopologyViewer.callback c (resume (loader url) st)
                     end) l st)).
  { induction l as [|c l IH]; intros st1 Hl; [apply only_adds_models_refl|].
    cbn [fold_left].
    eapply only_adds_models_trans; [|apply IH; intros c' Hc'; apply Hl; by right].
    destruct (Hcalls c) as (m & Hcb & [->|[url ->]]); [apply Hl; by left| |].
    - apply only_adds_models_refl.
    - rewrite Hcb.
      eapply only_adds_models_trans;
        [apply addModelToScene_loaded_only_adds_models
        |apply apply_ports_only_adds_models]. }
  eapply only_adds_models_trans; [apply Hfirst|by apply Hsecond].
  intros c Hc%list_elem_of_In%filter_In. apply list_elem_of_In, Hc.
Qed.

Lemma setPortState_keeps_port mid portName state blink mid' n st :
  is_Some (port_of mid' n st) ->
  is_Some (port_of mid' n (setPortState mid portName state blink st)).
Proof.
  intros [q Hq].
  destruct (decide ((mid', n) = (mid, portName))) as [[= -> ->]|Hne].
  - by rewrite (port_of_setPortState _ _ _ _ _ q).
  - by rewrite setPortState_other_port, Hq.
Qed.

Lemma apply_ports_fold_keeps_port mid mid' n l st :
  is_Some (port_of mid' n st) ->
  is_Some (port_of mid' n
    (fold_left
       (fun st portData =>
          setPortState mid (TopologyState.name portData)
            (TopologyState.status portData) (TopologyState.blinking portData) st)
       l st)).
Proof.
  revert st. induction l as [|p l IH]; intros st Hq; [done|].
  cbn [fold_left]. by apply IH, setPortState_keeps_port.
Qed.

(** Whether a call of [setPortState] throws depends on the names that are
    stored, which no call of [setPortState] changes. *)
Lemma setPortState_throws_after mid portName state blink mid' n st :
  setPortState_throws mid' n (setPortState mid portName state blink st)
  = setPortState_throws mid' n st.
Proof.
  pose proof (setPortState_models_keep_shape mid portName state blink st mid')
    as Hshape.
  unfold setPortState_throws, js_get.
  destruct (loadedModels st !! mid') as [md|].
  - destruct Hshape as (md' & -> & _ & _ & _ & Hdom).
    destruct (portIndicators md !! n) as [q|] eqn:Hq.
    + apply elem_of_dom_2 in Hq. rewrite <- Hdom in Hq.
      apply elem_of_dom in Hq as [q' ->]. done.
    + apply not_elem_of_dom in Hq. rewrite <- Hdom in Hq.
      apply not_elem_of_dom in Hq. by rewrite Hq.
  - by rewrite Hshape.
Qed.

Lemma setPortState_throws_after_fold mid mid' n l st :
  setPortState_throws mid' n
    (fold_left
       (fun st portData =>
          setPortState mid (TopologyState.name portData)
            (TopologyState.status portData) (TopologyState.blinking portData) st)
       l st)
  = setPortState_throws mid' n st.
Proof.
  revert st. induction l as [|p l IH]; intros st; [done|].
  cbn [fold_left]. by rewrite IH, setPortState_throws_after.
Qed.

(** As long as no call throws, the loop is the plain iteration. *)
Lemma forEach_port_returns mid l rest st :
  (forall p, p ∈ l -> setPortState_throws mid (TopologyState.name p) st = false) ->
  TopologyViewer.forEach_port mid (l ++ rest) st
  = TopologyViewer.forEach_port mid rest
      (fold_left
         (fun st portData =>
            setPortState mid (TopologyState.name portData)
              (TopologyState.status portData) (TopologyState.blinking portData) st)
         l st).
Proof.
  revert st. induction l as [|p l IH]; intros st Hl; [done|].
  cbn [app TopologyViewer.forEach_port fold_left].
  rewrite (Hl p) by (by left). apply IH.
  intros p' Hp'. rewrite setPortState_throws_after. apply Hl. by right.
Qed.

Lemma forEach_port_other mid mid' n l st :
  (mid' = mid -> forall p, p ∈ l -> TopologyState.name p <> n) ->
  port_of mid' n (TopologyViewer.forEach_port mid l st) = port_of mid' n st.
Proof.
  revert st. induction l as [|p l IH]; intros st Hl; [done|].
  cbn [TopologyViewer.forEach_port].
  destruct (setPortState_throws _ _ st); [done|]. rewrite IH.
  - apply setPortState_other_port. intros [= Hmid Hn].
    by apply (Hl Hmid p); [left|].
  - intros Hmid p' Hp'. apply (Hl Hmid). by right.
Qed.

(** The [then] callback of a model goes through the model's port entries
    in order.  As long as no call of [setPortState] throws, a registered
    port that is listed ends in the state and with the blink flag of the
    last entry that names it, whatever the earlier entries said.  A call
    throws on an entry whose name is not a registered indicator but the
    name of a property every object inherits: that entry ends the loop,
    and the entries after it are not applied.  Ports that no entry names,
    and the ports of every other model, are as they were in any case. *)
Theorem apply_ports_last_entry_decides
    (m : TopologyState.ModelInstance) (st : State) (n : string)
    (before after : list TopologyState.PortState) (p : TopologyState.PortState) :
  (TopologyState.ports m = before ++ p :: after
   /\ forall p', p' ∈ before ->
        setPortState_throws (TopologyState.id m) (TopologyState.name p') st
        = false) ->
  (is_Some (port_of (TopologyState.id m) n st) ->
   TopologyState.name p = n ->
   (forall p', p' ∈ after -> TopologyState.name p' <> n) ->
   exists q,
     port_of (TopologyState.id m) n (TopologyViewer.apply_ports m st) = Some q
     /\ currentState q = Some (TopologyState.status p)
     /\ blinking q
        = Some (if String.eqb (TopologyState.status p) "inactive"
                then false else TopologyState.blinking p))
  /\ (setPortState_throws (TopologyState.id m) (TopologyState.name p) st = true ->
      TopologyViewer.apply_ports m st
      = fold_left
          (fun st portData =>
             setPortState (TopologyState.id m) (TopologyState.name portData)
               (TopologyState.status portData) (TopologyState.blinking portData)
               st)
          before st)
  /\ (forall mid' n',
        (mid' = TopologyState.id m ->
         forall p', p' ∈ TopologyState.ports m -> TopologyState.name p' <> n') ->
        port_of mid' n' (TopologyViewer.apply_ports m st) = port_of mid' n' st).
Proof.
  intros (Hports & Hbefore). unfold TopologyViewer.apply_ports.
  split_and!.
  - intros Hq Hname Hafter. rewrite Hports, forEach_port_returns by done.
    destruct (apply_ports_fold_keeps_port (TopologyState.id m)
                (TopologyState.id m) n before st Hq) as [q0 Hq0].
    cbn [TopologyViewer.forEach_port].
    assert (Hreturns : setPortState_throws (TopologyState.id m)
                         (TopologyState.name p)
                         (fold_left
                            (fun st portData =>
                               setPortState (TopologyState.id m)
                                 (TopologyState.name portData)
                                 (TopologyState.status portData)
                                 (TopologyState.blinking portData) st)
                            before st) = false).
    { apply not_true_iff_false. intros Hthrows%setPortState_throws_iff.
      revert Hq0 Hthrows. unfold port_of. rewrite Hname.
      destruct (loadedModels _ !! TopologyState.id m) as [md|]; [|done]. cbn.
      intros Hq0 [Hnone _]. congruence. }
    rewrite Hreturns, forEach_port_other by (intros _; exact Hafter).
    rewrite Hname, (port_of_setPortState _ _ _ _ _ q0 Hq0).
    eexists. split; [done|]. split.
    + apply apply_port_state_currentState.
    + apply apply_port_state_blinking.
  - intros Hthrows. rewrite Hports, forEach_port_returns by done.
    cbn [TopologyViewer.forEach_port].
    by rewrite setPortState_throws_after_fold, Hthrows.
  - intros mid' n' Hother. by apply forEach_port_other.
Qed.

End ComponentScene.

(* ===================================================================== *)
(** ** Objects the service has forgotten                                  *)
(* ===================================================================== *)

Section SceneLifetime.
Import Engine ThreeScene SceneSpec.
Context `{ColorParser}.

Lemma unrecorded_keep_shape c st st' :
  models_keep_shape st st' -> cables_keep_shape st st' ->
  unrecorded c st -> unrecorded c st'.
Proof.
  intros Hmodels Hcables [Hm Hc]. split.
  - intros mid md' Hmd'. specialize (Hmodels mid).
    destruct (loadedModels st !! mid) as [md|] eqn:Hmd; [|congruence].
    destruct Hmodels as (md'' & Hmd'' & _ & Hobj & _).
    rewrite Hmd' in Hmd''. injection Hmd'' as <-. rewrite Hobj. by eapply Hm.
  - intros k ci' Hci'. specialize (Hcables k).
    destruct (cables st !! k) as [ci|] eqn:Hci; [|congruence].
    destruct Hcables as (ci'' & Hci'' & _ & _ & _ & Huid & _).
    rewrite Hci' in Hci''. injection Hci'' as <-. rewrite Huid. by eapply Hc.
Qed.

Lemma models_keep_shape_eq st st' :
  loadedModels st' = loadedModels st -> models_keep_shape st st'.
Proof.
  intros Heq mid. rewrite Heq. destruct (loadedModels st !! mid) as [md|]; [|done].
  by exists md.
Qed.

(** An object of the scene that no model and no cable records, and that
    was numbered before [fresh], stays such through every operation but
    [initScene]. *)
Lemma run_operation_keeps_unrecorded c op st :
  is_initScene op = false ->
  c ∈ scene st /\ unrecorded c st /\ (child_uid c < fresh st)%nat ->
  c ∈ scene (run_operation op st) /\ unrecorded c (run_operation op st)
  /\ (child_uid c < fresh (run_operation op st))%nat.
Proof.
  intros Hop (Hin & [Hm Hc] & Hlt).
  destruct op as [|url mid position rotation r|mid|mid portName state blink
                 |url cableId src tgt r|cableId|mid portName|now| |];
    cbn [run_operation]; [done|..].
  - destruct (loadedModels st !! mid) as [md|] eqn:Hmd;
      [by rewrite addModelToScene_duplicate|].
    destruct (inherited mid) eqn:Hinh;
      [unfold run_now; by rewrite addModelToScene_refused by auto|].
    destruct (has_scene st) eqn:Hhas;
      [|unfold run_now; by rewrite addModelToScene_no_scene].
    destruct r as [|gltf]; [by rewrite addModelToScene_load_error|].
    destruct (addModelToScene_loads url mid position rotation gltf st
                Hmd Hinh Hhas) as (entry & Heq & _ & Hobj).
    rewrite Heq. cbn. split_and!.
    + apply elem_of_app. by left.
    + split; cbn; [|done].
      intros mid' md' [[_ <-]|[_ Hmd']]%lookup_insert_Some; [lia|by eapply Hm].
    + lia.
  - unfold removeModelFromScene.
    destruct (loadedModels st !! mid) as [md|] eqn:Hmd; [|done].
    destruct (remove_cables_loop mid (cable_keys st) st) as [Hmodels Hcables].
    destruct (remove_cables_loop_scene mid (cable_keys st) st c)
      as [Hscene Hfresh].
    cbv zeta in Hmodels, Hcables, Hscene, Hfresh. cbn. split_and!.
    + apply list_elem_of_In, filter_In. split.
      * apply list_elem_of_In, Hscene. split; [done|].
        intros k ci _ Hci _ Heq. by apply (Hc k ci).
      * apply negb_true_iff, Nat.eqb_neq. intros Heq. by apply (Hm mid md).
    + split; cbn.
      * rewrite Hmodels. intros mid' md' [_ Hmd']%lookup_delete_Some.
        by eapply Hm.
      * intros k ci Hci. rewrite Hcables in Hci.
        destruct (cables st !! k) as [ci0|] eqn:Hci0; [|done].
        destruct (_ && _); [done|]. injection Hci as <-. by eapply Hc.
    + by rewrite Hfresh.
  - destruct (setPortState_scene mid portName state blink st) as [-> ->].
    split_and!; [done| |done].
    apply (unrecorded_keep_shape c st);
      [apply setPortState_models_keep_shape
      |apply setPortState_cables_keep_shape|done].
  - unfold run_now, connectCable.
    repeat case_match; try done. cbn [settle].
    destruct r as [|gltf]; [done|]. unfold connectCable_loaded. cbv zeta.
    match goal with
    | |- context [updateCableVisualsForPort ?m ?p ?s] =>
        set (st0 := s);
        assert (Hst0 : unrecorded c st0)
    end.
    { split; cbn; [done|].
      intros k ci [[_ <-]|[_ Hci]]%lookup_insert_Some; cbn; [lia|by eapply Hc]. }
    split_and!.
    + cbn. apply elem_of_app. by left.
    + apply (unrecorded_keep_shape c st0);
        [by apply models_keep_shape_eq
        |apply updateCableVisualsForPort_cables_keep_shape|done].
    + cbn. lia.
  - unfold disconnectCable.
    destruct (cables st !! cableId) as [ci|] eqn:Hci; [|done]. cbn. split_and!.
    + apply list_elem_of_In, filter_In. split; [by apply list_elem_of_In|].
      apply negb_true_iff, Nat.eqb_neq. intros Heq. by apply (Hc cableId ci).
    + split; cbn; [done|].
      intros k ci' [_ Hci']%lookup_delete_Some. by eapply Hc.
    + done.
  - split_and!; [done| |done].
    apply (unrecorded_keep_shape c st);
      [by apply models_keep_shape_eq
      |apply updateCableVisualsForPort_cables_keep_shape|done].
  - split_and!; [done| |done]. split.
    + cbn. intros mid md'. rewrite lookup_fmap.
      destruct (loadedModels st !! mid) as [md|] eqn:Hmd; [|done].
      cbn. intros [= <-]. cbn. by eapply Hm.
    + intros k ci' (ci & Hci & ->)%updateScene_cables_keep_uid. by eapply Hc.
  - done.
  - split_and!; [done| |done]. split; cbn; intros ? ?; by rewrite lookup_empty.
Qed.

Lemma run_operations_keep_unrecorded c ops st :
  forallb (fun op => negb (is_initScene op)) ops = true ->
  c ∈ scene st /\ unrecorded c st /\ (child_uid c < fresh st)%nat ->
  c ∈ scene (run_operations ops st).
Proof.
  unfold run_operations. revert st.
  induction ops as [|op ops IH]; intros st Hops Hinv; [by destruct Hinv|].
  cbn in Hops. apply andb_true_iff in Hops as [Hop Hops].
  cbn [fold_left]. apply IH; [done|].
  apply run_operation_keeps_unrecorded; [by apply negb_true_iff|done].
Qed.

(** [dispose] forgets the models and the cables and leaves their objects
    in the scene: in a state reached by operations run to completion,
    whatever is in the scene when [dispose] is called is still in it after
    any further operations other than [initScene], removals included. *)
Theorem dispose_leaves_objects_in_scene
    (ops later : list Operation) (c : SceneChild) :
  (c ∈ scene (after_operations ops)
   /\ forallb (fun op => negb (is_initScene op)) later = true) ->
  scene (dispose (after_operations ops)) = scene (after_operations ops)
  /\ c ∈ scene (run_operations later (dispose (after_operations ops))).
Proof.
  intros [Hin Hlater]. split; [done|].
  destruct (after_operations_invariants ops) as [[Hs _] _].
  apply run_operations_keep_unrecorded; [done|]. split_and!.
  - done.
  - split; cbn; intros ? ?; by rewrite lookup_empty.
  - by apply Hs.
Qed.

(** [initScene] starts a scene of two lights and keeps the models and
    cables the service has recorded: a model that was loaded is in no
    scene any more, and [addModelToScene] under its id is refused.  After
    [dispose] the same call is taken, as is every call under an id that
    names no property that every object inherits. *)
Theorem initScene_keeps_records_of_old_scene
    (st : State) (url mid : string) (position : option Vector3D)
    (rotation : option EulerRotation) (r : LoadResult) :
  scene (initScene st) = [Light (fresh st); Light (S (fresh st))]
  /\ has_scene (initScene st) = true
  /\ loadedModels (initScene st) = loadedModels st
  /\ cables (initScene st) = cables st
  /\ (is_Some (loadedModels st !! mid) ->
      run_now (addModelToScene url mid position rotation) r (initScene st)
      = initScene st)
  /\ (forall gltf,
        r = Loaded gltf -> inherited mid = false ->
        scene (run_now (addModelToScene url mid position rotation) r
                 (initScene (dispose st)))
        = [Light (fresh st); Light (S (fresh st));
           ModelRoot (2 + fresh st) mid position rotation]).
Proof.
  split_and!; try done.
  - intros Hloaded. by apply addModelToScene_duplicate.
  - intros gltf -> Hinh.
    destruct (addModelToScene_loads url mid position rotation gltf
                (initScene (dispose st))) as (entry & -> & _); try done.
Qed.

End SceneLifetime.

(* ===================================================================== *)
(** ** The names the service stores                                       *)
(* ===================================================================== *)

Section StoredNames.
Import Engine ThreeScene SceneSpec.
Context `{ColorParser}.

Lemma names_keep_shape st st' :
  models_keep_shape st st' -> names_as_registered st -> names_as_registered st'.
Proof.
  intros Hshape Hnames mid md' Hmd'. specialize (Hshape mid).
  destruct (loadedModels st !! mid) as [md|] eqn:Hmd; [|congruence].
  destruct Hshape as (md'' & Heq & _ & _ & Hattach & Hdom).
  rewrite Hmd' in Heq. injection Heq as <-.
  destruct (Hnames mid md Hmd) as (Hid & Hind & Hatt). split_and!; [done| |].
  - intros n Hn. apply Hind, elem_of_dom. rewrite <- Hdom. by apply elem_of_dom.
  - intros n. rewrite Hattach. apply Hatt.
Qed.

Lemma attach_point_keep_shape st st' e :
  models_keep_shape st st' -> attach_point st' e = attach_point st e.
Proof.
  intros Hshape. specialize (Hshape (modelId e)). unfold attach_point.
  destruct (loadedModels st !! modelId e) as [md|].
  - destruct Hshape as (md' & -> & _ & _ & Hattach & _). cbn. by rewrite Hattach.
  - by rewrite Hshape.
Qed.

Lemma cables_at_attach_points_keep_shape st st' :
  (forall e, attach_point st' e = attach_point st e) ->
  cables_keep_shape st st' ->
  cables_at_attach_points st -> cables_at_attach_points st'.
Proof.
  intros Hattach Hcables Hat k ci' Hk. specialize (Hcables k).
  destruct (cables st !! k) as [ci|] eqn:Hci; [|congruence].
  destruct Hcables as (ci'' & Heq & _ & Hsource & Htarget & _).
  rewrite Hk in Heq. injection Heq as <-.
  rewrite Hsource, Htarget, !Hattach. by apply (Hat k).
Qed.

Lemma updateScene_models_keep_shape now st :
  models_keep_shape st (updateScene now st).
Proof.
  intros mid. cbn. rewrite lookup_fmap.
  destruct (loadedModels st !! mid) as [md|]; [|done]. cbn.
  eexists. split; [done|]. split_and!; try done. cbn. by rewrite dom_fmap_L.
Qed.

(** The names the traversal enters in the entry of a model. *)
Lemma register_child_names mid entry st child :
  (forall n, is_Some (portIndicators entry !! n) ->
     endsWith n "_Indicator" = true) ->
  (forall n, is_Some (portAttachPoints entry !! n) ->
     endsWith n "_Attach" = true) ->
  (forall n, is_Some (portIndicators (register_child mid (entry, st) child).1 !! n) ->
     endsWith n "_Indicator" = true)
  /\ (forall n, is_Some (portAttachPoints (register_child mid (entry, st) child).1 !! n) ->
        endsWith n "_Attach" = true).
Proof.
  intros Hind Hatt. unfold register_child.
  destruct (isMesh child && endsWith (name child) "_Indicator") eqn:Hmesh.
  - apply andb_true_iff in Hmesh as [_ Hmesh]. split; [|done]. cbn.
    intros n [<-|[_ Hn]]%lookup_insert_is_Some; [done|by apply Hind].
  - destruct (endsWith (name child) "_Attach") eqn:Hattach; [|done].
    split; [done|]. cbn.
    intros n [<-|[_ Hn]]%lookup_insert_is_Some; [done|by apply Hatt].
Qed.

Lemma register_children_names mid nodes entry st :
  (forall n, is_Some (portIndicators entry !! n) ->
     endsWith n "_Indicator" = true) ->
  (forall n, is_Some (portAttachPoints entry !! n) ->
     endsWith n "_Attach" = true) ->
  (forall n,
     is_Some (portIndicators (fold_left (register_child mid) nodes (entry, st)).1
                !! n) ->
     endsWith n "_Indicator" = true)
  /\ (forall n,
        is_Some (portAttachPoints
                   (fold_left (register_child mid) nodes (entry, st)).1 !! n) ->
        endsWith n "_Attach" = true).
Proof.
  revert entry st. induction nodes as [|child nodes IH]; intros entry st Hind Hatt;
    [done|].
  cbn [fold_left].
  destruct (register_child_names mid entry st child Hind Hatt) as [Hind' Hatt'].
  destruct (register_child mid (entry, st) child) as [entry' st'].
  by apply IH.
Qed.

Lemma run_operation_names op st :
  names_as_registered st -> names_as_registered (run_operation op st).
Proof.
  intros Hnames.
  destruct op as [|url mid position rotation r|mid|mid portName state blink
                 |url cableId src tgt r|cableId|mid portName|now| |];
    cbn [run_operation].
  - done.
  - destruct (loadedModels st !! mid) as [md|] eqn:Hmd;
      [by rewrite addModelToScene_duplicate|].
    destruct (inherited mid) eqn:Hinh;
      [unfold run_now; by rewrite addModelToScene_refused by auto|].
    destruct (has_scene st) eqn:Hhas;
      [|unfold run_now; by rewrite addModelToScene_no_scene].
    destruct r as [|gltf]; [by rewrite addModelToScene_load_error|].
    rewrite addModelToScene_loads_entry by done.
    intros mid' md'. cbn.
    intros [[<- <-]|[_ Hmd']]%lookup_insert_Some; [|by apply (Hnames mid')].
    split; [done|]. apply register_children_names; cbn.
    + intros n [q Hq]. by rewrite lookup_empty in Hq.
    + intros n [q Hq]. by rewrite lookup_empty in Hq.
  - unfold removeModelFromScene.
    destruct (loadedModels st !! mid) as [md|] eqn:Hmd; [|done].
    destruct (remove_cables_loop mid (cable_keys st) st) as [Hmodels _].
    cbv zeta in Hmodels. intros mid' md'. cbn. rewrite Hmodels.
    intros [_ Hmd']%lookup_delete_Some. by apply (Hnames mid').
  - eapply names_keep_shape; [apply setPortState_models_keep_shape|done].
  - unfold run_now.
    destruct (attach_point st src) as [sa|] eqn:Hsa;
      [destruct (attach_point st tgt) as [ta|] eqn:Hta|].
    + rewrite (connectCable_found _ _ _ _ _ sa ta) by done.
      destruct r as [|gltf]; [done|]. done.
    + by rewrite connectCable_missing by auto.
    + by rewrite connectCable_missing by auto.
  - unfold disconnectCable. by destruct (cables st !! cableId).
  - done.
  - eapply names_keep_shape; [apply updateScene_models_keep_shape|done].
  - done.
  - intros mid md Hmd. cbn in Hmd. by rewrite lookup_empty in Hmd.
Qed.

Lemma run_operation_attach_points op st :
  cables_at_attach_points st -> cables_at_attach_points (run_operation op st).
Proof.
  intros Hat.
  destruct op as [|url mid position rotation r|mid|mid portName state blink
                 |url cableId src tgt r|cableId|mid portName|now| |];
    cbn [run_operation].
  - done.
  - destruct (loadedModels st !! mid) as [md|] eqn:Hmd;
      [by rewrite addModelToScene_duplicate|].
    destruct (inherited mid) eqn:Hinh;
      [unfold run_now; by rewrite addModelToScene_refused by auto|].
    destruct (has_scene st) eqn:Hhas;
      [|unfold run_now; by rewrite addModelToScene_no_scene].
    destruct r as [|gltf]; [by rewrite addModelToScene_load_error|].
    destruct (addModelToScene_loads url mid position rotation gltf st
                Hmd Hinh Hhas) as (entry & -> & _).
    intros k ci Hk. cbn in Hk. destruct (Hat k ci Hk) as [Hsrc Htgt].
    assert (Hother : forall e, is_Some (attach_point st e) ->
              attach_point
                (mkState true
                   (scene st ++ [ModelRoot (fresh st) mid position rotation])
                   (<[mid := entry]> (loadedModels st)) (cables st)
                   (S (fresh st))) e
              = attach_point st e).
    { intros e [a Ha]. unfold attach_point in *. cbn.
      rewrite lookup_insert_ne; [done|]. intros Heq. rewrite <- Heq in Ha.
      by rewrite Hmd in Ha. }
    by rewrite !Hother.
  - unfold removeModelFromScene.
    destruct (loadedModels st !! mid) as [md|] eqn:Hmd; [|done].
    destruct (remove_cables_loop mid (cable_keys st) st) as [Hmodels Hcables].
    cbv zeta in Hmodels, Hcables. intros k ci Hk. cbn in Hk.
    rewrite Hcables in Hk.
    destruct (cables st !! k) as [ci0|] eqn:Hci0; [|done].
    rewrite (bool_decide_eq_true_2 _ (cable_keys_elem _ _ _ Hci0)) in Hk.
    cbn in Hk. destruct (cable_references mid ci0) eqn:Href; [done|].
    injection Hk as <-. apply cable_references_false in Href as [Hs Ht].
    destruct (Hat k ci0 Hci0) as [Hsrc Htgt].
    unfold attach_point in *. cbn. rewrite Hmodels.
    by rewrite !lookup_delete_ne.
  - eapply cables_at_attach_points_keep_shape; [| |done].
    + intros e. apply attach_point_keep_shape, setPortState_models_keep_shape.
    + apply setPortState_cables_keep_shape.
  - unfold run_now.
    destruct (attach_point st src) as [sa|] eqn:Hsa;
      [destruct (attach_point st tgt) as [ta|] eqn:Hta|].
    + rewrite (connectCable_found _ _ _ _ _ sa ta) by done.
      destruct r as [|gltf]; [done|]. cbn [settle].
      unfold connectCable_loaded. cbv zeta.
      match goal with
      | |- cables_at_attach_points (updateCableVisualsForPort ?m ?p ?s) =>
          apply (cables_at_attach_points_keep_shape s);
            [done|apply updateCableVisualsForPort_cables_keep_shape|]
      end.
      intros k ci. cbn.
      intros [[_ <-]|[_ Hk]]%lookup_insert_Some; [|by apply (Hat k)].
      cbn. split; by eexists.
    + by rewrite connectCable_missing by auto.
    + by rewrite connectCable_missing by auto.
  - unfold disconnectCable. destruct (cables st !! cableId) as [ci0|]; [|done].
    intros k ci. cbn. intros [_ Hk]%lookup_delete_Some. by apply (Hat k).
  - apply (cables_at_attach_points_keep_shape st); [done| |done].
    apply updateCableVisualsForPort_cables_keep_shape.
  - intros k ci'. cbn. rewrite lookup_fmap.
    destruct (cables st !! k) as [ci|] eqn:Hci; [|done]. cbn. intros [= <-].
    destruct (Hat k ci Hci) as [Hsrc Htgt].
    assert (Hends : source (reposition_cable (updateBlinkingPorts now st) ci)
                    = source ci
                    /\ target (reposition_cable (updateBlinkingPorts now st) ci)
                       = target ci)
      by (unfold reposition_cable; by repeat case_match).
    destruct Hends as [-> ->].
    change (is_Some (attach_point (updateScene now st) (source ci))
            /\ is_Some (attach_point (updateScene now st) (target ci))).
    by rewrite !attach_point_updateScene.
  - done.
  - intros k ci Hk. cbn in Hk. by rewrite lookup_empty in Hk.
Qed.

(** In any state the service reaches by operations that each run to
    completion, every model is stored under an id that names no property
    that every object inherits, every indicator under a name that ends in
    '_Indicator' and every attach point under a name that ends in
    '_Attach', and both ends of every cable are attach points stored on
    loaded models.  So on such a state no lookup that starts from a stored
    name or from the end of a cable finds an inherited property, and
    [updateScene] finds both attach points of every cable. *)
Theorem stored_names_are_as_registered (ops : list Operation) :
  names_as_registered (after_operations ops)
  /\ cables_at_attach_points (after_operations ops)
  /\ (forall k ci,
        cables (after_operations ops) !! k = Some ci ->
        inherited (modelId (source ci)) = false
        /\ inherited (modelId (target ci)) = false
        /\ endsWith (portAttachName (source ci)) "_Attach" = true
        /\ endsWith (portAttachName (target ci)) "_Attach" = true).
Proof.
  assert (Hinv : names_as_registered (after_operations ops)
                 /\ cables_at_attach_points (after_operations ops)).
  { unfold after_operations.
    assert (Hnames : names_as_registered initial)
      by (intros mid md Hmd; cbn in Hmd; by rewrite lookup_empty in Hmd).
    assert (Hat : cables_at_attach_points initial)
      by (intros k ci Hk; cbn in Hk; by rewrite lookup_empty in Hk).
    revert Hnames Hat. generalize initial.
    induction ops as [|op ops IH]; intros st Hnames Hat; [done|].
    cbn [fold_left].
    apply IH; [by apply run_operation_names|by apply run_operation_attach_points]. }
  destruct Hinv as [Hnames Hat]. split_and!; [done|done|].
  intros k ci Hk. destruct (Hat k ci Hk) as [[sa Hsa] [ta Hta]].
  unfold attach_point in Hsa, Hta.
  destruct (loadedModels (after_operations ops) !! modelId (source ci))
    as [sm|] eqn:Hsm; [|done].
  destruct (loadedModels (after_operations ops) !! modelId (target ci))
    as [tm|] eqn:Htm; [|done].
  cbn in Hsa, Hta.
  destruct (Hnames _ _ Hsm) as (Hs & _ & Hsatt).
  destruct (Hnames _ _ Htm) as (Ht & _ & Htatt).
  split_and!; [done|done|apply Hsatt; by eexists|apply Htatt; by eexists].
Qed.

End StoredNames.

(* ===================================================================== *)
(** ** The sample service                                                 *)
(* ===================================================================== *)

Section SceneEditsExamples.
Import Engine ThreeScene SceneSpec ThreeColor.

Example two_models_ops_reach_two_models :
  after_operations two_models_ops = two_models
  /\ after_operations one_cable_ops = one_cable.
Proof. split; reflexivity. Qed.

Lemma setPortState_recolors_cables_of_port_witness :
  exists ci',
    cables (setPortState "sw1" "P1_Indicator" "active" false one_cable) !! "c1"
    = Some ci'
    /\ cable_color (cable_object ci') = 0x00aa00.
Proof.
  destruct (setPortState_recolors_cables_of_port
              "sw1" "P1_Indicator" "active" false one_cable _ "c1" _
              eq_refl eq_refl) as (ci' & Hci' & _ & Htouches & _).
  exists ci'. split; [exact Hci'|]. by apply Htouches.
Defined.


Lemma connectCable_with_used_id_leaves_cylinder_witness :
  CableCylinder 4 "c1"
  ∈ scene (disconnectCable "c1"
             (run_now (connectCable "assets/models/cable.glb" "c1" sw1_p1 rt1_p1)
                (Loaded router_asset) (after_operations one_cable_ops)))
  /\ cables (disconnectCable "c1"
               (run_now (connectCable "assets/models/cable.glb" "c1" sw1_p1 rt1_p1)
                  (Loaded router_asset) (after_operations one_cable_ops)))
       !! "c1" = None.
Proof.
  apply (connectCable_with_used_id_leaves_cylinder one_cable_ops
           "assets/models/cable.glb" "c1" sw1_p1 rt1_p1 router_asset
           (default (mkCableInfo "" (mkCableMesh 0 "" 0 (mkVector3 0 0 0)
                                       (mkVector3 0 0 0) 0) sw1_p1 rt1_p1)
              (cables (after_operations one_cable_ops) !! "c1"))
           (CableCylinder 4 "c1")).
  split_and!.
  - reflexivity.
  - apply (list_elem_of_lookup_2 _ 4%nat). reflexivity.
  - reflexivity.
  - eexists. reflexivity.
  - eexists. reflexivity.
Defined.

Lemma addModelToScene_then_removeModelFromScene_witness :
  scene (removeModelFromScene "sw9"
           (run_now (addModelToScene "assets/models/Switch_ModelA.glb" "sw9"
                       None None)
              (Loaded switch_asset) (after_operations two_models_ops)))
  = scene (after_operations two_models_ops).
Proof.
  destruct (addModelToScene_then_removeModelFromScene two_models_ops
              "assets/models/Switch_ModelA.glb" "sw9" None None
              (Loaded switch_asset) eq_refl) as [Hscene _].
  exact Hscene.
Defined.

Lemma apply_ports_last_entry_decides_witness :
  exists q,
    port_of "sw1" "P1_Indicator"
      (TopologyViewer.apply_ports
         (TopologyState.mkModelInstance "sw1" "Switch_ModelA"
            "assets/models/Switch_ModelA.glb" None
            StoreSpec.origin StoreSpec.upright
            [ TopologyState.mkPortState "P1_Indicator" "active" true None;
              TopologyState.mkPortState "P1_Indicator" "error" false None ])
         two_models)
    = Some q
    /\ currentState q = Some "error".
Proof.
  destruct (apply_ports_last_entry_decides
              (TopologyState.mkModelInstance "sw1" "Switch_ModelA"
                 "assets/models/Switch_ModelA.glb" None
                 StoreSpec.origin StoreSpec.upright
                 [ TopologyState.mkPortState "P1_Indicator" "active" true None;
                   TopologyState.mkPortState "P1_Indicator" "error" false None ])
              two_models "P1_Indicator"
              [ TopologyState.mkPortState "P1_Indicator" "active" true None ] []
              (TopologyState.mkPortState "P1_Indicator" "error" false None))
    as [Hlast _].
  - split; [reflexivity|]. intros p' Hp'.
    apply list_elem_of_singleton in Hp' as ->. reflexivity.
  - destruct Hlast as (q & Hq & Hstate & _).
    + eexists. reflexivity.
    + reflexivity.
    + by intros p' ?%elem_of_nil.
    + exists q. by split.
Defined.

(** An entry named 'toString' before the entry of the first port: the
    call for it throws, and the first port is never set. *)
Example apply_ports_stops_at_inherited_name :
  port_of "sw1" "P1_Indicator"
    (TopologyViewer.apply_ports
       (TopologyState.mkModelInstance "sw1" "Switch_ModelA"
          "assets/models/Switch_ModelA.glb" None
          StoreSpec.origin StoreSpec.upright
          [ TopologyState.mkPortState "toString" "active" false None;
            TopologyState.mkPortState "P1_Indicator" "error" false None ])
       two_models)
  = port_of "sw1" "P1_Indicator" two_models.
Proof. reflexivity. Qed.

Lemma dispose_leaves_objects_in_scene_witness :
  ModelRoot 2 "sw1" None None
  ∈ scene (run_operations [RemoveModelFromScene "sw1"]
             (dispose (after_operations two_models_ops))).
Proof.
  apply (dispose_leaves_objects_in_scene two_models_ops
           [RemoveModelFromScene "sw1"] (ModelRoot 2 "sw1" None None)).
  split; [|reflexivity].
  apply (list_elem_of_lookup_2 _ 2%nat). reflexivity.
Defined.

(** The indicator name less '_Indicator' is matched as a prefix of the
    attach point's name: on a model with more than nine ports the cable
    at 'P10_Attach' is recoloured with port 'P1_Indicator'. *)
Example cable_touches_port_by_prefix :
  cable_touches_port "sw1" "P1_Indicator"
    (mkCableInfo "c2"
       (mkCableMesh 7 "c2" 1 (mkVector3 0 0 0) (mkVector3 0 1 0) 0x555555)
       (mkEndpoint "sw1" "P10_Attach") rt1_p1)
  = true.
Proof. reflexivity. Qed.

End SceneEditsExamples.
